(** * Reversible layers of the Reformer (trax/models/reformer/reformer.py)

    A shallow embedding of the reversible part of [reformer.py]: the chunking
    layers [Chunk] and [Unchunk], the output splitting layer [SplitForOutput],
    and the two half-residual layers [ReversibleHalfResidual] and
    [ReversibleAttentionHalfResidual].

    Further sections embed the [Map] and [BroadcastedDropout] layers, the
    reshaping around the chunked feed-forward block and in
    [ReformerShortenLM], and the layers and attention classes of the decoder
    blocks.

    Tensors are row-major arrays of integers (exact arithmetic): a shape and
    the flat list of entries.  Python exceptions are the left injection of a
    result type. *)

From Stdlib Require Import List ZArith Lia Bool PeanoNat.
Import ListNotations.

Set Implicit Arguments.

(** ** Exceptions and results *)

Inductive error : Type :=
| AssertionError
| ZeroDivisionError
| IndexError
| ValueError
| TypeError
| ShapeMismatch.

Inductive result (A : Type) : Type :=
| Ok (a : A)
| Err (e : error).

Arguments Ok {A} a.
Arguments Err {A} e.

Definition bind {A B : Type} (r : result A) (k : A -> result B) : result B :=
  match r with
  | Ok a => k a
  | Err e => Err e
  end.

Declare Scope result_scope.
Delimit Scope result_scope with result.
Notation "x <- r ;; k" := (bind r (fun x => k))
  (at level 61, r at next level, right associativity) : result_scope.
Notation "' p <- r ;; k" := (bind r (fun x => match x with p => k end))
  (at level 61, p pattern, r at next level, right associativity) : result_scope.
Open Scope result_scope.

(** [assert c]: Python's [assert] statement. *)
Definition assert (c : bool) : result unit :=
  if c then Ok tt else Err AssertionError.

(** Python's [a % b] and [a // b] on natural numbers: both raise
    [ZeroDivisionError] when [b] is zero. *)
Definition py_mod (a b : nat) : result nat :=
  if b =? 0 then Err ZeroDivisionError else Ok (a mod b).

Definition py_floordiv (a b : nat) : result nat :=
  if b =? 0 then Err ZeroDivisionError else Ok (a / b).

(** [mapM f l]: a list comprehension whose body may raise. *)
Fixpoint mapM {A B : Type} (f : A -> result B) (l : list A) : result (list B) :=
  match l with
  | [] => Ok []
  | a :: l' => b <- f a ;; bs <- mapM f l' ;; Ok (b :: bs)
  end.

(** ** Tensors *)

Record tensor : Type := mkTensor { shape : list nat; data : list Z }.

(** Number of entries of an array of shape [sh]. *)
Definition prod (sh : list nat) : nat := fold_right Nat.mul 1 sh.

(** A tensor is well formed when it has as many entries as its shape says. *)
Definition wf (x : tensor) : Prop := length (data x) = prod (shape x).

Definition ndim (x : tensor) : nat := length (shape x).

(** [x.shape[i]] for a non-negative index [i]. *)
Definition shape_at (x : tensor) (i : nat) : result nat :=
  match nth_error (shape x) i with
  | Some d => Ok d
  | None => Err IndexError
  end.

(** [np.reshape(x, newshape)]: the entries keep their row-major order, and
    the new shape must have the size of the old one. *)
Definition np_reshape (x : tensor) (newshape : list nat) : result tensor :=
  if prod newshape =? prod (shape x)
  then Ok (mkTensor newshape (data x))
  else Err ValueError.

(** ** Chunk and Unchunk *)

(** [Chunk(x, weights, n_sections)]. *)
Definition Chunk (x : tensor) (n_sections : nat) : result tensor :=
  s1 <- shape_at x 1 ;;
  m <- py_mod s1 n_sections ;;
  _ <- assert (m =? 0) ;;
  s0 <- shape_at x 0 ;;
  q <- py_floordiv s1 n_sections ;;
  np_reshape x ((s0 * n_sections) :: q :: skipn 2 (shape x)).

(** [Unchunk(x, weights, n_sections)]. *)
Definition Unchunk (x : tensor) (n_sections : nat) : result tensor :=
  s0 <- shape_at x 0 ;;
  m <- py_mod s0 n_sections ;;
  _ <- assert (m =? 0) ;;
  q <- py_floordiv s0 n_sections ;;
  s1 <- shape_at x 1 ;;
  np_reshape x (q :: (s1 * n_sections) :: skipn 2 (shape x)).


(** ** Splitting and joining tensors along an axis *)

(** An axis given as a Python index: a negative axis counts from the last
    one.  An axis outside the rank of the tensor is an [IndexError]. *)
Definition normalize_axis (axis : Z) (nd : nat) : result nat :=
  let a := if (axis <? 0)%Z then (axis + Z.of_nat nd)%Z else axis in
  if ((0 <=? a) && (a <? Z.of_nat nd))%Z then Ok (Z.to_nat a) else Err IndexError.

(** [l[start : start + len]]. *)
Definition slice (start len : nat) (l : list Z) : list Z :=
  firstn len (skipn start l).

(** The entries of a row-major array seen as [outer] rows of [row] entries
    each: from every row, the [len] entries from column [start] on. *)
Definition take_rows (outer row start len : nat) (d : list Z) : list Z :=
  flat_map (fun o => slice (o * row + start) len d) (seq 0 outer).

(** Extent of [t] along the axis [ax]. *)
Definition dim (ax : nat) (t : tensor) : nat := nth ax (shape t) 0.

(** The [j]-th section of extent [sec] of [x] along the axis [ax]:
    [x[..., j * sec : (j + 1) * sec, ...]]. *)
Definition section_of (x : tensor) (ax sec j : nat) : tensor :=
  let pre := firstn ax (shape x) in
  let post := skipn (S ax) (shape x) in
  mkTensor (pre ++ sec :: post)
    (take_rows (prod pre) (dim ax x * prod post)
               (j * (sec * prod post)) (sec * prod post) (data x)).

(** [np.split(x, sections, axis)] with an integer [sections]: [sections]
    tensors of equal extent along [axis]. *)
Definition np_split (x : tensor) (sections : nat) (axis : Z)
  : result (list tensor) :=
  ax <- normalize_axis axis (ndim x) ;;
  N <- shape_at x ax ;;
  m <- py_mod N sections ;;
  if negb (m =? 0) then Err ValueError else
  Ok (map (section_of x ax (N / sections)) (seq 0 sections)).

(** Whether [t] has the shape of [t0] on every axis but [ax]. *)
Definition same_off_axis (ax : nat) (t0 t : tensor) : bool :=
  (ndim t =? ndim t0)
  && (if list_eq_dec Nat.eq_dec (firstn ax (shape t)) (firstn ax (shape t0))
      then true else false)
  && (if list_eq_dec Nat.eq_dec (skipn (S ax) (shape t)) (skipn (S ax) (shape t0))
      then true else false).

(** [np.concatenate(ts, axis)]: the tensors are joined along [axis]; they
    must agree on every other axis, and there must be at least one. *)
Definition np_concatenate (ts : list tensor) (axis : Z) : result tensor :=
  match ts with
  | [] => Err ValueError
  | t0 :: _ =>
      ax <- normalize_axis axis (ndim t0) ;;
      if forallb (same_off_axis ax t0) ts then
        let pre := firstn ax (shape t0) in
        let post := skipn (S ax) (shape t0) in
        Ok (mkTensor
              (pre ++ list_sum (map (dim ax) ts) :: post)
              (flat_map
                 (fun o =>
                    flat_map
                      (fun t => slice (o * (dim ax t * prod post))
                                      (dim ax t * prod post) (data t))
                      ts)
                 (seq 0 (prod pre))))
      else Err ValueError
  end.

(** ** Weights and state: trees of tensors *)

(** Weights, state and their gradients are nested tuples of tensors. *)
Inductive pytree : Type :=
| Leaf (t : tensor)
| Tuple (ts : list pytree).

(** [jax.tree_util.tree_leaves]. *)
Fixpoint tree_leaves (w : pytree) : list tensor :=
  match w with
  | Leaf t => [t]
  | Tuple ts => flat_map tree_leaves ts
  end.

(** The empty tuple [()]. *)
Definition empty : pytree := Tuple [].

(** ** SplitForOutput *)

Module SplitForOutput.

(** [SplitForOutput(n_sections=2, axis=-2)]. *)
Record t : Type := mk { n_sections : nat; axis : Z }.

(** [forward(inputs, weights)]. *)
Definition forward (self : t) (inputs : list tensor) : result (list tensor) :=
  match inputs with
  | [x1; x2] =>
      x1_split <- np_split x1 (n_sections self) (axis self) ;;
      x2_split <- np_split x2 (n_sections self) (axis self) ;;
      mapM (fun ys => np_concatenate [fst ys; snd ys] (-1))
           (combine x1_split x2_split)
  | _ => Err ValueError
  end.

(** The loop of [reverse]: every output is split in two halves along the
    last axis, the first halves are collected in one list and the second
    halves in another. *)
Fixpoint split_halves (output : list tensor)
  : result (list tensor * list tensor) :=
  match output with
  | [] => Ok ([], [])
  | y :: rest =>
      ys <- np_split y 2 (-1) ;;
      match ys with
      | [y1; y2] =>
          '(x1_split, x2_split) <- split_halves rest ;;
          Ok (y1 :: x1_split, y2 :: x2_split)
      | _ => Err ValueError
      end
  end.

(** [reverse(output, weights, state, new_state)]. *)
Definition reverse (self : t) (output : list tensor) : result (list tensor) :=
  '(x1_split, x2_split) <- split_halves output ;;
  x1 <- np_concatenate x1_split (axis self) ;;
  x2 <- np_concatenate x2_split (axis self) ;;
  Ok [x1; x2].

(** [reverse_and_grad(output, ct, weights, state, new_state)]: the
    reconstructed inputs, and the pair of the gradient of the inputs and
    the gradient of the weights. *)
Definition reverse_and_grad (self : t) (output ct : list tensor)
  : result (list tensor * (list tensor * pytree)) :=
  x <- reverse self output ;;
  x_ct <- reverse self ct ;;
  Ok (x, (x_ct, empty)).

End SplitForOutput.

(** The scenario of the output splitting round trip: two tensors of shape
    [2, 8, 4]. *)
Definition iota (start : Z) (n : nat) : list Z :=
  map (fun i => (start + Z.of_nat i)%Z) (seq 0 n).

Definition example_x1 : tensor := mkTensor [2; 8; 4] (iota 0 64).
Definition example_x2 : tensor := mkTensor [2; 8; 4] (iota 100 64).

(** What the forward pass of [SplitForOutput] makes of a pair [p] of
    sections of shape [sh]: their concatenation [y] along the last axis,
    which splits back in the two. *)
Definition joined (sh : list nat) (p : tensor * tensor) (y : tensor) : Prop :=
  (shape (fst p) = sh /\ wf (fst p)) /\
  (shape (snd p) = sh /\ wf (snd p)) /\
  shape y = removelast sh ++ [2 * last sh 0] /\
  np_concatenate [fst p; snd p] (-1) = Ok y /\
  np_split y 2 (-1) = Ok [fst p; snd p].

(** [SplitForOutput(n_sections=2, axis=-2)], the default construction. *)
Definition example_split : SplitForOutput.t := SplitForOutput.mk 2 (-2).

(** The outputs of the forward pass in the scenario, and cotangents of
    their shape. *)
Definition example_output : list tensor :=
  match SplitForOutput.forward example_split [example_x1; example_x2] with
  | Ok ys => ys
  | Err _ => []
  end.

Definition example_ct : list tensor :=
  [mkTensor [2; 4; 8] (iota 1000 64); mkTensor [2; 4; 8] (iota 2000 64)].

(** ** Arithmetic of tensors *)

Fixpoint zip_with (f : Z -> Z -> Z) (a b : list Z) : list Z :=
  match a, b with
  | x :: a', y :: b' => f x y :: zip_with f a' b'
  | _, _ => []
  end.

Definition sumZ (l : list Z) : Z := fold_right Z.add 0%Z l.

(** The sum of the products of the entries of [a] and [b]. *)
Definition dot (a b : list Z) : Z := sumZ (zip_with Z.mul a b).

(** The inner product of two lists of tensors, tensor by tensor. *)
Definition inner (xs ys : list tensor) : Z :=
  sumZ (map (fun p => dot (data (fst p)) (data (snd p))) (combine xs ys)).

Definition same_shape (a b : tensor) : bool :=
  if list_eq_dec Nat.eq_dec (shape a) (shape b) then true else false.

(** Modelled from the spec: the elementwise addition and subtraction of the
    tensor engine are not under src/; section 6 of the spec asks for a
    "shape-preserving elementwise add/subtract", and section 4.1 has the
    update fail with ShapeMismatch when the shapes of the two operands
    differ.  An engine that broadcasts returns a value there: the model is
    faithful on operands of one shape only. *)
Definition tensor_add (a b : tensor) : result tensor :=
  if same_shape a b
  then Ok (mkTensor (shape a) (zip_with Z.add (data a) (data b)))
  else Err ShapeMismatch.

Definition tensor_sub (a b : tensor) : result tensor :=
  if same_shape a b
  then Ok (mkTensor (shape a) (zip_with Z.sub (data a) (data b)))
  else Err ShapeMismatch.

Definition tensor_neg (a : tensor) : tensor :=
  mkTensor (shape a) (map Z.opp (data a)).

Definition tensor_zeros_like (a : tensor) : tensor :=
  mkTensor (shape a) (map (fun _ => 0%Z) (data a)).

(** A tree of the structure of [w] with every leaf zero: the gradient of a
    function that does not depend on [w]. *)
Fixpoint zeros_like (w : pytree) : pytree :=
  match w with
  | Leaf t => Leaf (tensor_zeros_like t)
  | Tuple ts => Tuple (map zeros_like ts)
  end.

(** The entries of a tuple of weights or states; a single tensor is not a
    tuple. *)
Definition as_tuple (w : pytree) : result (list pytree) :=
  match w with
  | Tuple ts => Ok ts
  | Leaf _ => Err TypeError
  end.

(** [l[i]] and [l[-1]] on a Python sequence. *)
Definition index {A : Type} (l : list A) (i : nat) : result A :=
  match nth_error l i with
  | Some a => Ok a
  | None => Err IndexError
  end.

Definition index_last {A : Type} (l : list A) : result A :=
  match rev l with
  | a :: _ => Ok a
  | [] => Err IndexError
  end.

(** ** Random number generators *)

(** Modelled from the spec: the random number generator is not under src/;
    section 6 of the spec asks for a deterministic generator "with an
    explicit split operation producing N independent child streams from a
    parent stream". *)
Class PRNG : Type := {
  key : Type;
  split : key -> nat -> list key;
  split_length : forall (k : key) (n : nat), length (split k n) = n
}.

(** ** Layers and combinators *)

Section Layers.

Context `{PRNG}.

(** The [rngs] of the combinators: [(None,) * n] without a generator, and
    [random.split(rng, n)] with one. *)
Definition split_rng (rng : option key) (n : nat) : list (option key) :=
  match rng with
  | None => repeat None n
  | Some k => map Some (split k n)
  end.

(** [rngs[i]] for [rngs] the split of [rng] in [n]. *)
Definition rng_at (rng : option key) (n i : nat) : option key :=
  nth i (split_rng rng n) None.

(** The data stack that flows through the layers. *)
Definition stack : Type := list tensor.

(** Modelled from the spec: the layer base class [tl.Layer] is not under
    src/.  By section 6 of the spec a layer exposes a forward operation
    taking (input, params, state, rng) to (output, new_state), and the
    differentiation primitive of the tensor engine takes a function and
    inputs and returns the outputs and "a callable that maps
    output-gradients to input-gradients and parameter-gradients".  A layer
    is its forward operation on [n_in] stack items together with that map:
    [vjp x w s rng ct] is what [jax.vjp] of the forward operation at the
    inputs [x] and the weights [w] returns on the cotangent [ct]. *)
Record Layer : Type := mkLayer {
  n_in : nat;
  n_out : nat;
  forward_with_state :
    stack -> pytree -> pytree -> option key -> result (stack * pytree);
  vjp :
    stack -> pytree -> pytree -> option key -> stack -> result (stack * pytree)
}.

(** [layer(x, weights=w, state=s, rng=rng)]: the outputs alone. *)
Definition call (l : Layer) (x : stack) (w s : pytree) (rng : option key)
  : result stack :=
  '(y, _) <- forward_with_state l x w s rng ;; Ok y.

(** A layer without weights and without state. *)
Definition pure_layer (nin nout : nat) (f : stack -> result stack)
           (b : stack -> stack -> result stack) : Layer :=
  {| n_in := nin;
     n_out := nout;
     forward_with_state := fun x _ s _ => y <- f x ;; Ok (y, s);
     vjp := fun x w _ _ ct => x_ct <- b x ct ;; Ok (x_ct, zeros_like w) |}.

(** Modelled from the spec: [tl.Serial()] without sublayers, which is what
    [[]] stands for inside [tl.Parallel]; the stack comments of
    [ReversibleHalfResidual.__init__] show it passing one item through. *)
Definition Identity : Layer :=
  pure_layer 1 1 (fun x => Ok x) (fun _ ct => Ok ct).

(** Modelled from the spec: [tl.Dup()] is not under src/; by the stack
    comments of the source, [x2 -> x2, x2]. *)
Definition Dup : Layer :=
  pure_layer 1 2
    (fun x => match x with [a] => Ok [a; a] | _ => Err ValueError end)
    (fun _ ct => match ct with
                 | [c1; c2] => c <- tensor_add c1 c2 ;; Ok [c]
                 | _ => Err ValueError
                 end).

(** Modelled from the spec: [tl.Swap()] is not under src/; by the stack
    comments of the source, [x1_or_y1, x2 -> x2, x1_or_y1]. *)
Definition Swap : Layer :=
  pure_layer 2 2
    (fun x => match x with [a; b] => Ok [b; a] | _ => Err ValueError end)
    (fun _ ct => match ct with [c1; c2] => Ok [c2; c1] | _ => Err ValueError end).

(** The gradient of the input [i] of a selection: the sum of the
    cotangents of the outputs that [i] was copied to, if there are any. *)
Fixpoint select_ct (i : nat) (indices : list nat) (ct : stack)
         (acc : option tensor) : result (option tensor) :=
  match indices, ct with
  | j :: indices', c :: ct' =>
      if j =? i
      then match acc with
           | None => select_ct i indices' ct' (Some c)
           | Some a => a' <- tensor_add a c ;; select_ct i indices' ct' (Some a')
           end
      else select_ct i indices' ct' acc
  | _, _ => Ok acc
  end.

(** Modelled from the spec: [tl.Select(indices)] is not under src/; by the
    stack comments of the source, [Select([2, 1, 0])] maps
    [x2, x1_or_y1, residual] to [residual, x1_or_y1, x2]: output [j] is
    input [indices[j]].  An input that no output copies has a zero
    gradient. *)
Definition Select (indices : list nat) : Layer :=
  let n := S (fold_right Nat.max 0 indices) in
  pure_layer n (length indices)
    (fun x => mapM (index x) indices)
    (fun x ct =>
       mapM (fun i => g <- select_ct i indices ct None ;;
                      match g with
                      | Some c => Ok c
                      | None => xi <- index x i ;; Ok (tensor_zeros_like xi)
                      end)
            (seq 0 n)).

(** Modelled from the spec: [tl.Add()] is not under src/; it adds the two
    items on top of the stack with the addition of the tensor engine. *)
Definition Add : Layer :=
  pure_layer 2 1
    (fun x => match x with
              | [a; b] => c <- tensor_add a b ;; Ok [c]
              | _ => Err ValueError
              end)
    (fun _ ct => match ct with [c] => Ok [c; c] | _ => Err ValueError end).

(** Modelled from the spec: [tl.SubtractTop()] is not under src/; it
    subtracts the top of the stack from the item below it (section 4.1:
    [x1 = y1 - r], on the stack [residual, y1]). *)
Definition SubtractTop : Layer :=
  pure_layer 2 1
    (fun x => match x with
              | [a; b] => c <- tensor_sub b a ;; Ok [c]
              | _ => Err ValueError
              end)
    (fun _ ct => match ct with
                 | [c] => Ok [tensor_neg c; c]
                 | _ => Err ValueError
                 end).

(** The loop of [tl.Serial]: each sublayer takes its [n_in] inputs from the
    top of the stack and pushes its outputs. *)
Fixpoint serial_forward (ls : list Layer) (xs : stack) (ws ss : list pytree)
         (rngs : list (option key)) : result (stack * list pytree) :=
  match ls, ws, ss, rngs with
  | l :: ls', p :: ws', s :: ss', r :: rngs' =>
      '(outputs, s') <- forward_with_state l (firstn (n_in l) xs) p s r ;;
      '(xs', new_state) <-
        serial_forward ls' (outputs ++ skipn (n_in l) xs) ws' ss' rngs' ;;
      Ok (xs', s' :: new_state)
  | _, _, _, _ => Ok (xs, [])
  end.

(** Reverse-mode differentiation of a chain of layers: the forward pass
    keeps the inputs of every sublayer, and the cotangent of the final
    stack is pulled back through the sublayers from the last to the
    first. *)
Fixpoint serial_vjp (ls : list Layer) (xs : stack) (ws ss : list pytree)
         (rngs : list (option key)) (ct : stack)
  : result (stack * list pytree) :=
  match ls, ws, ss, rngs with
  | l :: ls', p :: ws', s :: ss', r :: rngs' =>
      let inputs := firstn (n_in l) xs in
      '(outputs, _) <- forward_with_state l inputs p s r ;;
      '(ct', w_cts) <-
        serial_vjp ls' (outputs ++ skipn (n_in l) xs) ws' ss' rngs' ct ;;
      '(x_ct, w_ct) <- vjp l inputs p s r (firstn (n_out l) ct') ;;
      Ok (x_ct ++ skipn (n_out l) ct', w_ct :: w_cts)
  | _, _, _, _ => Ok (ct, [])
  end.

(** [Serial._n_inputs_n_outputs]. *)
Definition n_inputs_n_outputs (layers : list Layer) : nat * nat :=
  let '(running_max, running_total) :=
    fold_left
      (fun acc layer =>
         let running_total := (snd acc + Z.of_nat (n_in layer))%Z in
         let running_max := Z.max (fst acc) running_total in
         (running_max, (running_total - Z.of_nat (n_out layer))%Z))
      layers (0%Z, 0%Z) in
  (Z.to_nat running_max, Z.to_nat (running_max - running_total)).

(** The weights and the state of a combinator: one entry per sublayer. *)
Definition sublayer_entries (w : pytree) (n_layers : nat)
  : result (list pytree) :=
  ws <- as_tuple w ;;
  if length ws =? n_layers then Ok ws else Err ValueError.

(** Modelled from the spec: [tl.Serial] is not under src/; it applies its
    sublayers in order to the data stack, sublayer [i] with [weights[i]],
    [state[i]] and the [i]-th split of the generator (the comment in
    [reverse]: "self.sublayers aligns exactly with self.reverse_layers in
    terms of parameter and rng usage"), and returns the list of the new
    states. *)
Definition Serial (sublayers : list Layer) : Layer :=
  let n_layers := length sublayers in
  {| n_in := fst (n_inputs_n_outputs sublayers);
     n_out := snd (n_inputs_n_outputs sublayers);
     forward_with_state := fun xs weights state rng =>
       if length xs <? fst (n_inputs_n_outputs sublayers)
       then Err ValueError
       else
         ws <- sublayer_entries weights n_layers ;;
         ss <- sublayer_entries state n_layers ;;
         '(ys, new_state) <-
           serial_forward sublayers xs ws ss (split_rng rng n_layers) ;;
         Ok (ys, Tuple new_state);
     vjp := fun xs weights state rng ct =>
       ws <- sublayer_entries weights n_layers ;;
       ss <- sublayer_entries state n_layers ;;
       '(x_ct, w_cts) <-
         serial_vjp sublayers xs ws ss (split_rng rng n_layers) ct ;;
       Ok (x_ct, Tuple w_cts) |}.

(** The loop of [tl.Parallel]: sublayer [i] takes the next [n_in] inputs. *)
Fixpoint parallel_forward (ls : list Layer) (xs : stack) (ws ss : list pytree)
         (rngs : list (option key)) : result (stack * list pytree) :=
  match ls, ws, ss, rngs with
  | l :: ls', p :: ws', s :: ss', r :: rngs' =>
      '(sub_outputs, sub_state) <-
        forward_with_state l (firstn (n_in l) xs) p s r ;;
      '(outputs, new_state) <-
        parallel_forward ls' (skipn (n_in l) xs) ws' ss' rngs' ;;
      Ok (sub_outputs ++ outputs, sub_state :: new_state)
  | _, _, _, _ => Ok ([], [])
  end.

Fixpoint parallel_vjp (ls : list Layer) (xs : stack) (ws ss : list pytree)
         (rngs : list (option key)) (ct : stack)
  : result (stack * list pytree) :=
  match ls, ws, ss, rngs with
  | l :: ls', p :: ws', s :: ss', r :: rngs' =>
      '(sub_ct, w_ct) <-
        vjp l (firstn (n_in l) xs) p s r (firstn (n_out l) ct) ;;
      '(x_ct, w_cts) <-
        parallel_vjp ls' (skipn (n_in l) xs) ws' ss' rngs'
                     (skipn (n_out l) ct) ;;
      Ok (sub_ct ++ x_ct, w_ct :: w_cts)
  | _, _, _, _ => Ok ([], [])
  end.

(** Modelled from the spec: [tl.Parallel] is not under src/; each sublayer
    applies to its own span of the inputs (the stack comments of the
    source: [Parallel([], Dup())] maps [x1_or_y1, x2] to
    [x1_or_y1, x2, x2]), with its own entry of the weights, of the state
    and of the split generator. *)
Definition Parallel (sublayers : list Layer) : Layer :=
  let n_layers := length sublayers in
  {| n_in := list_sum (map n_in sublayers);
     n_out := list_sum (map n_out sublayers);
     forward_with_state := fun xs weights state rng =>
       ws <- sublayer_entries weights n_layers ;;
       ss <- sublayer_entries state n_layers ;;
       '(ys, new_state) <-
         parallel_forward sublayers xs ws ss (split_rng rng n_layers) ;;
       Ok (ys, Tuple new_state);
     vjp := fun xs weights state rng ct =>
       ws <- sublayer_entries weights n_layers ;;
       ss <- sublayer_entries state n_layers ;;
       '(x_ct, w_cts) <-
         parallel_vjp sublayers xs ws ss (split_rng rng n_layers) ct ;;
       Ok (x_ct, Tuple w_cts) |}.

End Layers.

(** ** ReversibleHalfResidual *)

Module ReversibleHalfResidual.
Section Def.

Context `{PRNG}.

(** The attributes that [__init__] sets.  [sublayers] are the layers
    handed to the constructor of [tl.Serial], whose forward pass the class
    inherits. *)
Record t : Type := mk {
  compute_residual : Layer;
  n_preserve : nat;
  sublayers : list Layer;
  subtract_top : Layer;
  reverse_layers : list Layer
}.

(** [__init__(residual_layers)]. *)
Definition init (residual_layers : Layer) : t :=
  let compute_residual :=
    Serial [ Parallel [Identity; Dup];
             Swap;
             Parallel [Identity; Identity; residual_layers];
             Select [2; 1; 0] ] in
  let n_preserve := n_out compute_residual - 2 in
  let parallel_preserve := repeat Identity n_preserve in
  let layers := [compute_residual; Parallel (Add :: parallel_preserve)] in
  let subtract_top := Parallel (SubtractTop :: parallel_preserve) in
  {| compute_residual := compute_residual;
     n_preserve := n_preserve;
     sublayers := layers;
     subtract_top := subtract_top;
     reverse_layers := [compute_residual; subtract_top] |}.

(** [self._n_layers], set by [tl.Serial.__init__]. *)
Definition n_layers (self : t) : nat := length (sublayers self).

(** The layer itself: the [tl.Serial] of its sublayers. *)
Definition layer (self : t) : Layer := Serial (sublayers self).

(** The forward pass, inherited from [tl.Serial]. *)
Definition forward (self : t) (x : stack) (weights state : pytree)
           (rng : option key) : result (stack * pytree) :=
  forward_with_state (layer self) x weights state rng.

(** The loop of [reverse] over
    [zip(self.reverse_layers, weights, state, new_state, rngs)], which
    stops at the shortest of the five sequences. *)
Fixpoint reverse_loop (layers : list Layer) (weights state new_state : list pytree)
         (rngs : list (option key)) (reconstructed_x : stack) : result stack :=
  match layers, weights, state, new_state, rngs with
  | layer :: layers', p :: weights', s :: state', _ :: new_state', rng :: rngs' =>
      x <- call layer reconstructed_x p s rng ;;
      reverse_loop layers' weights' state' new_state' rngs' x
  | _, _, _, _, _ => Ok reconstructed_x
  end.

(** [reverse(output, weights, state, new_state, rng)]. *)
Definition reverse (self : t) (output : stack)
           (weights state new_state : pytree) (rng : option key)
  : result stack :=
  let rngs := split_rng rng (n_layers self) in
  ws <- as_tuple weights ;;
  ss <- as_tuple state ;;
  nss <- as_tuple new_state ;;
  reverse_loop (reverse_layers self) ws ss nss rngs output.

(** [reverse_and_grad(output, ct, weights, state, new_state, rng)]. *)
Definition reverse_and_grad (self : t) (output ct : stack)
           (weights state new_state : pytree) (rng : option key)
  : result (stack * (stack * pytree)) :=
  let rngs := split_rng rng (n_layers self) in
  _ <- assert (length ct =? n_preserve self + 1) ;;
  ct0 <- index ct 0 ;;
  let ct := ct0 :: ct0 :: skipn 1 ct in
  ws <- as_tuple weights ;;
  ss <- as_tuple state ;;
  s0 <- index ss 0 ;;
  rng0 <- index rngs 0 ;;
  w0 <- index ws 0 ;;
  stack_with_residual <- call (compute_residual self) output w0 s0 rng0 ;;
  w_last <- index_last ws ;;
  s_last <- index_last ss ;;
  rng_last <- index_last rngs ;;
  reconstructed_x <-
    call (subtract_top self) stack_with_residual w_last s_last rng_last ;;
  '(x_ct, residual_weights_ct) <-
    vjp (compute_residual self) output w0 s0 rng0 ct ;;
  _ <- assert (match tree_leaves w_last with [] => true | _ => false end) ;;
  let add_top_weights_ct := w_last in
  Ok (reconstructed_x, (x_ct, Tuple [residual_weights_ct; add_top_weights_ct])).

(** The naive path to the gradients: reverse-mode differentiation of the
    whole forward pass at the inputs [x], every activation kept. *)
Definition naive_grad (self : t) (x ct : stack) (weights state : pytree)
           (rng : option key) : result (stack * pytree) :=
  vjp (layer self) x weights state rng ct.

(** The tree of the weights, and of the state, of the layer: an entry per
    sublayer, as the combinators nest them; [wf] is the entry of the
    residual layers. *)
Definition tree_of (a b c d e wf g h i : pytree) : pytree :=
  Tuple [ Tuple [ Tuple [a; b]; c; Tuple [d; e; wf]; g ];
          Tuple [h; i] ].

(** The weights of the layer when the residual layers have the weights
    [w]: the layers of the combinators have none. *)
Definition weights_of (w : pytree) : pytree :=
  tree_of empty empty empty empty empty w empty empty empty.

(** The entry of the residual layers in the weights, or in the state, of
    the layer: [weights[0][2][2]]. *)
Definition residual_entry (w : pytree) : result pytree :=
  ws <- as_tuple w ;;
  w0 <- index ws 0 ;;
  w0s <- as_tuple w0 ;;
  w02 <- index w0s 2 ;;
  w02s <- as_tuple w02 ;;
  index w02s 2.

(** The generator that reaches the residual layers. *)
Definition residual_rng (rng : option key) : option key :=
  rng_at (rng_at (rng_at rng 2 0) 4 2) 3 2.

(** Weights, state or new state with one entry per reverse layer. *)
Definition aligned (self : t) (p : pytree) : Prop :=
  exists l, p = Tuple l /\ length l = length (reverse_layers self).

(** A residual function from one tensor to one tensor. *)
Definition single_output (f : Layer) : Prop :=
  forall x w s rng ys s',
    forward_with_state f [x] w s rng = Ok (ys, s') -> exists r, ys = [r].

(** A shape-preserving residual function: on a tensor it returns one
    tensor of the same shape. *)
Definition shape_preserving (f : Layer) : Prop :=
  forall x w s rng ys s',
    forward_with_state f [x] w s rng = Ok (ys, s') ->
    exists r, ys = [r] /\ shape r = shape x /\ (wf x -> wf r).

End Def.
End ReversibleHalfResidual.

(** ** Examples *)

(** [k * x] on every entry of [x]. *)
Definition tensor_scale (k : Z) (x : tensor) : tensor :=
  mkTensor (shape x) (map (Z.mul k) (data x)).

Definition scalar (z : Z) : tensor := mkTensor [] [z].
Definition vec (z : Z) : tensor := mkTensor [1] [z].

Section Examples.

Context `{PRNG}.

(** A layer with one scalar weight [k]: [x -> k * x], with the gradients
    [k * ct] of the input and [<ct, x>] of the weight. *)
Definition scale : Layer :=
  {| n_in := 1;
     n_out := 1;
     forward_with_state := fun x w s _ =>
       match x, w with
       | [a], Leaf (mkTensor [] [k]) => Ok ([tensor_scale k a], s)
       | _, _ => Err ValueError
       end;
     vjp := fun x w _ _ ct =>
       match x, w, ct with
       | [a], Leaf (mkTensor [] [k]), [c] =>
           Ok ([tensor_scale k c], Leaf (mkTensor [] [dot (data c) (data a)]))
       | _, _, _ => Err ValueError
       end |}.

(** A half-residual layer around [scale], its weights and its state. *)
Definition example_half_residual : ReversibleHalfResidual.t :=
  ReversibleHalfResidual.init scale.

Definition example_weights : pytree :=
  ReversibleHalfResidual.weights_of (Leaf (scalar 3)).

Definition example_state : pytree :=
  ReversibleHalfResidual.weights_of empty.

End Examples.

(** A generator whose keys are the paths of the splits taken. *)
#[export] Instance path_prng : PRNG :=
  {| key := list nat;
     split := fun k n => map (fun i => i :: k) (seq 0 n);
     split_length := fun k n =>
       eq_trans (length_map (fun i => i :: k) (seq 0 n)) (length_seq n 0) |}.

(** ** ApplyAttentionWrapper *)

(** An attention layer: a layer that also has the fused operation
    [forward_and_backward(qkv, out_ct, rng, state, new_state)], which returns
    the output of the attention and the gradient of its inputs. *)
Record AttentionLayer `{PRNG} : Type := mkAttention {
  attention_layer : Layer;
  attention_forward_and_backward :
    stack -> tensor -> option key -> pytree -> pytree -> result (tensor * stack)
}.

Module ApplyAttentionWrapper.
Section Def.

Context `{PRNG}.

(** [ApplyAttentionWrapper(attention)]: [tl.Parallel(attention, [], [])]
    that keeps the attention layer. *)
Record t : Type := mk {
  layer : Layer;
  attention : AttentionLayer;
  n_layers : nat
}.

Definition init (attention : AttentionLayer) : t :=
  {| layer := Parallel [attention_layer attention; Identity; Identity];
     attention := attention;
     n_layers := 3 |}.

(** [forward_and_backward(inputs, ct, state, new_state, rng)]. *)
Definition forward_and_backward (self : t) (inputs ct : stack)
           (state new_state : pytree) (rng : option key)
  : result (stack * stack) :=
  let qkv := firstn 3 inputs in
  let passthrough := skipn 3 inputs in
  out_ct <- index ct 0 ;;
  let passthrough_ct := skipn 1 ct in
  rng <- match rng with
         | Some _ => index (split_rng rng (n_layers self)) 0
         | None => Ok None
         end ;;
  ss <- as_tuple state ;;
  s0 <- index ss 0 ;;
  nss <- as_tuple new_state ;;
  ns0 <- index nss 0 ;;
  '(out, qkv_ct) <-
    attention_forward_and_backward (attention self) qkv out_ct rng s0 ns0 ;;
  Ok (out :: passthrough, qkv_ct ++ passthrough_ct).

End Def.
End ApplyAttentionWrapper.

(** ** ReversibleAttentionHalfResidual *)

Module ReversibleAttentionHalfResidual.
Section Def.

Context `{PRNG}.

Record t : Type := mk {
  pre_attention : Layer;
  attention : ApplyAttentionWrapper.t;
  post_attention : Layer;
  sublayers : list Layer;
  subtract_top : Layer;
  reverse_layers : list Layer
}.

(** [__init__(pre_attention, attention, post_attention)]. *)
Definition init (pre_attention : Layer) (attention : AttentionLayer)
           (post_attention : Layer) : t :=
  let pre_attention :=
    Serial [ Parallel [Identity; Dup];
             Swap;
             Parallel [pre_attention; Identity; Identity] ] in
  let attention := ApplyAttentionWrapper.init attention in
  let post_attention := Parallel [post_attention; Identity; Identity] in
  let layers := [ pre_attention;
                  ApplyAttentionWrapper.layer attention;
                  post_attention;
                  Parallel [Add; Identity] ] in
  let subtract_top := Parallel [SubtractTop; Identity] in
  {| pre_attention := pre_attention;
     attention := attention;
     post_attention := post_attention;
     sublayers := layers;
     subtract_top := subtract_top;
     reverse_layers :=
       [ pre_attention; ApplyAttentionWrapper.layer attention;
         post_attention; subtract_top ] |}.

(** [self._n_layers], set by [tl.Serial.__init__]. *)
Definition n_layers (self : t) : nat := length (sublayers self).

(** The layer itself: the [tl.Serial] of its sublayers. *)
Definition layer (self : t) : Layer := Serial (sublayers self).

(** The forward pass, inherited from [tl.Serial]. *)
Definition forward (self : t) (x : stack) (weights state : pytree)
           (rng : option key) : result (stack * pytree) :=
  forward_with_state (layer self) x weights state rng.

(** [stack[-3], stack[-2], stack[-1]]. *)
Definition last_three (xs : stack) : result stack :=
  match rev xs with
  | c :: b :: a :: _ => Ok [a; b; c]
  | _ => Err IndexError
  end.

(** [reverse_and_grad(output, ct, weights, state, new_state, rng)]. *)
Definition reverse_and_grad (self : t) (output ct : stack)
           (weights state new_state : pytree) (rng : option key)
  : result (stack * (stack * pytree)) :=
  let rngs := split_rng rng (n_layers self) in
  ws <- as_tuple weights ;;
  ss <- as_tuple state ;;
  nss <- as_tuple new_state ;;
  (* Forward pass through self.pre_attention, while preparing for later
     backprop. *)
  s0 <- index ss 0 ;;
  rng0 <- index rngs 0 ;;
  w0 <- index ws 0 ;;
  stack <- call (pre_attention self) output w0 s0 rng0 ;;
  (* Backprop through adding the residual *)
  _ <- assert (length ct =? 2) ;;
  ct0 <- index ct 0 ;;
  ct1 <- index ct 1 ;;
  let saved_ct := [ct0; ct0; ct1] in
  (* Backprop through self.post_attention with respect to the inputs
     only, at dummy inputs. *)
  dummy_inputs <- last_three stack ;;
  w2 <- index ws 2 ;;
  s2 <- index ss 2 ;;
  rng2 <- index rngs 2 ;;
  _ <- call (post_attention self) dummy_inputs w2 s2 rng2 ;;
  '(ct, _) <- vjp (post_attention self) dummy_inputs w2 s2 rng2 saved_ct ;;
  (* Simultaneous forward pass and backprop through the attention
     mechanism *)
  rng1 <- index rngs 1 ;;
  s1 <- index ss 1 ;;
  ns1 <- index nss 1 ;;
  '(stack, ct) <-
    ApplyAttentionWrapper.forward_and_backward (attention self) stack ct
      s1 ns1 rng1 ;;
  w1 <- index ws 1 ;;
  _ <- assert (match tree_leaves w1 with [] => true | _ => false end) ;;
  let attention_weights_ct := w1 in
  (* Backprop through self.pre_attention *)
  '(x_ct, pre_attention_weights_ct) <-
    vjp (pre_attention self) output w0 s0 rng0 ct ;;
  (* Forward pass for self.post_attention, and backprop with respect to
     the parameters only *)
  stack' <- call (post_attention self) stack w2 s2 rng2 ;;
  '(_, post_attention_weights_ct) <-
    vjp (post_attention self) stack w2 s2 rng2 saved_ct ;;
  (* Forward pass through subtracting the residual *)
  w_last <- index_last ws ;;
  s_last <- index_last ss ;;
  rng_last <- index_last rngs ;;
  reconstructed_x <- call (subtract_top self) stack' w_last s_last rng_last ;;
  _ <- assert (match tree_leaves w_last with [] => true | _ => false end) ;;
  let add_top_weights_ct := w_last in
  let weights_ct :=
    Tuple [ pre_attention_weights_ct; attention_weights_ct;
            post_attention_weights_ct; add_top_weights_ct ] in
  Ok (reconstructed_x, (x_ct, weights_ct)).

(** The weights, the state, or the gradients of the weights, of the
    layer, from the entries of the three wrapped layers: the layers of the
    combinators have none. *)
Definition tree_of (pre att post : pytree) : pytree :=
  Tuple [ Tuple [Tuple [empty; empty]; empty; Tuple [pre; empty; empty]];
          Tuple [att; empty; empty];
          Tuple [post; empty; empty];
          Tuple [empty; empty] ].

(** The same entries in [ReversibleHalfResidual([pre_attention, attention,
    post_attention])]. *)
Definition naive_tree_of (pre att post : pytree) : pytree :=
  ReversibleHalfResidual.weights_of (Tuple [pre; att; post]).

(** The naive composition:
    [ReversibleHalfResidual([pre_attention, attention, post_attention])]. *)
Definition naive (pre_attention : Layer) (attention : AttentionLayer)
           (post_attention : Layer) : ReversibleHalfResidual.t :=
  ReversibleHalfResidual.init
    (Serial [pre_attention; attention_layer attention; post_attention]).

(** The generators that reach the three wrapped layers, in the layer and
    in the naive composition. *)
Definition sub_rngs (rng : option key)
  : option key * option key * option key :=
  (rng_at (rng_at (rng_at rng 4 0) 3 2) 3 0,
   rng_at (rng_at rng 4 1) 3 0,
   rng_at (rng_at rng 4 2) 3 0).

Definition naive_sub_rngs (rng : option key)
  : option key * option key * option key :=
  let r := ReversibleHalfResidual.residual_rng rng in
  (rng_at r 3 0, rng_at r 3 1, rng_at r 3 2).

(** A layer that behaves under the generator [r'] as it does under [r]. *)
Definition agree (l : Layer) (r r' : option key) : Prop :=
  forall x w s,
    forward_with_state l x w s r = forward_with_state l x w s r' /\
    forall ct, vjp l x w s r ct = vjp l x w s r' ct.

(** The three wrapped layers behave in the naive composition as they do in
    the layer: they receive the same generators there, or they do not depend
    on their generators. *)
Definition same_generators (pre : Layer) (att : AttentionLayer) (post : Layer)
           (rng : option key) : Prop :=
  let '(a_pre, a_att, a_post) := sub_rngs rng in
  let '(b_pre, b_att, b_post) := naive_sub_rngs rng in
  agree pre a_pre b_pre /\
  agree (attention_layer att) a_att b_att /\
  agree post a_post b_post.

(** A layer whose forward pass returns [n] tensors, and one whose gradient
    of the inputs has [n] tensors. *)
Definition returns (l : Layer) (n : nat) : Prop :=
  forall x w s rng ys s',
    forward_with_state l x w s rng = Ok (ys, s') -> length ys = n.

Definition pulls_back (l : Layer) (n : nat) : Prop :=
  forall x w s rng ct x_ct w_ct,
    vjp l x w s rng ct = Ok (x_ct, w_ct) -> length x_ct = n.

(** The three wrapped layers fit together: pre-attention maps one tensor
    to queries, keys and values, attention maps these to one tensor, and
    post-attention maps one tensor to one tensor. *)
Definition fits (pre : Layer) (att : AttentionLayer) (post : Layer) : Prop :=
  (n_in pre = 1 /\ n_out pre = 3 /\ returns pre 3 /\ pulls_back pre 1) /\
  (n_in (attention_layer att) = 3 /\ n_out (attention_layer att) = 1 /\
   returns (attention_layer att) 1 /\ pulls_back (attention_layer att) 3) /\
  (n_in post = 1 /\ n_out post = 1 /\ returns post 1 /\ pulls_back post 1).

(** The residual of the layer: post-attention of attention of
    pre-attention of [x2], each with its weights, state and generator;
    with it, the new states of the three. *)
Definition residual_chain (pre : Layer) (att : AttentionLayer) (post : Layer)
           (x2 : tensor) (wpre watt wpost spre satt spost : pytree)
           (rngs : option key * option key * option key)
  : result (tensor * (pytree * pytree * pytree)) :=
  let '(r_pre, r_att, r_post) := rngs in
  '(qkv, spre') <- forward_with_state pre [x2] wpre spre r_pre ;;
  '(o, satt') <- forward_with_state (attention_layer att) qkv watt satt r_att ;;
  '(rs, spost') <- forward_with_state post o wpost spost r_post ;;
  match rs with
  | [r] => Ok (r, (spre', satt', spost'))
  | _ => Err ValueError
  end.

(** A layer that is linear in its input: the gradient of the input does
    not depend on where it is taken, and where the layer runs on one input
    it runs on every input of that shape. *)
Definition linear_in_input (l : Layer) : Prop :=
  forall x x' w s rng ys s',
    shape x = shape x' ->
    forward_with_state l [x] w s rng = Ok (ys, s') ->
    (exists ys' s'', forward_with_state l [x'] w s rng = Ok (ys', s'')) /\
    forall ct g w_ct,
      vjp l [x] w s rng ct = Ok (g, w_ct) ->
      exists w_ct', vjp l [x'] w s rng ct = Ok (g, w_ct').

(** An attention whose output has the shape of the values. *)
Definition output_like_value (l : Layer) : Prop :=
  forall q k v w s rng out s',
    forward_with_state l [q; k; v] w s rng = Ok ([out], s') ->
    shape out = shape v.

(** The contract of the fused operation of an attention layer without
    weights: it returns the output of the forward pass and the gradient of
    the inputs that reverse-mode differentiation returns. *)
Definition fused (a : AttentionLayer) : Prop :=
  forall qkv out_ct rng w s ns out s' qkv_ct w_ct,
    tree_leaves w = [] ->
    forward_with_state (attention_layer a) qkv w s rng = Ok ([out], s') ->
    vjp (attention_layer a) qkv w s rng [out_ct] = Ok (qkv_ct, w_ct) ->
    attention_forward_and_backward a qkv out_ct rng s ns = Ok (out, qkv_ct)
    /\ w_ct = w.

End Def.
End ReversibleAttentionHalfResidual.

(** The outputs of a forward pass, without the new state. *)
Definition outputs {S : Type} (r : result (stack * S)) : result stack :=
  '(y, _) <- r ;; Ok y.

(** *** Example layers *)

Section AttentionExamples.

Context `{PRNG}.

(** Queries, keys and values that are all the input itself. *)
Definition triple : Layer :=
  pure_layer 1 3
    (fun x => match x with [a] => Ok [a; a; a] | _ => Err ValueError end)
    (fun _ ct => match ct with
                 | [c1; c2; c3] =>
                     c12 <- tensor_add c1 c2 ;;
                     c <- tensor_add c12 c3 ;;
                     Ok [c]
                 | _ => Err ValueError
                 end).

(** An attention that returns twice the values, with its fused operation. *)
Definition double_value : AttentionLayer :=
  {| attention_layer :=
       pure_layer 3 1
         (fun x => match x with
                   | [q; k; v] => Ok [tensor_scale 2 v]
                   | _ => Err ValueError
                   end)
         (fun x ct => match x, ct with
                      | [q; k; v], [c] =>
                          Ok [tensor_zeros_like q; tensor_zeros_like k;
                              tensor_scale 2 c]
                      | _, _ => Err ValueError
                      end);
     attention_forward_and_backward := fun qkv out_ct _ _ _ =>
       match qkv with
       | [q; k; v] =>
           Ok (tensor_scale 2 v,
               [tensor_zeros_like q; tensor_zeros_like k; tensor_scale 2 out_ct])
       | _ => Err ValueError
       end |}.

(** A layer that is not linear: [x -> x * x], with the gradient
    [2 * x * ct]. *)
Definition square : Layer :=
  pure_layer 1 1
    (fun x => match x with
              | [a] => Ok [mkTensor (shape a) (zip_with Z.mul (data a) (data a))]
              | _ => Err ValueError
              end)
    (fun x ct => match x, ct with
                 | [a], [c] =>
                     Ok [tensor_scale 2
                           (mkTensor (shape c) (zip_with Z.mul (data a) (data c)))]
                 | _, _ => Err ValueError
                 end).

End AttentionExamples.

(** *** A layer that draws on its generator *)

(** The factor that a generator stands for: three more than the index of
    the last split that made it. *)
Definition keyed_factor (rng : option (list nat)) : Z :=
  match rng with
  | Some (i :: _) => (3 + Z.of_nat i)%Z
  | _ => 3%Z
  end.

(** A layer without weights that is linear in its input and depends on its
    generator, as a dropout in training does: [x -> keyed_factor rng * x]. *)
Definition keyed_scale : @Layer path_prng :=
  {| n_in := 1;
     n_out := 1;
     forward_with_state := fun x _ s rng =>
       match x with
       | [a] => Ok ([tensor_scale (keyed_factor rng) a], s)
       | _ => Err ValueError
       end;
     vjp := fun x w _ rng ct =>
       match x, ct with
       | [a], [c] => Ok ([tensor_scale (keyed_factor rng) c], zeros_like w)
       | _, _ => Err ValueError
       end |}.

(** ** The reversible chain runner *)

Module ReversibleSerial.

(** Modelled from the spec: the Reversible Chain Runner
    ([tl.ReversibleSerial]) is not under src/.  By section 4.3 of the spec it
    sequences N reversible steps; each step has a forward operation and a
    fused inverse-and-gradient operation, and its parameters are always
    retained. *)
Record step : Type := mkStep {
  params : pytree;
  forward : list tensor -> pytree -> result (list tensor);
  reverse_and_grad :
    list tensor -> list tensor -> pytree ->
    result (list tensor * (list tensor * pytree))
}.

(** What the runner holds in memory: the two-stream pairs, and the
    parameters of the steps. *)
Record memory : Type := mkMemory {
  held : list (list tensor);
  parameters : list pytree
}.

(** Modelled from the spec: the forward pass "is a simple left-to-right
    composition", and "no intermediate (x1,x2) pairs between the N steps are
    retained in memory during the forward pass; only the final pair is
    kept": a step replaces the pair held by its output.  [run_forward]
    returns the memory after every step. *)
Fixpoint run_forward (steps : list step) (m : memory) : result (list memory) :=
  match steps with
  | [] => Ok []
  | s :: steps' =>
      match held m with
      | [x] =>
          y <- forward s x (params s) ;;
          let m' := mkMemory [y] (parameters m) in
          ms <- run_forward steps' m' ;;
          Ok (m' :: ms)
      | _ => Err ValueError
      end
  end.

(** The memory before the first step: the input pair and the parameters. *)
Definition start (steps : list step) (x : list tensor) : memory :=
  mkMemory [x] (map params steps).

(** The pairs between the steps of a plain composition, input first, each
    kept: what the runner does not keep. *)
Fixpoint activations (steps : list step) (x : list tensor)
  : result (list (list tensor)) :=
  match steps with
  | [] => Ok [x]
  | s :: steps' =>
      y <- forward s x (params s) ;;
      ys <- activations steps' y ;;
      Ok (x :: ys)
  end.

(** Modelled from the spec: the backward pass "walks steps right-to-left; at
    step i it calls ReverseAndGrad with the accumulated output-gradient,
    obtaining both the reconstructed input to step i (to hand to step i-1's
    reverse call) and the gradient to feed further back plus the per-step
    parameter gradients".  [reversed] are the steps from the last to the
    first; the result is the input of the chain, its gradient, the gradients
    of the parameters from the last step to the first, and the pairs
    regenerated on the way, in the order of their regeneration. *)
Fixpoint run_backward (reversed : list step) (y ct : list tensor)
  : result (list tensor * list tensor * list pytree * list (list tensor)) :=
  match reversed with
  | [] => Ok (y, ct, [], [])
  | s :: reversed' =>
      '(x, (x_ct, p_ct)) <- reverse_and_grad s y ct (params s) ;;
      '(x0, ct0, p_cts, regenerated) <- run_backward reversed' x x_ct ;;
      Ok (x0, ct0, p_ct :: p_cts, x :: regenerated)
  end.

(** A two-stream pair: two well-formed tensors of one shape. *)
Definition two_stream (p : list tensor) : Prop :=
  exists a b, p = [a; b] /\ wf a /\ wf b /\ shape a = shape b.

(** A reversible step: on two-stream pairs its forward operation returns a
    two-stream pair, and from it and a two-stream cotangent its fused
    inverse-and-gradient reconstructs the input and returns a two-stream
    gradient. *)
Definition reversible (s : step) : Prop :=
  forall x y ct,
    two_stream x -> two_stream ct ->
    forward s x (params s) = Ok y ->
    two_stream y /\
    exists x_ct p_ct,
      reverse_and_grad s y ct (params s) = Ok (x, (x_ct, p_ct)) /\
      two_stream x_ct.

End ReversibleSerial.

(** A step of the chain: the example half-residual layer. *)
Definition example_step : ReversibleSerial.step :=
  ReversibleSerial.mkStep example_weights
    (fun x w =>
       outputs (ReversibleHalfResidual.forward example_half_residual x w
                  example_state None))
    (fun y ct w =>
       ReversibleHalfResidual.reverse_and_grad example_half_residual y ct w
         example_state example_state None).

(** ** ChunkedFeedForward: the reshaping around the scanned block *)

(** [reshape_to_chunks(x)] of [ChunkedFeedForward], which is built for a
    [chunk_size] of at least one: the batch and length axes are merged and
    cut into chunks of [chunk_size] positions. *)
Definition reshape_to_chunks (chunk_size : nat) (x : tensor) : result tensor :=
  s0 <- shape_at x 0 ;;
  s1 <- shape_at x 1 ;;
  let batch_times_length := s0 * s1 in
  m <- py_mod batch_times_length chunk_size ;;
  _ <- assert (m =? 0) ;;
  n_chunks <- py_floordiv batch_times_length chunk_size ;;
  np_reshape x ([n_chunks; 1; chunk_size] ++ skipn 2 (shape x)).

(** The last layer of [ChunkedFeedForward]:
    [lambda x, y: np.reshape(x, y.shape)]. *)
Definition reshape_as (x y : tensor) : result tensor :=
  np_reshape x (shape y).

(** ** ReformerShortenLM: shortening and prolonging *)

(** [np.reshape(x, (d0, d1, -1))]: the extent that [-1] stands for is what
    the size of [x] leaves; it must come out even. *)
Definition np_reshape_rest (x : tensor) (d0 d1 : nat) : result tensor :=
  let known := d0 * d1 in
  let size := prod (shape x) in
  if (known =? 0) || negb (size mod known =? 0)
  then Err ValueError
  else Ok (mkTensor [d0; d1; size / known] (data x)).

(** The two reshaping layers of [ReformerShortenLM]:
    [lambda x: np.reshape(x, (x.shape[0], x.shape[1] // shorten_factor, -1))]
    moves positions to the depth, and
    [lambda x: np.reshape(x, (x.shape[0], x.shape[1] * shorten_factor, -1))]
    moves them back. *)
Definition shorten (shorten_factor : nat) (x : tensor) : result tensor :=
  s0 <- shape_at x 0 ;;
  s1 <- shape_at x 1 ;;
  q <- py_floordiv s1 shorten_factor ;;
  np_reshape_rest x s0 q.

Definition prolong (shorten_factor : nat) (x : tensor) : result tensor :=
  s0 <- shape_at x 0 ;;
  s1 <- shape_at x 1 ;;
  np_reshape_rest x s0 (s1 * shorten_factor).

From Stdlib Require String QArith.

(** ** Map *)

Module Map.

(** The shape and the type of an input, as [new_weights_and_state] reads
    them: only the shape is looked at. *)
Record ShapeDtype : Type := mkShapeDtype {
  sd_shape : list nat;
  sd_dtype : String.string
}.

(** An input signature: that of one input, or a tuple with one entry per
    input. *)
Inductive signature : Type :=
| One (s : ShapeDtype)
| Several (l : list ShapeDtype).

(** The attributes that [__init__] sets; of the wrapped layer,
    [new_weights_and_state] calls its [init] method only. *)
Record t : Type := mk {
  layer_init : signature -> result (pytree * pytree);
  n_sections : nat;
  check_shapes : bool
}.

Definition shape_eqb (a b : list nat) : bool :=
  if list_eq_dec Nat.eq_dec a b then true else false.

(** The loop of [new_weights_and_state]: the first entry whose shape is not
    [first_shape] raises. *)
Fixpoint check_loop (first_shape : list nat) (l : list ShapeDtype)
  : result unit :=
  match l with
  | [] => Ok tt
  | shape_dtype :: l' =>
      if negb (shape_eqb (sd_shape shape_dtype) first_shape)
      then Err ValueError
      else check_loop first_shape l'
  end.

(** [new_weights_and_state(input_signature)]. *)
Definition new_weights_and_state (self : t) (input_signature : signature)
  : result (pytree * pytree) :=
  if n_sections self =? 1 then layer_init self input_signature else
  match input_signature with
  | One _ => Err TypeError
  | Several l =>
      first <- index l 0 ;;
      let first_shape := sd_shape first in
      _ <- (if check_shapes self then check_loop first_shape l else Ok tt) ;;
      layer_init self (One first)
  end.

End Map.

(** The initialisation of a layer whose weights are a zero tensor of the
    shape of its input: the layer of the examples. *)
Definition zero_init (sig : Map.signature) : result (pytree * pytree) :=
  match sig with
  | Map.One s =>
      Ok (Leaf (mkTensor (Map.sd_shape s)
                         (repeat 0%Z (prod (Map.sd_shape s)))), empty)
  | Map.Several _ => Err TypeError
  end.

(** ** BroadcastedDropout *)

(** [l[i] = v] on a Python list: a negative index counts from the end, and
    an index outside the list is an [IndexError]. *)
Fixpoint update (l : list nat) (i : nat) (v : nat) : list nat :=
  match l, i with
  | [], _ => []
  | _ :: l', 0 => v :: l'
  | a :: l', S i' => a :: update l' i' v
  end.

Definition set_item (l : list nat) (i : Z) (v : nat) : result (list nat) :=
  idx <- normalize_axis i (length l) ;;
  Ok (update l idx v).

(** Whether the Python index [d] names the position [i] of a list of
    length [n]. *)
Definition names (n : nat) (d : Z) (i : nat) : bool :=
  ((if d <? 0 then d + Z.of_nat n else d) =? Z.of_nat i)%Z.

Definition in_range (n : nat) (d : Z) : Prop :=
  (- Z.of_nat n <= d < Z.of_nat n)%Z.

Module BroadcastedDropout.

Import (notations) String.

(** The attributes that [__init__] sets.  The rate is a rational number:
    the two comparisons that the layer makes with it are exact. *)
Record t : Type := mk {
  rate : QArith_base.Q;
  broadcast_dims : list Z;
  mode : String.string
}.

(** [__init__(rate, mode, broadcast_dims)]. *)
Definition init (rate : QArith_base.Q) (mode : String.string)
           (broadcast_dims : list Z) : result t :=
  if QArith_base.Qle_bool (QArith_base.Qmake 1 1) rate
  then Err ValueError
  else Ok (mk rate broadcast_dims mode).

(** The loop over [broadcast_dims]: [noise_shape[dim] = 1]. *)
Fixpoint noise_shape (dims : list Z) (shape : list nat)
  : result (list nat) :=
  match dims with
  | [] => Ok shape
  | dim :: dims' =>
      shape' <- set_item shape dim 1 ;;
      noise_shape dims' shape'
  end.

Section Def.

Context `{PRNG}.

(** The two calls into the numerical library in the training branch:
    [random.bernoulli(rng, keep_prob, noise_shape)], and the product
    [x * (keep / keep_prob)] with the mask broadcast to the shape of
    [x]. *)
Variable bernoulli : key -> QArith_base.Q -> list nat -> tensor.
Variable scale_kept : tensor -> tensor -> QArith_base.Q -> tensor.

(** [forward_with_state(x, weights, state, rng)]. *)
Definition forward_with_state (self : t) (x : tensor)
           (weights state : pytree) (rng : option key)
  : result (tensor * pytree) :=
  match rng with
  | None => Err ValueError
  | Some rng =>
      if String.eqb (mode self) "train"%string
         && negb (QArith_base.Qle_bool (rate self) (QArith_base.Qmake 0 1))
      then
        noise_shape <- noise_shape (broadcast_dims self) (shape x) ;;
        let keep_prob := QArith_base.Qminus (QArith_base.Qmake 1 1) (rate self) in
        let keep := bernoulli rng keep_prob noise_shape in
        Ok (scale_kept x keep keep_prob, state)
      else Ok (x, state)
  end.

End Def.
End BroadcastedDropout.

(** A mask that keeps every entry, and the rescaling by a keep probability
    of one: the numerical library of the examples. *)
Definition keep_all `{PRNG} (rng : key) (keep_prob : QArith_base.Q)
           (noise_shape : list nat) : tensor :=
  mkTensor noise_shape (repeat 1%Z (prod noise_shape)).

Definition unscaled (x keep : tensor) (keep_prob : QArith_base.Q) : tensor := x.

Definition half : QArith_base.Q := QArith_base.Qmake 1 2.

(** ** DecoderBlock *)

Section Blocks.

Context `{PRNG}.

(** Modelled from the spec: [tl.ReversibleSwap] is not under src/ and the
    spec does not describe it; it is taken to be [tl.Swap] as a reversible
    layer, with the forward pass of [tl.Swap]. *)
Definition ReversibleSwap : Layer := Swap.

(** The list of layers that [DecoderBlock] returns, from the three
    attention layers and the feed-forward layers that it builds out of its
    arguments. *)
Definition DecoderBlock (pre_attention : Layer) (attention : AttentionLayer)
           (post_attention feed_forward : Layer) : list Layer :=
  [ ReversibleAttentionHalfResidual.layer
      (ReversibleAttentionHalfResidual.init
         pre_attention attention post_attention);
    ReversibleSwap;
    ReversibleHalfResidual.layer (ReversibleHalfResidual.init feed_forward);
    ReversibleSwap ].

End Blocks.

(** ** The attention classes of the decoder blocks *)

Section DecoderBlockArguments.

(** The attention classes, and
    [issubclass(layer_attention_type, tl.LSHCausalAttention)]. *)
Variable attention_class : Type.
Variable is_lsh : attention_class -> bool.

(** The argument [attention_type]: one class, or a tuple or list of
    classes. *)
Inductive attention_type_arg : Type :=
| OneClass (c : attention_class)
| Classes (l : list attention_class).

(** The loop of [ReformerLM], and of [ReformerShortenLM], over the decoder
    blocks: for every block, the attention class and the [share_qk] flag
    that [DecoderBlock] is called with. *)
Definition decoder_block_arguments (n_layers : nat)
           (attention_type : attention_type_arg) (share_qk : bool)
  : result (list (attention_class * bool)) :=
  attention_type <-
    match attention_type with
    | Classes l =>
        m <- py_mod n_layers (length l) ;;
        _ <- assert (m =? 0) ;;
        Ok l
    | OneClass c => Ok [c]
    end ;;
  mapM (fun layer_idx =>
          i <- py_mod layer_idx (length attention_type) ;;
          layer_attention_type <- index attention_type i ;;
          Ok (layer_attention_type, share_qk || is_lsh layer_attention_type))
       (seq 0 n_layers).

End DecoderBlockArguments.

(** ** Chunking: theorems *)

Lemma prod_cons (d : nat) (sh : list nat) : prod (d :: sh) = d * prod sh.
Proof. reflexivity. Qed.

Lemma prod_app (a b : list nat) : prod (a ++ b) = prod a * prod b.
Proof.
  induction a as [|d a IH]; simpl.
  - lia.
  - fold (prod (a ++ b)); fold (prod a). rewrite IH. lia.
Qed.

(** What [Chunk] returns on a tensor of rank at least two whose length is a
    multiple of a non-zero [n]. *)
Lemma Chunk_divisible (s0 s1 n : nat) (rest : list nat) (d : list Z) :
  n <> 0 -> s1 mod n = 0 ->
  Chunk (mkTensor (s0 :: s1 :: rest) d) n
  = Ok (mkTensor (s0 * n :: s1 / n :: rest) d).
Proof.
  intros Hn Hm.
  unfold Chunk, shape_at, py_mod, py_floordiv, np_reshape; simpl.
  destruct (Nat.eqb_spec n 0) as [Hz|_]; [contradiction|]. simpl.
  rewrite Hm. simpl.
  fold (prod rest).
  assert (Hs : s1 = n * (s1 / n)) by (apply Nat.Div0.div_exact; assumption).
  replace (s0 * n * (s1 / n * prod rest) =? s0 * (s1 * prod rest)) with true.
  - reflexivity.
  - symmetry. apply Nat.eqb_eq. rewrite Hs at 2. lia.
Qed.

(** C5: for a tensor [x] of rank at least two whose second axis is evenly
    divisible by [n_sections], [Chunk] succeeds with a tensor of shape
    [batch * n_sections, length / n_sections, ...] holding the entries of [x],
    and [Unchunk] of that tensor is [x] itself. *)
Theorem C5_unchunk_chunk (x : tensor) (n_sections s0 s1 : nat) :
  shape_at x 0 = Ok s0 ->
  shape_at x 1 = Ok s1 ->
  py_mod s1 n_sections = Ok 0 ->
  exists c,
    Chunk x n_sections = Ok c /\
    shape c = (s0 * n_sections) :: (s1 / n_sections) :: skipn 2 (shape x) /\
    data c = data x /\
    Unchunk c n_sections = Ok x.
Proof.
  destruct x as [sh d]. unfold shape_at, py_mod. simpl.
  destruct sh as [|a [|b rest]]; simpl; try discriminate.
  intros H0 H1 Hm. injection H0 as H0. injection H1 as H1. subst a b.
  destruct (Nat.eqb_spec n_sections 0) as [Hz|Hn]; [discriminate|].
  injection Hm as Hm.
  eexists. split; [apply Chunk_divisible; assumption|].
  simpl. repeat split.
  unfold Unchunk, shape_at, py_mod, py_floordiv, np_reshape; simpl.
  destruct (Nat.eqb_spec n_sections 0) as [Hz|_]; [contradiction|]. simpl.
  rewrite Nat.Div0.mod_mul. simpl.
  rewrite Nat.div_mul by assumption.
  assert (Hs : s1 / n_sections * n_sections = s1).
  { rewrite Nat.mul_comm. symmetry. apply Nat.Div0.div_exact; assumption. }
  rewrite Hs. fold (prod rest).
  replace (s0 * (s1 * prod rest) =? s0 * n_sections * (s1 / n_sections * prod rest))
    with true.
  - reflexivity.
  - symmetry. apply Nat.eqb_eq. rewrite <- Hs at 1. lia.
Qed.

(** C7: on a tensor with a length axis, [Chunk] raises when the length is
    not evenly divisible by [n_sections] (the divisibility assertion fails;
    with no section at all the division itself raises), and [Chunk] with one
    section returns its input, entries and shape unchanged. *)
Theorem C7_chunk_divisibility (x : tensor) (n_sections s1 : nat) :
  shape_at x 1 = Ok s1 ->
  (py_mod s1 n_sections <> Ok 0 ->
   exists e, Chunk x n_sections = Err e /\
             (n_sections <> 0 -> e = AssertionError)) /\
  Chunk x 1 = Ok x.
Proof.
  intros H1. split.
  - intros Hm. unfold Chunk. rewrite H1. cbn [bind].
    unfold py_mod in *.
    destruct (Nat.eqb_spec n_sections 0) as [Hz|Hn].
    + exists ZeroDivisionError. split; [reflexivity|]. intros C. now elim C.
    + exists AssertionError. split; [|reflexivity]. cbn [bind].
      destruct (Nat.eqb_spec (s1 mod n_sections) 0) as [E|_].
      * elim Hm. now rewrite E.
      * reflexivity.
  - destruct x as [sh d]. unfold shape_at in H1. cbn [shape] in H1.
    destruct sh as [|s0 [|s1' rest]]; try discriminate.
    rewrite Chunk_divisible by (try apply Nat.mod_1_r; lia).
    now rewrite Nat.mul_1_r, Nat.div_1_r.
Qed.

(** ** Slices of flat lists *)

Section Slices.

Variable A : Type.

Lemma firstn_add (a b : nat) (l : list A) :
  firstn (a + b) l = firstn a l ++ firstn b (skipn a l).
Proof.
  revert l. induction a as [|a IH]; intros l; simpl.
  - reflexivity.
  - destruct l as [|x l]; simpl.
    + now rewrite firstn_nil.
    + now rewrite IH.
Qed.

Lemma flat_map_ext_in {B : Type} (f g : B -> list A) (l : list B) :
  (forall b, In b l -> f b = g b) -> flat_map f l = flat_map g l.
Proof.
  induction l as [|b l IH]; intros H; simpl.
  - reflexivity.
  - rewrite (H b) by now left.
    rewrite IH; [reflexivity|]. intros c Hc. apply H. now right.
Qed.

Lemma flat_map_map {B C : Type} (f : B -> C) (g : C -> list A) (l : list B) :
  flat_map g (map f l) = flat_map (fun b => g (f b)) l.
Proof.
  induction l as [|b l IH]; simpl; [reflexivity|]. now rewrite IH.
Qed.

Lemma length_flat_map_const {B : Type} (g : B -> list A) (l : list B) (L : nat) :
  (forall b, In b l -> length (g b) = L) ->
  length (flat_map g l) = length l * L.
Proof.
  induction l as [|b l IH]; intros H; simpl.
  - reflexivity.
  - rewrite length_app, (H b) by now left.
    rewrite IH; [reflexivity|]. intros c Hc. apply H. now right.
Qed.

End Slices.

Lemma slice_add (s a b : nat) (l : list Z) :
  slice s (a + b) l = slice s a l ++ slice (s + a) b l.
Proof.
  unfold slice. rewrite firstn_add, skipn_skipn.
  now replace (a + s) with (s + a) by lia.
Qed.

Lemma slice_all (n : nat) (l : list Z) : length l <= n -> slice 0 n l = l.
Proof. intros H. unfold slice. simpl. now apply firstn_all2. Qed.

Lemma length_slice (s len : nat) (l : list Z) :
  s + len <= length l -> length (slice s len l) = len.
Proof.
  intros H. unfold slice. rewrite length_firstn, length_skipn. lia.
Qed.

Lemma slice_app_l (s len : nat) (a b : list Z) :
  s + len <= length a -> slice s len (a ++ b) = slice s len a.
Proof.
  intros H. unfold slice. rewrite skipn_app, firstn_app, length_skipn.
  replace (len - (length a - s)) with 0 by lia.
  replace (s - length a) with 0 by lia.
  simpl. now rewrite app_nil_r.
Qed.

Lemma slice_app_r (s len : nat) (a b : list Z) :
  length a <= s -> slice s len (a ++ b) = slice (s - length a) len b.
Proof.
  intros H. unfold slice. rewrite skipn_app.
  now rewrite (skipn_all2 a) by assumption.
Qed.

(** Consecutive slices of the same length make one long slice. *)
Lemma flat_map_slices (s L n : nat) (l : list Z) :
  flat_map (fun j => slice (s + j * L) L l) (seq 0 n) = slice s (n * L) l.
Proof.
  induction n as [|n IH].
  - reflexivity.
  - rewrite seq_S, flat_map_app, IH. simpl.
    rewrite app_nil_r.
    replace (L + n * L) with (n * L + L) by lia.
    now rewrite slice_add.
Qed.

(** The [j]-th block of a concatenation of blocks of length [L]. *)
Lemma slice_flat_map_nth {B : Type} (g : B -> list Z) (L : nat) (b0 : B) :
  forall (l : list B) (j s len : nat),
    (forall b, In b l -> length (g b) = L) ->
    j < length l -> s + len <= L ->
    slice (j * L + s) len (flat_map g l) = slice s len (g (nth j l b0)).
Proof.
  induction l as [|b l IH]; intros j s len Hlen Hj Hs; simpl in Hj.
  - lia.
  - assert (Hb : length (g b) = L) by (apply Hlen; now left).
    destruct j as [|j]; simpl.
    + apply slice_app_l. lia.
    + rewrite slice_app_r by lia.
      replace (L + j * L + s - length (g b)) with (j * L + s) by lia.
      apply IH; [|lia|assumption].
      intros c Hc. apply Hlen. now right.
Qed.

Lemma slice_flat_map_seq (g : nat -> list Z) (L k o s len : nat) :
  (forall i, i < k -> length (g i) = L) ->
  o < k -> s + len <= L ->
  slice (o * L + s) len (flat_map g (seq 0 k)) = slice s len (g o).
Proof.
  intros Hlen Ho Hs.
  rewrite (slice_flat_map_nth g 0 (L := L)).
  - now rewrite seq_nth.
  - intros b Hb. apply in_seq in Hb. apply Hlen. lia.
  - now rewrite length_seq.
  - assumption.
Qed.

(** A list cut in rows and joined again. *)
Lemma take_rows_all (outer row : nat) (d : list Z) :
  length d = outer * row -> take_rows outer row 0 row d = d.
Proof.
  intros H. unfold take_rows.
  rewrite (flat_map_ext_in _ (fun o => slice (0 + o * row) row d)).
  - rewrite flat_map_slices. apply slice_all. lia.
  - intros o _. f_equal. lia.
Qed.

(** ** Shapes *)

Lemma normalize_axis_lt (axis : Z) (nd ax : nat) :
  normalize_axis axis nd = Ok ax -> ax < nd.
Proof.
  unfold normalize_axis.
  destruct (axis <? 0)%Z;
    match goal with
    | |- context [if ?c then _ else _] => destruct c eqn:Hc
    end; try discriminate;
    intros H; injection H as <-;
    apply andb_true_iff in Hc; destruct Hc as [H0 H1];
    apply Z.leb_le in H0; apply Z.ltb_lt in H1; lia.
Qed.

Lemma shape_at_nth (x : tensor) (ax : nat) :
  ax < ndim x -> shape_at x ax = Ok (dim ax x).
Proof.
  intros H. unfold shape_at, dim.
  destruct (nth_error (shape x) ax) as [d|] eqn:E.
  - now rewrite (nth_error_nth _ _ _ E).
  - apply nth_error_None in E. unfold ndim in H. lia.
Qed.

Lemma shape_split (sh : list nat) (ax : nat) :
  ax < length sh ->
  sh = firstn ax sh ++ nth ax sh 0 :: skipn (S ax) sh.
Proof.
  revert ax. induction sh as [|d sh IH]; intros ax H; simpl in H.
  - lia.
  - destruct ax as [|ax]; simpl.
    + reflexivity.
    + f_equal. apply IH. lia.
Qed.

Lemma prod_split (sh : list nat) (ax : nat) :
  ax < length sh ->
  prod sh = prod (firstn ax sh) * (nth ax sh 0 * prod (skipn (S ax) sh)).
Proof.
  intros H. rewrite (shape_split sh H) at 1.
  now rewrite prod_app, prod_cons.
Qed.

Lemma firstn_pre (pre post : list nat) (d : nat) :
  firstn (length pre) (pre ++ d :: post) = pre.
Proof.
  rewrite firstn_app, Nat.sub_diag, firstn_all. simpl. apply app_nil_r.
Qed.

Lemma skipn_post (pre post : list nat) (d : nat) :
  skipn (S (length pre)) (pre ++ d :: post) = post.
Proof.
  rewrite skipn_app, skipn_all2 by lia.
  now replace (S (length pre) - length pre) with 1 by lia.
Qed.

Lemma nth_mid (pre post : list nat) (d : nat) :
  nth (length pre) (pre ++ d :: post) 0 = d.
Proof. now rewrite app_nth2, Nat.sub_diag by lia. Qed.

Lemma length_firstn_lt (sh : list nat) (ax : nat) :
  ax < length sh -> length (firstn ax sh) = ax.
Proof. intros H. rewrite length_firstn. lia. Qed.

(** ** np.split and np.concatenate *)

Lemma block_bound (o outer j n L : nat) :
  o < outer -> j < n -> o * (n * L) + j * L + L <= outer * (n * L).
Proof.
  intros Ho Hj.
  assert (H1 : (j + 1) * L <= n * L) by (apply Nat.mul_le_mono_r; lia).
  assert (H2 : (o + 1) * (n * L) <= outer * (n * L))
    by (apply Nat.mul_le_mono_r; lia).
  lia.
Qed.

Lemma np_split_ok (x : tensor) (n : nat) (axis : Z) (ax : nat) :
  normalize_axis axis (ndim x) = Ok ax ->
  n <> 0 -> dim ax x mod n = 0 ->
  np_split x n axis = Ok (map (section_of x ax (dim ax x / n)) (seq 0 n)).
Proof.
  intros Hax Hn Hm. unfold np_split. rewrite Hax. simpl.
  rewrite shape_at_nth by (eapply normalize_axis_lt; eassumption). simpl.
  unfold py_mod. destruct (Nat.eqb_spec n 0) as [Hz|_]; [contradiction|]. simpl.
  rewrite Hm. reflexivity.
Qed.

Lemma section_wf (x : tensor) (ax n j : nat) :
  wf x -> ax < ndim x -> n <> 0 -> dim ax x mod n = 0 -> j < n ->
  wf (section_of x ax (dim ax x / n) j).
Proof.
  intros Hwf Hax Hn Hm Hj. unfold wf, section_of. cbn [shape data].
  set (pre := firstn ax (shape x)). set (post := skipn (S ax) (shape x)).
  rewrite prod_app, prod_cons. unfold take_rows.
  set (sec := dim ax x / n).
  assert (HN : dim ax x = n * sec) by (apply Nat.Div0.div_exact; assumption).
  rewrite (@length_flat_map_const _ _ _ _ (sec * prod post)).
  - now rewrite length_seq.
  - intros o Ho. apply in_seq in Ho. apply length_slice.
    rewrite Hwf, (prod_split (shape x) Hax).
    fold pre post. fold (dim ax x). rewrite HN.
    replace (n * sec * prod post) with (n * (sec * prod post)) by lia.
    apply block_bound; lia.
Qed.

Lemma list_sum_const {B : Type} (f : B -> nat) (d : nat) (l : list B) :
  (forall b, In b l -> f b = d) -> list_sum (map f l) = length l * d.
Proof.
  induction l as [|b l IH]; intros H; simpl.
  - reflexivity.
  - rewrite (H b) by now left. rewrite IH; [lia|].
    intros c Hc. apply H. now right.
Qed.

(** Joining tensors of one shape [pre ++ d :: post] along the axis after
    [pre]. *)
Lemma np_concatenate_same (ts : list tensor) (axis : Z) (pre post : list nat)
      (d : nat) :
  ts <> [] ->
  (forall t, In t ts -> shape t = pre ++ d :: post) ->
  normalize_axis axis (length (pre ++ d :: post)) = Ok (length pre) ->
  np_concatenate ts axis
  = Ok (mkTensor (pre ++ (length ts * d) :: post)
          (flat_map
             (fun o => flat_map
                         (fun t => slice (o * (d * prod post)) (d * prod post)
                                         (data t)) ts)
             (seq 0 (prod pre)))).
Proof.
  intros Hne Hsh Hax.
  assert (Hdim : forall t, In t ts -> dim (length pre) t = d).
  { intros t Ht. unfold dim. rewrite (Hsh t Ht). apply nth_mid. }
  destruct ts as [|t0 ts']; [contradiction|].
  assert (H0 : shape t0 = pre ++ d :: post) by (apply Hsh; now left).
  unfold np_concatenate, ndim. rewrite H0, Hax. cbn [bind].
  replace (forallb (same_off_axis (length pre) t0) (t0 :: ts')) with true.
  - rewrite firstn_pre, skipn_post.
    rewrite (@list_sum_const _ (dim (length pre)) d (t0 :: ts') Hdim).
    f_equal. f_equal.
    apply flat_map_ext_in. intros o _.
    apply flat_map_ext_in. intros t Ht. now rewrite (Hdim t Ht).
  - symmetry. apply forallb_forall. intros t Ht.
    unfold same_off_axis, ndim. rewrite H0, (Hsh t Ht), Nat.eqb_refl.
    destruct (list_eq_dec Nat.eq_dec _ _) as [_|C]; [|now elim C].
    destruct (list_eq_dec Nat.eq_dec _ _) as [_|C]; [|now elim C].
    reflexivity.
Qed.

(** Splitting a tensor in [n] sections and joining them again. *)
Lemma np_concatenate_split (x : tensor) (n : nat) (axis : Z) (ax : nat) :
  wf x ->
  normalize_axis axis (ndim x) = Ok ax ->
  n <> 0 -> dim ax x mod n = 0 ->
  np_concatenate (map (section_of x ax (dim ax x / n)) (seq 0 n)) axis = Ok x.
Proof.
  intros Hwf Hax Hn Hm.
  assert (Hlt : ax < ndim x) by (eapply normalize_axis_lt; eassumption).
  set (sec := dim ax x / n).
  assert (HN : dim ax x = n * sec) by (apply Nat.Div0.div_exact; assumption).
  set (pre := firstn ax (shape x)). set (post := skipn (S ax) (shape x)).
  assert (Hpre : length pre = ax) by (apply length_firstn_lt; assumption).
  assert (Hsh : shape x = pre ++ dim ax x :: post)
    by (apply shape_split; assumption).
  rewrite (@np_concatenate_same _ axis pre post sec).
  - rewrite length_map, length_seq, <- HN, <- Hsh.
    destruct x as [sh d]. cbn [shape data] in *. f_equal. f_equal.
    unfold wf in Hwf. cbn [shape data] in Hwf.
    rewrite Hsh, prod_app, prod_cons in Hwf.
    set (L := sec * prod post).
    set (R := dim ax (mkTensor sh d) * prod post) in *.
    assert (HR : R = n * L) by (unfold R, L; rewrite HN; lia).
    transitivity (take_rows (prod pre) R 0 R d);
      [|apply take_rows_all; assumption].
    unfold take_rows.
    apply flat_map_ext_in. intros o Ho. apply in_seq in Ho.
    rewrite flat_map_map.
    rewrite (flat_map_ext_in _ (fun j => slice (o * R + j * L) L d)).
    + rewrite flat_map_slices. f_equal; lia.
    + intros j Hj. apply in_seq in Hj.
      unfold section_of. cbn [shape data]. fold pre post. fold L.
      fold R. unfold take_rows.
      replace (o * L) with (o * L + 0) by lia.
      rewrite (@slice_flat_map_seq _ L).
      * apply slice_all. rewrite length_slice; [lia|].
        rewrite Hwf, HR. apply block_bound; lia.
      * intros i Hi. apply length_slice.
        rewrite Hwf, HR. apply block_bound; lia.
      * lia.
      * lia.
  - destruct n; [contradiction|]. discriminate.
  - intros t Ht. apply in_map_iff in Ht. now destruct Ht as [j [<- _]].
  - rewrite length_app. cbn [length].
    replace (length pre + S (length post)) with (ndim x).
    + now rewrite Hpre.
    + unfold ndim. rewrite Hsh at 1. now rewrite length_app.
Qed.
Lemma map_nth_seq {B : Type} (l : list B) (b0 : B) :
  map (fun j => nth j l b0) (seq 0 (length l)) = l.
Proof.
  induction l as [|b l IH]; simpl.
  - reflexivity.
  - f_equal. rewrite <- seq_shift, map_map. exact IH.
Qed.

(** Joining tensors of one shape and splitting the result again. *)
Lemma np_split_concatenate (ts : list tensor) (axis : Z) (pre post : list nat)
      (d : nat) :
  ts <> [] ->
  (forall t, In t ts -> shape t = pre ++ d :: post) ->
  (forall t, In t ts -> wf t) ->
  normalize_axis axis (length (pre ++ d :: post)) = Ok (length pre) ->
  exists c,
    np_concatenate ts axis = Ok c /\
    shape c = pre ++ (length ts * d) :: post /\
    wf c /\
    np_split c (length ts) axis = Ok ts.
Proof.
  intros Hne Hsh Hwf Hax.
  eexists. split; [apply np_concatenate_same; eassumption|].
  set (n := length ts). set (L := d * prod post).
  set (rows := fun o => flat_map (fun t => slice (o * L) L (data t)) ts).
  set (c := mkTensor _ _).
  assert (Hn : n <> 0) by (destruct ts; [contradiction|discriminate]).
  assert (Hlen : forall t, In t ts -> length (data t) = prod pre * L).
  { intros t Ht. rewrite (Hwf t Ht), (Hsh t Ht), prod_app, prod_cons.
    reflexivity. }
  assert (Hslice : forall o t, o < prod pre -> In t ts ->
                          length (slice (o * L) L (data t)) = L).
  { intros o t Ho Ht. apply length_slice. rewrite (Hlen t Ht).
    pose proof (@block_bound o (prod pre) 0 1 L Ho). lia. }
  assert (Hrow : forall o, o < prod pre -> length (rows o) = n * L).
  { intros o Ho. unfold rows. apply length_flat_map_const.
    intros t Ht. now apply Hslice. }
  assert (Hndim : ndim c = length (pre ++ d :: post)).
  { unfold ndim, c. cbn [shape]. now rewrite !length_app. }
  assert (Hdimc : dim (length pre) c = n * d) by apply nth_mid.
  split; [reflexivity|]. split.
  { unfold wf, c. cbn [shape data]. fold L. fold rows.
    rewrite (@length_flat_map_const _ _ rows _ (n * L)).
    - rewrite length_seq, prod_app, prod_cons. unfold L. lia.
    - intros o Ho. apply in_seq in Ho. apply Hrow. lia. }
  rewrite (@np_split_ok c n axis (length pre)).
  - f_equal. rewrite Hdimc, Nat.mul_comm, Nat.div_mul by assumption.
    transitivity (map (fun j => nth j ts c) (seq 0 n));
      [|apply map_nth_seq].
    apply map_ext_in. intros j Hj. apply in_seq in Hj.
    assert (Hin : In (nth j ts c) ts) by (apply nth_In; lia).
    assert (Hprec : firstn (length pre) (shape c) = pre) by apply firstn_pre.
    assert (Hpostc : skipn (S (length pre)) (shape c) = post)
      by apply skipn_post.
    assert (Hdata : data c = flat_map rows (seq 0 (prod pre))) by reflexivity.
    unfold section_of. rewrite Hdimc, Hprec, Hpostc, Hdata. fold L.
    destruct (nth j ts c) as [shj dj] eqn:Ej.
    rewrite <- (Hsh _ Hin). cbn [shape]. f_equal.
    transitivity (take_rows (prod pre) L 0 L dj);
      [|apply take_rows_all; exact (Hlen _ Hin)].
    unfold take_rows. apply flat_map_ext_in. intros o Ho. apply in_seq in Ho.
    replace (n * d * prod post) with (n * L) by (unfold L; lia).
    rewrite (@slice_flat_map_seq rows (n * L)); [| |lia|].
    + unfold rows.
      replace (j * L) with (j * L + 0) by lia.
      rewrite (@slice_flat_map_nth _ _ L c); [| |lia|lia].
      * rewrite Ej. cbn [data]. rewrite Nat.add_0_r. apply slice_all.
        pose proof (Hslice o _ ltac:(lia) Hin) as Hs. cbn [data] in Hs. lia.
      * intros t Ht. apply Hslice; [lia|assumption].
    + intros i Hi. apply Hrow. lia.
    + pose proof (@block_bound 0 1 j n L). lia.
  - now rewrite Hndim.
  - assumption.
  - rewrite Hdimc, Nat.mul_comm. apply Nat.Div0.mod_mul.
Qed.
(** ** SplitForOutput: round trip *)

Lemma mapM_ok {A B : Type} (f : A -> result B) (P : A -> B -> Prop)
      (l : list A) :
  (forall a, In a l -> exists b, f a = Ok b /\ P a b) ->
  exists bs, mapM f l = Ok bs /\ Forall2 P l bs.
Proof.
  induction l as [|a l IH]; intros H.
  - exists []. split; [reflexivity|constructor].
  - destruct (H a (or_introl eq_refl)) as [b [Hb HP]].
    destruct IH as [bs [Hbs HF]]; [intros c Hc; apply H; now right|].
    exists (b :: bs). split; [|now constructor].
    cbn [mapM]. rewrite Hb. cbn [bind]. rewrite Hbs. reflexivity.
Qed.

Lemma split_halves_ok (l : list (tensor * tensor)) (ys : list tensor) :
  Forall2 (fun p y => np_split y 2 (-1) = Ok [fst p; snd p]) l ys ->
  SplitForOutput.split_halves ys = Ok (map fst l, map snd l).
Proof.
  induction 1 as [|p y l ys Hy _ IH].
  - reflexivity.
  - cbn [SplitForOutput.split_halves]. rewrite Hy. cbn [bind].
    rewrite IH. reflexivity.
Qed.

Lemma map_fst_combine {A B : Type} (l1 : list A) (l2 : list B) :
  length l1 = length l2 -> map fst (combine l1 l2) = l1.
Proof.
  revert l2. induction l1 as [|a l1 IH]; intros [|b l2] H; simpl in *;
    try discriminate; [reflexivity|].
  f_equal. apply IH. lia.
Qed.

Lemma map_snd_combine {A B : Type} (l1 : list A) (l2 : list B) :
  length l1 = length l2 -> map snd (combine l1 l2) = l2.
Proof.
  revert l2. induction l1 as [|a l1 IH]; intros [|b l2] H; simpl in *;
    try discriminate; [reflexivity|].
  f_equal. apply IH. lia.
Qed.

Lemma normalize_last (pre : list nat) (d : nat) :
  normalize_axis (-1) (length (pre ++ d :: [])) = Ok (length pre).
Proof.
  unfold normalize_axis. rewrite length_app. cbn [length Z.ltb Z.compare].
  replace (-1 + Z.of_nat (length pre + 1))%Z with (Z.of_nat (length pre)) by lia.
  destruct (andb_true_iff (0 <=? Z.of_nat (length pre))%Z
                           (Z.of_nat (length pre) <? Z.of_nat (length pre + 1))%Z)
    as [_ H].
  rewrite H.
  - now rewrite Nat2Z.id.
  - split; [apply Z.leb_le|apply Z.ltb_lt]; lia.
Qed.

(** A pair of equally shaped sections joined along the last axis and split
    in two again. *)
Lemma join_halves (a b : tensor) (sh : list nat) :
  sh <> [] -> shape a = sh -> shape b = sh -> wf a -> wf b ->
  exists y,
    np_concatenate [a; b] (-1) = Ok y /\
    shape y = removelast sh ++ [2 * last sh 0] /\
    np_split y 2 (-1) = Ok [a; b].
Proof.
  intros Hne Ha Hb Hwa Hwb.
  destruct (exists_last Hne) as [pre [d E]].
  destruct (@np_split_concatenate [a; b] (-1) pre [] d) as [c [Hc [Hs [_ Hsp]]]].
  - discriminate.
  - intros t [<-|[<-|[]]]; congruence.
  - intros t [<-|[<-|[]]]; assumption.
  - apply normalize_last.
  - exists c. split; [assumption|]. split; [|assumption].
    rewrite Hs, E, removelast_last, last_last. reflexivity.
Qed.
(** What [forward] returns on two well-formed tensors of one shape: the
    sections of both, joined pairwise; each output splits back in its two
    sections. *)
Lemma forward_sections (self : SplitForOutput.t) (x1 x2 : tensor) (ax : nat) :
  wf x1 -> wf x2 -> shape x1 = shape x2 ->
  normalize_axis (SplitForOutput.axis self) (ndim x1) = Ok ax ->
  py_mod (dim ax x1) (SplitForOutput.n_sections self) = Ok 0 ->
  let n := SplitForOutput.n_sections self in
  let sec := dim ax x1 / n in
  let sh := firstn ax (shape x1) ++ sec :: skipn (S ax) (shape x1) in
  exists ys,
    SplitForOutput.forward self [x1; x2] = Ok ys /\
    Forall2 (joined sh)
            (combine (map (section_of x1 ax sec) (seq 0 n))
                     (map (section_of x2 ax sec) (seq 0 n)))
            ys.
Proof.
  intros Hw1 Hw2 Hsh Hax Hmod n sec sh.
  assert (Hlt : ax < ndim x1) by (eapply normalize_axis_lt; eassumption).
  unfold py_mod in Hmod. fold n in Hmod.
  destruct (Nat.eqb_spec n 0) as [Hz|Hn]; [discriminate|].
  injection Hmod as Hmod.
  assert (Hnd : ndim x2 = ndim x1) by (unfold ndim; now rewrite Hsh).
  assert (Hd : dim ax x2 = dim ax x1) by (unfold dim; now rewrite Hsh).
  unfold SplitForOutput.forward. fold n.
  rewrite (@np_split_ok x1 n _ ax) by assumption.
  rewrite (@np_split_ok x2 n _ ax) by (rewrite ?Hnd, ?Hd; assumption).
  cbn [bind]. rewrite Hd. fold sec.
  destruct (@mapM_ok _ _
              (fun ys => np_concatenate [fst ys; snd ys] (-1))
              (joined sh)
              (combine (map (section_of x1 ax sec) (seq 0 n))
                       (map (section_of x2 ax sec) (seq 0 n))))
    as [ys [Hys HF]].
  - intros [a b] Hin. unfold joined. cbn [fst snd].
    pose proof (in_combine_l _ _ _ _ Hin) as Hinl.
    pose proof (in_combine_r _ _ _ _ Hin) as Hinr.
    apply in_map_iff in Hinl. destruct Hinl as [j1 [<- Hj1]].
    apply in_map_iff in Hinr. destruct Hinr as [j2 [<- Hj2]].
    apply in_seq in Hj1. apply in_seq in Hj2.
    assert (Hs2 : shape (section_of x2 ax sec j2) = sh)
      by (unfold section_of; cbn [shape]; now rewrite <- Hsh).
    assert (Hws1 : wf (section_of x1 ax sec j1))
      by (apply section_wf; (assumption || lia)).
    assert (Hws2 : wf (section_of x2 ax sec j2)).
    { unfold sec. rewrite <- Hd. apply section_wf; rewrite ?Hnd, ?Hd;
        (assumption || lia). }
    destruct (@join_halves (section_of x1 ax sec j1) (section_of x2 ax sec j2) sh)
      as [y [Hy [Hs Hsp]]]; try assumption; try reflexivity.
    + unfold sh. now destruct (firstn ax (shape x1)).
    + exists y. split; [exact Hy|]. repeat split; assumption.
  - exists ys. split; assumption.
Qed.

(** [reverse] after [forward]. *)
Lemma split_round_trip
        (self : SplitForOutput.t) (x1 x2 : tensor) (ax : nat) :
  wf x1 -> wf x2 -> shape x1 = shape x2 ->
  normalize_axis (SplitForOutput.axis self) (ndim x1) = Ok ax ->
  py_mod (dim ax x1) (SplitForOutput.n_sections self) = Ok 0 ->
  exists ys,
    SplitForOutput.forward self [x1; x2] = Ok ys /\
    SplitForOutput.reverse self ys = Ok [x1; x2] /\
    (shape x1 = [2; 8; 4] -> self = SplitForOutput.mk 2 (-2) ->
     map shape ys = [[2; 4; 8]; [2; 4; 8]]).
Proof.
  intros Hw1 Hw2 Hsh Hax Hmod.
  destruct (forward_sections self Hw1 Hw2 Hsh Hax Hmod) as [ys [Hf HF]].
  exists ys. split; [assumption|].
  assert (Hlt : ax < ndim x1) by (eapply normalize_axis_lt; eassumption).
  pose proof Hmod as Hmod'. unfold py_mod in Hmod'.
  destruct (Nat.eqb_spec (SplitForOutput.n_sections self) 0) as [Hz|Hn];
    [discriminate|].
  injection Hmod' as Hmod'.
  assert (Hnd : ndim x2 = ndim x1) by (unfold ndim; now rewrite Hsh).
  assert (Hd : dim ax x2 = dim ax x1) by (unfold dim; now rewrite Hsh).
  split.
  - unfold SplitForOutput.reverse.
    erewrite split_halves_ok;
      [|eapply Forall2_impl; [|exact HF]; intros p y H; exact (proj2 (proj2 (proj2 (proj2 H))))].
    + cbn [bind].
      rewrite map_fst_combine, map_snd_combine by now rewrite !length_map.
      rewrite np_concatenate_split by assumption. cbn [bind].
      rewrite <- Hd.
      rewrite np_concatenate_split by (rewrite ?Hnd, ?Hd; assumption).
      reflexivity.
  - intros Hs ->. cbn [SplitForOutput.n_sections SplitForOutput.axis] in *.
    unfold ndim in Hax. rewrite Hs in Hax. injection Hax as <-.
    unfold dim in HF. rewrite Hs in HF. cbn in HF.
    inversion HF as [|p1 y1 l1 ys1 [_ [_ [H1 _]]] HF1]; subst.
    inversion HF1 as [|p2 y2 l2 ys2 [_ [_ [H2 _]]] HF2]; subst.
    inversion HF2; subst. cbn [map]. now rewrite H1, H2.
Qed.

(** C6: for two well-formed tensors of one shape whose split axis is evenly
    divisible by [n_sections], [forward] succeeds and [reverse] of its outputs
    is the original pair; for tensors of shape [2, 8, 4] with two sections
    along the axis -2, the outputs are two tensors of shape [2, 4, 8]. *)
Theorem C6_split_for_output_round_trip
        (self : SplitForOutput.t) (x1 x2 : tensor) (ax : nat) :
  wf x1 -> wf x2 -> shape x1 = shape x2 ->
  normalize_axis (SplitForOutput.axis self) (ndim x1) = Ok ax ->
  py_mod (dim ax x1) (SplitForOutput.n_sections self) = Ok 0 ->
  exists ys,
    SplitForOutput.forward self [x1; x2] = Ok ys /\
    SplitForOutput.reverse self ys = Ok [x1; x2] /\
    (shape x1 = [2; 8; 4] -> self = SplitForOutput.mk 2 (-2) ->
     map shape ys = [[2; 4; 8]; [2; 4; 8]]).
Proof. exact (@split_round_trip self x1 x2 ax). Qed.


(** ** Inner products *)

Lemma dot_nil_r (a : list Z) : dot a [] = 0%Z.
Proof. now destruct a. Qed.

Lemma dot_comm (a b : list Z) : dot a b = dot b a.
Proof.
  unfold dot, sumZ. revert b. induction a as [|x a IH]; intros [|y b]; simpl;
    try reflexivity.
  rewrite IH. lia.
Qed.

Lemma dot_app (a1 a2 b1 b2 : list Z) :
  length a1 = length b1 ->
  dot (a1 ++ a2) (b1 ++ b2) = (dot a1 b1 + dot a2 b2)%Z.
Proof.
  unfold dot, sumZ. revert b1. induction a1 as [|x a1 IH]; intros [|y b1] Hl;
    simpl in *; try discriminate; [reflexivity|].
  rewrite IH by lia. lia.
Qed.

Lemma dot_flat_map {B : Type} (f g : B -> list Z) (l : list B) :
  (forall b, In b l -> length (f b) = length (g b)) ->
  dot (flat_map f l) (flat_map g l) = sumZ (map (fun b => dot (f b) (g b)) l).
Proof.
  induction l as [|b l IH]; intros Hl; cbn [flat_map map sumZ fold_right].
  - reflexivity.
  - rewrite dot_app by (apply Hl; now left).
    rewrite IH by (intros c Hc; apply Hl; now right). reflexivity.
Qed.

Lemma sumZ_app (l1 l2 : list Z) : sumZ (l1 ++ l2) = (sumZ l1 + sumZ l2)%Z.
Proof.
  induction l1 as [|x l1 IH]; simpl; [reflexivity|]. rewrite IH. lia.
Qed.

Lemma sumZ_map_add {B : Type} (f g : B -> Z) (l : list B) :
  sumZ (map (fun b => (f b + g b)%Z) l) = (sumZ (map f l) + sumZ (map g l))%Z.
Proof.
  induction l as [|b l IH]; simpl; [reflexivity|]. rewrite IH. lia.
Qed.

Lemma sumZ_map_ext {B : Type} (f g : B -> Z) (l : list B) :
  (forall b, In b l -> f b = g b) -> sumZ (map f l) = sumZ (map g l).
Proof.
  intros Hfg. f_equal. apply map_ext_in. exact Hfg.
Qed.

Lemma sumZ_swap {B C : Type} (F : B -> C -> Z) (l1 : list B) (l2 : list C) :
  sumZ (map (fun i => sumZ (map (fun j => F i j) l2)) l1)
  = sumZ (map (fun j => sumZ (map (fun i => F i j) l1)) l2).
Proof.
  induction l1 as [|i l1 IH]; cbn [map sumZ fold_right].
  - induction l2 as [|j l2 IH2]; [reflexivity|].
    cbn [map sumZ fold_right]. fold (sumZ (map (fun _ : C => 0%Z) l2)).
    now rewrite <- IH2.
  - fold (sumZ (map (fun i0 => sumZ (map (fun j => F i0 j) l2)) l1)).
    rewrite IH.
    rewrite <- sumZ_map_add. apply sumZ_map_ext. intros j _. reflexivity.
Qed.

(** The rows of a concatenation against the rows of a split: joining
    [n] blocks row by row is the adjoint of cutting every row in [n]. *)
Lemma dot_rows (outer n L : nat) (t : nat -> list Z) (z : list Z) :
  length z = outer * (n * L) ->
  (forall j, j < n -> length (t j) = outer * L) ->
  dot (flat_map (fun o => flat_map (fun j => slice (o * L) L (t j)) (seq 0 n))
                (seq 0 outer))
      z
  = sumZ (map (fun j =>
                 dot (t j)
                     (flat_map (fun o => slice (o * (n * L) + j * L) L z)
                               (seq 0 outer)))
              (seq 0 n)).
Proof.
  intros Hz Ht.
  assert (Hlen : forall o j, o < outer -> j < n ->
                   length (slice (o * L) L (t j)) = L
                   /\ length (slice (o * (n * L) + j * L) L z) = L).
  { intros o j Ho Hj. split; apply length_slice.
    - rewrite (Ht j Hj). pose proof (@block_bound o outer 0 1 L Ho). lia.
    - rewrite Hz. apply block_bound; assumption. }
  transitivity
    (dot (flat_map (fun o => flat_map (fun j => slice (o * L) L (t j)) (seq 0 n))
                   (seq 0 outer))
         (flat_map (fun o => flat_map (fun j => slice (o * (n * L) + j * L) L z)
                                      (seq 0 n))
                   (seq 0 outer))).
  { f_equal. rewrite <- (take_rows_all outer (n * L) z) at 1 by assumption.
    unfold take_rows. apply flat_map_ext_in. intros o _.
    rewrite flat_map_slices. f_equal. lia. }
  rewrite dot_flat_map.
  2:{ intros o Ho. apply in_seq in Ho.
      rewrite (@length_flat_map_const _ _ (fun j => slice (o * L) L (t j))
                 (seq 0 n) L)
        by (intros j Hj; apply in_seq in Hj; apply Hlen; lia).
      rewrite (@length_flat_map_const _ _
                 (fun j => slice (o * (n * L) + j * L) L z) (seq 0 n) L)
        by (intros j Hj; apply in_seq in Hj; apply Hlen; lia).
      reflexivity. }
  rewrite (sumZ_map_ext _
             (fun o => sumZ (map (fun j => dot (slice (o * L) L (t j))
                                               (slice (o * (n * L) + j * L) L z))
                                 (seq 0 n)))).
  2:{ intros o Ho. apply in_seq in Ho. apply dot_flat_map.
      intros j Hj. apply in_seq in Hj.
      destruct (Hlen o j) as [H1 H2]; lia. }
  rewrite sumZ_swap. apply sumZ_map_ext. intros j Hj. apply in_seq in Hj.
  rewrite <- dot_flat_map.
  2:{ intros o Ho. apply in_seq in Ho.
      destruct (Hlen o j) as [H1 H2]; lia. }
  f_equal.
  transitivity (take_rows outer L 0 L (t j)).
  - unfold take_rows. apply flat_map_ext_in. intros o _. f_equal. lia.
  - apply take_rows_all. apply Ht. lia.
Qed.
Lemma combine_map_seq {B C : Type} (l : list B) (b0 : B) (f : nat -> C) :
  combine l (map f (seq 0 (length l)))
  = map (fun j => (nth j l b0, f j)) (seq 0 (length l)).
Proof.
  revert f. induction l as [|b l IH]; intros f; [reflexivity|].
  cbn [length seq map combine nth]. f_equal.
  rewrite <- seq_shift, !map_map. exact (IH (fun j => f (S j))).
Qed.

Lemma flat_map_nth_seq {B : Type} (g : B -> list Z) (l : list B) (b0 : B) :
  flat_map g l = flat_map (fun j => g (nth j l b0)) (seq 0 (length l)).
Proof.
  rewrite <- (map_nth_seq l b0) at 1. apply flat_map_map.
Qed.

(** Joining tensors along an axis is the adjoint of splitting along it. *)
Lemma concatenate_split_adjoint (ts : list tensor) (z : tensor) (axis : Z)
      (pre post : list nat) (d : nat) :
  ts <> [] ->
  (forall t, In t ts -> shape t = pre ++ d :: post) ->
  (forall t, In t ts -> wf t) ->
  normalize_axis axis (length (pre ++ d :: post)) = Ok (length pre) ->
  shape z = pre ++ (length ts * d) :: post -> wf z ->
  let zs := map (section_of z (length pre) d) (seq 0 (length ts)) in
  exists c,
    np_concatenate ts axis = Ok c /\
    shape c = shape z /\
    np_split z (length ts) axis = Ok zs /\
    dot (data c) (data z) = inner ts zs.
Proof.
  intros Hne Hsh Hwf Hax Hz Hwz zs.
  set (n := length ts) in *. set (L := d * prod post).
  assert (Hn : n <> 0) by (destruct ts; [contradiction|discriminate]).
  eexists. split; [apply np_concatenate_same; eassumption|].
  assert (Hndim : ndim z = length (pre ++ d :: post)).
  { unfold ndim. rewrite Hz. now rewrite !length_app. }
  assert (Hdimz : dim (length pre) z = n * d).
  { unfold dim. rewrite Hz. apply nth_mid. }
  assert (Hprez : firstn (length pre) (shape z) = pre)
    by (rewrite Hz; apply firstn_pre).
  assert (Hpostz : skipn (S (length pre)) (shape z) = post)
    by (rewrite Hz; apply skipn_post).
  split; [now rewrite Hz|]. split.
  { rewrite (@np_split_ok z n axis (length pre)).
    - rewrite Hdimz, Nat.mul_comm, Nat.div_mul by assumption. reflexivity.
    - now rewrite Hndim.
    - assumption.
    - rewrite Hdimz, Nat.mul_comm. apply Nat.Div0.mod_mul. }
  cbn [data]. fold L.
  pose (t0 := z).
  rewrite (flat_map_ext_in _
             (fun o => flat_map (fun j => slice (o * L) L (data (nth j ts t0)))
                                (seq 0 n))).
  2:{ intros o _. exact (flat_map_nth_seq _ ts t0). }

  rewrite (@dot_rows (prod pre) n L (fun j => data (nth j ts t0)) (data z)).
  - unfold inner, zs. fold n. rewrite (combine_map_seq ts t0). rewrite map_map.
    apply sumZ_map_ext. intros j Hj. cbn [fst snd]. f_equal.
    unfold section_of. cbn [data]. rewrite Hprez, Hpostz, Hdimz. fold L.
    unfold take_rows. apply flat_map_ext_in. intros o _. f_equal.
    unfold L. lia.
  - rewrite Hwz, Hz, prod_app, prod_cons. unfold L. lia.
  - intros j Hj. rewrite (Hwf (nth j ts t0)) by (apply nth_In; exact Hj).
    rewrite (Hsh (nth j ts t0)) by (apply nth_In; exact Hj).
    rewrite prod_app, prod_cons. reflexivity.
Qed.

(** ** SplitForOutput: gradient *)

Lemma inner_cons (x y : tensor) (xs ys : list tensor) :
  inner (x :: xs) (y :: ys) = (dot (data x) (data y) + inner xs ys)%Z.
Proof. reflexivity. Qed.

Lemma inner_comm (xs ys : list tensor) : inner xs ys = inner ys xs.
Proof.
  revert ys. induction xs as [|x xs IH]; intros [|y ys]; try reflexivity.
  rewrite !inner_cons, IH, dot_comm. reflexivity.
Qed.

Lemma split_halves_map (h1 h2 : tensor -> tensor) (cts : list tensor) :
  Forall (fun c => np_split c 2 (-1) = Ok [h1 c; h2 c]) cts ->
  SplitForOutput.split_halves cts = Ok (map h1 cts, map h2 cts).
Proof.
  induction 1 as [|c cts Hc _ IH]; [reflexivity|].
  cbn [SplitForOutput.split_halves]. rewrite Hc. cbn [bind].
  rewrite IH. reflexivity.
Qed.

(** A cotangent of the shape of a joined pair, against the pair. *)
Lemma halves_adjoint (a b y c : tensor) (sh : list nat) :
  sh <> [] -> shape a = sh -> shape b = sh -> wf a -> wf b ->
  np_concatenate [a; b] (-1) = Ok y ->
  shape c = shape y -> wf c ->
  let ax := length (removelast sh) in
  let h1 := section_of c ax (last sh 0) 0 in
  let h2 := section_of c ax (last sh 0) 1 in
  np_split c 2 (-1) = Ok [h1; h2] /\
  shape h1 = sh /\ shape h2 = sh /\ wf h1 /\ wf h2 /\
  dot (data y) (data c)
  = (dot (data a) (data h1) + dot (data b) (data h2))%Z.
Proof.
  intros Hne Ha Hb Hwa Hwb Hy Hc Hwc ax h1 h2.
  destruct (exists_last Hne) as [pre [d E]].
  assert (Hpre : removelast sh = pre) by (rewrite E; apply removelast_last).
  assert (Hd : last sh 0 = d) by (rewrite E; apply last_last).
  assert (Hne2 : [a; b] <> []) by discriminate.
  assert (Hsh2 : forall t, In t [a; b] -> shape t = pre ++ [d])
    by (intros t [<-|[<-|[]]]; congruence).
  assert (Hwf2 : forall t, In t [a; b] -> wf t)
    by (intros t [<-|[<-|[]]]; assumption).
  pose proof (normalize_last pre d) as Hax2.
  pose proof (np_concatenate_same (-1) pre [] d Hne2 Hsh2 Hax2) as Hy2.
  rewrite Hy in Hy2. injection Hy2 as Hy2.
  assert (Hshc : shape c = pre ++ [2 * d]) by (rewrite Hc, Hy2; reflexivity).
  destruct (@concatenate_split_adjoint [a; b] c (-1) pre [] d
              Hne2 Hsh2 Hwf2 Hax2 Hshc Hwc)
    as (y' & Hy' & Hsy & Hsp & Hdot).
  - rewrite Hy in Hy'. injection Hy' as <-.
    unfold h1, h2, ax. rewrite Hpre, Hd.
    cbn [length seq map] in Hsp, Hdot.
    split; [exact Hsp|].
    assert (Hsec : forall j, shape (section_of c (length pre) d j) = sh).
    { intros j. unfold section_of. cbn [shape].
      rewrite Hshc, firstn_pre, skipn_post. now rewrite E. }
    assert (Hwsec : forall j, j < 2 -> wf (section_of c (length pre) d j)).
    { intros j Hj.
      assert (Hdim : dim (length pre) c = 2 * d)
        by (unfold dim; rewrite Hshc; apply nth_mid).
      replace d with (dim (length pre) c / 2) at 1
        by (rewrite Hdim, Nat.mul_comm; now apply Nat.div_mul).
      apply section_wf; try assumption; try lia.
      - unfold ndim. rewrite Hshc, length_app. cbn [length]. lia.
      - rewrite Hdim, Nat.mul_comm. apply Nat.Div0.mod_mul. }
    repeat split; try apply Hsec; try (apply Hwsec; lia).
    rewrite Hdot. unfold inner. cbn [combine map fst snd sumZ fold_right]. lia.
Qed.
(** The cotangents of the outputs against the outputs, half by half. *)
Lemma joined_adjoint (sh : list nat) (ps : list (tensor * tensor))
      (ys cts : list tensor) :
  sh <> [] ->
  Forall2 (joined sh) ps ys ->
  Forall2 (fun y c => shape c = shape y /\ wf c) ys cts ->
  let h1 := fun c => section_of c (length (removelast sh)) (last sh 0) 0 in
  let h2 := fun c => section_of c (length (removelast sh)) (last sh 0) 1 in
  Forall (fun c => np_split c 2 (-1) = Ok [h1 c; h2 c]) cts /\
  Forall (fun c => (shape (h1 c) = sh /\ wf (h1 c)) /\
                   (shape (h2 c) = sh /\ wf (h2 c))) cts /\
  length cts = length ps /\
  inner ys cts
  = (inner (map fst ps) (map h1 cts) + inner (map snd ps) (map h2 cts))%Z.
Proof.
  intros Hne HF. revert cts.
  induction HF as [|p y ps ys Hj _ IH]; intros cts Hc h1 h2.
  - inversion Hc; subst. repeat split; constructor.
  - inversion Hc as [|y' c ys' cts' [Hsc Hwc] Hc']; subst.
    destruct Hj as [[Ha Hwa] [[Hb Hwb] [_ [Hy _]]]].
    destruct (@halves_adjoint (fst p) (snd p) y c sh Hne Ha Hb Hwa Hwb Hy Hsc Hwc)
      as (Hsp & Hs1 & Hs2 & Hw1 & Hw2 & Hdot).
    destruct (IH cts' Hc') as (IH1 & IH2 & IH3 & IH4).
    repeat split.
    + constructor; assumption.
    + constructor; [|assumption]. repeat split; assumption.
    + cbn [length]. now rewrite IH3.
    + cbn [map]. rewrite !inner_cons, IH4, Hdot. subst h1 h2. cbv beta. lia.
Qed.

Lemma inner_pair (a b c d : tensor) :
  inner [a; b] [c; d] = (dot (data a) (data c) + dot (data b) (data d))%Z.
Proof. unfold inner. cbn [combine map fst snd sumZ fold_right]. lia. Qed.

(** The sections of a well-formed tensor against tensors of their shape:
    the inner product with the concatenation. *)
Lemma sections_adjoint (x : tensor) (n : nat) (axis : Z) (ax : nat)
      (gs : list tensor) :
  wf x ->
  normalize_axis axis (ndim x) = Ok ax ->
  n <> 0 -> dim ax x mod n = 0 ->
  let sec := dim ax x / n in
  let sh := firstn ax (shape x) ++ sec :: skipn (S ax) (shape x) in
  length gs = n ->
  Forall (fun g => shape g = sh /\ wf g) gs ->
  exists g,
    np_concatenate gs axis = Ok g /\
    inner (map (section_of x ax sec) (seq 0 n)) gs = dot (data x) (data g).
Proof.
  intros Hwx Hax Hn Hm sec sh Hlen Hgs.
  assert (Hlt : ax < ndim x) by (eapply normalize_axis_lt; eassumption).
  set (pre := firstn ax (shape x)) in *.
  set (post := skipn (S ax) (shape x)) in *.
  assert (Hpre : length pre = ax) by (apply length_firstn_lt; assumption).
  assert (HN : dim ax x = n * sec) by (apply Nat.Div0.div_exact; assumption).
  assert (Hshx : shape x = pre ++ (length gs * sec) :: post).
  { rewrite Hlen, <- HN. apply shape_split. assumption. }
  rewrite Forall_forall in Hgs.
  destruct (@concatenate_split_adjoint gs x axis pre post sec)
    as (g & Hg & _ & _ & Hdot).
  - destruct gs; [|discriminate]. cbn [length] in Hlen. congruence.
  - intros t Ht. apply Hgs. assumption.
  - intros t Ht. apply Hgs. assumption.
  - rewrite Hpre. replace (length (pre ++ sec :: post)) with (ndim x); [assumption|].
    unfold ndim. rewrite Hshx, !length_app. reflexivity.
  - assumption.
  - assumption.
  - exists g. split; [assumption|].
    rewrite dot_comm, Hdot, Hpre, Hlen. apply inner_comm.
Qed.
(** C10: [reverse_and_grad] returns the inverse of the outputs, the inverse
    of the cotangents as the gradient of the inputs, and the empty tuple as
    the gradient of the weights; and the inverse of the cotangents is the
    gradient of the forward pass: for every input pair, the inner product of
    the outputs of the forward pass with the cotangents is the inner product
    of the inputs with the inverse of the cotangents. *)
Theorem C10_split_reverse_and_grad (self : SplitForOutput.t)
        (output ct : list tensor) :
  SplitForOutput.reverse_and_grad self output ct
  = (x <- SplitForOutput.reverse self output ;;
     x_ct <- SplitForOutput.reverse self ct ;;
     Ok (x, (x_ct, empty)))
  /\ tree_leaves empty = []
  /\ forall (x1 x2 : tensor) (ax : nat),
      wf x1 -> wf x2 -> shape x1 = shape x2 ->
      normalize_axis (SplitForOutput.axis self) (ndim x1) = Ok ax ->
      py_mod (dim ax x1) (SplitForOutput.n_sections self) = Ok 0 ->
      SplitForOutput.forward self [x1; x2] = Ok output ->
      Forall2 (fun y c => shape c = shape y /\ wf c) output ct ->
      exists x_ct,
        SplitForOutput.reverse self ct = Ok x_ct /\
        SplitForOutput.reverse_and_grad self output ct
        = Ok ([x1; x2], (x_ct, empty)) /\
        inner output ct = inner [x1; x2] x_ct.
Proof.
  split; [reflexivity|]. split; [reflexivity|].
  intros x1 x2 ax Hw1 Hw2 Hsh Hax Hmod Hf Hct.
  destruct (split_round_trip self Hw1 Hw2 Hsh Hax Hmod) as (ys & Hf' & Hrev & _).
  rewrite Hf in Hf'. injection Hf' as <-.
  destruct (forward_sections self Hw1 Hw2 Hsh Hax Hmod) as (ys & Hf' & HF).
  rewrite Hf in Hf'. injection Hf' as <-.
  pose proof Hmod as Hmod'. unfold py_mod in Hmod'.
  destruct (Nat.eqb_spec (SplitForOutput.n_sections self) 0) as [Hz|Hn];
    [discriminate|].
  injection Hmod' as Hmod'.
  set (n := SplitForOutput.n_sections self) in *.
  set (sec := dim ax x1 / n) in *.
  set (sh := firstn ax (shape x1) ++ sec :: skipn (S ax) (shape x1)) in *.
  assert (Hne : sh <> []) by (unfold sh; now destruct (firstn ax (shape x1))).
  assert (Hnd : ndim x2 = ndim x1) by (unfold ndim; now rewrite Hsh).
  assert (Hd : dim ax x2 = dim ax x1) by (unfold dim; now rewrite Hsh).
  destruct (joined_adjoint Hne HF Hct) as (Hsp & Hhs & Hlen & Hinner).
  rewrite length_combine, !length_map, length_seq, Nat.min_id in Hlen.
  rewrite map_fst_combine, map_snd_combine in Hinner
    by now rewrite !length_map.
  set (h1 := fun c => section_of c (length (removelast sh)) (last sh 0) 0) in *.
  set (h2 := fun c => section_of c (length (removelast sh)) (last sh 0) 1) in *.
  destruct (@sections_adjoint x1 n (SplitForOutput.axis self) ax (map h1 ct))
    as (g1 & Hg1 & Hd1); try assumption.
  { now rewrite length_map. }
  { apply Forall_map. eapply Forall_impl; [|exact Hhs]. intros c H. apply H. }
  destruct (@sections_adjoint x2 n (SplitForOutput.axis self) ax (map h2 ct))
    as (g2 & Hg2 & Hd2); rewrite ?Hnd, ?Hd; try assumption.
  { now rewrite length_map. }
  { apply Forall_map. rewrite <- Hsh. fold sec.
    eapply Forall_impl; [|exact Hhs]. intros c H. apply H. }
  rewrite Hd in Hd2. fold sec in Hd1, Hd2.
  assert (Hr : SplitForOutput.reverse self ct = Ok [g1; g2]).
  { unfold SplitForOutput.reverse. rewrite (split_halves_map h1 h2 Hsp).
    cbn [bind]. rewrite Hg1. cbn [bind]. rewrite Hg2. reflexivity. }
  exists [g1; g2]. split; [exact Hr|]. split.
  - unfold SplitForOutput.reverse_and_grad. rewrite Hrev, Hr. reflexivity.
  - rewrite Hinner, Hd1, Hd2, inner_pair. reflexivity.
Qed.

(** ** Results *)

Lemma bind_ok {A B : Type} (r : result A) (k : A -> result B) (b : B) :
  bind r k = Ok b -> exists a, r = Ok a /\ k a = Ok b.
Proof. destruct r as [a|e]; simpl; [eauto|discriminate]. Qed.

(** ** Arithmetic of tensors *)

Lemma same_shape_true (a b : tensor) : same_shape a b = true <-> shape a = shape b.
Proof.
  unfold same_shape.
  destruct (list_eq_dec Nat.eq_dec (shape a) (shape b)) as [E|N]; split; intros E';
    try assumption; try reflexivity; try discriminate; contradiction.
Qed.

Lemma same_shape_sym (a b : tensor) : same_shape a b = same_shape b a.
Proof.
  unfold same_shape.
  destruct (list_eq_dec Nat.eq_dec (shape a) (shape b)) as [E|N];
    destruct (list_eq_dec Nat.eq_dec (shape b) (shape a)) as [E'|N'];
    try reflexivity; congruence.
Qed.

Lemma zip_with_add_comm (a b : list Z) :
  zip_with Z.add a b = zip_with Z.add b a.
Proof.
  revert b. induction a as [|x a IH]; intros [|y b]; simpl; try reflexivity.
  now rewrite IH, Z.add_comm.
Qed.

Lemma tensor_add_comm (a b : tensor) : tensor_add a b = tensor_add b a.
Proof.
  unfold tensor_add. rewrite (same_shape_sym b a).
  destruct (same_shape a b) eqn:E; [|reflexivity].
  apply same_shape_true in E. now rewrite E, zip_with_add_comm.
Qed.

Lemma zip_with_add_sub (a b : list Z) :
  length a = length b ->
  zip_with Z.sub (zip_with Z.add a b) b = a.
Proof.
  revert b. induction a as [|x a IH]; intros [|y b] Hl; simpl in *;
    try discriminate; [reflexivity|].
  rewrite IH by lia. f_equal. lia.
Qed.

(** Subtracting what was added gives the first operand back. *)
Lemma tensor_add_sub (a b c : tensor) :
  wf a -> wf b -> tensor_add a b = Ok c -> tensor_sub c b = Ok a.
Proof.
  unfold tensor_add, tensor_sub, wf. intros Ha Hb.
  destruct (same_shape a b) eqn:E; [|discriminate].
  intros Hc. injection Hc as <-.
  unfold same_shape at 1. cbn [shape data].
  apply same_shape_true in E.
  destruct (list_eq_dec Nat.eq_dec (shape a) (shape b)) as [_|N]; [|contradiction].
  rewrite zip_with_add_sub by congruence.
  now destruct a.
Qed.

(** ** Weights without leaves *)

Lemma zeros_like_leafless (w : pytree) : tree_leaves w = [] -> zeros_like w = w.
Proof.
  revert w.
  fix IH 1. intros [t|ts]; cbn [tree_leaves zeros_like].
  - discriminate.
  - intros Hl. f_equal.
    induction ts as [|w ts IHts]; [reflexivity|].
    cbn [flat_map] in Hl. apply app_eq_nil in Hl. destruct Hl as [Hw Hts].
    cbn [map]. now rewrite (IH w Hw), (IHts Hts).
Qed.

Lemma leafless_tuple2 (a b : pytree) :
  tree_leaves (Tuple [a; b]) = [] -> tree_leaves a = [] /\ tree_leaves b = [].
Proof.
  cbn [tree_leaves flat_map]. rewrite app_nil_r.
  intros Hl. now apply app_eq_nil in Hl.
Qed.

(** ** Generators *)

Section Generators.

Context `{PRNG}.

Lemma split_rng_length (rng : option key) (n : nat) :
  length (split_rng rng n) = n.
Proof.
  destruct rng as [k|]; simpl.
  - now rewrite length_map, split_length.
  - apply repeat_length.
Qed.

Lemma split_rng_at (rng : option key) (n : nat) :
  split_rng rng n = map (rng_at rng n) (seq 0 n).
Proof.
  unfold rng_at. pose proof (split_rng_length rng n) as Hl.
  revert Hl. generalize (split_rng rng n). intros l Hl. subst n.
  symmetry. apply map_nth_seq.
Qed.

End Generators.

(** Evaluation of a combinator on weights and state of known structure:
    the split generators are replaced by the list of their entries. *)
Ltac run :=
  repeat (rewrite ?split_rng_at;
          unfold call;
          cbn -[rng_at tensor_add tensor_sub];
          repeat match goal with
                 | |- context [PosDef.Pos.to_nat ?p] =>
                     let v := eval vm_compute in (Pos.to_nat p) in
                     change (PosDef.Pos.to_nat p) with v
                 end).
Ltac run_in H :=
  repeat (rewrite ?split_rng_at in H;
          unfold call in H;
          cbn -[rng_at tensor_add tensor_sub] in H;
          repeat match type of H with
                 | context [PosDef.Pos.to_nat ?p] =>
                     let v := eval vm_compute in (Pos.to_nat p) in
                     change (PosDef.Pos.to_nat p) with v in H
                 end).

Lemma length_1 {A : Type} (l : list A) : length l = 1 -> exists a, l = [a].
Proof. destruct l as [|a [|b l]]; try discriminate; eauto. Qed.

Lemma length_3 {A : Type} (l : list A) :
  length l = 3 -> exists a b c, l = [a; b; c].
Proof. destruct l as [|a [|b [|c [|d l]]]]; try discriminate; eauto. Qed.

(** ** ReversibleHalfResidual *)

Import ReversibleHalfResidual.

Section HalfResidual.

Context `{PRNG}.

Lemma shape_preserving_single (f : Layer) :
  shape_preserving f -> single_output f.
Proof.
  intros Hp x w s rng ys s' E.
  destruct (Hp _ _ _ _ _ _ E) as [r [-> _]]. now exists r.
Qed.

(** The forward pass on weights and state of the structure of the layer. *)
Lemma forward_eq (f : Layer) (x1 x2 : tensor)
      (a b c d e w g h i sa sb sc sd se s sg sh si : pytree)
      (rng : option key) :
  n_in f = 1 -> n_out f = 1 -> single_output f ->
  forward (init f) [x1; x2]
          (tree_of a b c d e w g h i) (tree_of sa sb sc sd se s sg sh si) rng
  = '(rs, s') <- forward_with_state f [x2] w s (residual_rng rng) ;;
    match rs with
    | [r] => y1 <- tensor_add x1 r ;;
             Ok ([y1; x2], tree_of sa sb sc sd se s' sg sh si)
    | _ => Err ValueError
    end.
Proof.
  intros f_in f_out Hs. unfold single_output in Hs.
  destruct f as [nin nout ffwd fvjp]. cbn [n_in n_out forward_with_state] in *.
  subst nin nout.
  unfold forward, layer, init, tree_of, residual_rng. run.
  destruct (ffwd [x2] w s _) as [[rs s']|err] eqn:Ef; [|reflexivity].
  destruct (Hs _ _ _ _ _ _ Ef) as [r ->].
  run. rewrite (tensor_add_comm x1 r).
  destruct (tensor_add r x1) as [y1|err]; reflexivity.
Qed.

(** The inverse on weights and state of the structure of the layer. *)
Lemma reverse_eq (f : Layer) (y1 x2 : tensor)
      (a b c d e w g h i sa sb sc sd se s sg sh si n0 n1 : pytree)
      (ns : list pytree) (rng : option key) :
  n_in f = 1 -> n_out f = 1 -> single_output f ->
  reverse (init f) [y1; x2]
          (tree_of a b c d e w g h i) (tree_of sa sb sc sd se s sg sh si)
          (Tuple (n0 :: n1 :: ns)) rng
  = '(rs, _) <- forward_with_state f [x2] w s (residual_rng rng) ;;
    match rs with
    | [r] => x1 <- tensor_sub y1 r ;; Ok [x1; x2]
    | _ => Err ValueError
    end.
Proof.
  intros f_in f_out Hs. unfold single_output in Hs.
  destruct f as [nin nout ffwd fvjp]. cbn [n_in n_out forward_with_state] in *.
  subst nin nout.
  unfold reverse, n_layers, init, tree_of, residual_rng, call. run.
  destruct (ffwd [x2] w s _) as [[rs s']|err] eqn:Ef; [|reflexivity].
  destruct (Hs _ _ _ _ _ _ Ef) as [r ->].
  run.
  destruct (tensor_sub y1 r) as [x1|err]; reflexivity.
Qed.

(** The fused inverse and gradient on weights and state of the structure
    of the layer. *)
Lemma reverse_and_grad_eq (f : Layer) (y1 x2 k0 k1 : tensor)
      (a b c d e w g h i sa sb sc sd se s sg sh si ns : pytree)
      (rng : option key) :
  n_in f = 1 -> n_out f = 1 -> single_output f ->
  tree_leaves (Tuple [h; i]) = [] ->
  reverse_and_grad (init f) [y1; x2] [k0; k1]
          (tree_of a b c d e w g h i) (tree_of sa sb sc sd se s sg sh si)
          ns rng
  = '(rs, _) <- forward_with_state f [x2] w s (residual_rng rng) ;;
    match rs with
    | [r] =>
        x1 <- tensor_sub y1 r ;;
        '(x_ct, w_ct) <-
          vjp (compute_residual (init f)) [y1; x2]
              (Tuple [Tuple [a; b]; c; Tuple [d; e; w]; g])
              (Tuple [Tuple [sa; sb]; sc; Tuple [sd; se; s]; sg])
              (rng_at rng 2 0) [k0; k0; k1] ;;
        Ok ([x1; x2], (x_ct, Tuple [w_ct; Tuple [h; i]]))
    | _ => Err ValueError
    end.
Proof.
  intros f_in f_out Hs Hl. unfold single_output in Hs.
  destruct f as [nin nout ffwd fvjp]. cbn [n_in n_out forward_with_state] in *.
  subst nin nout.
  unfold reverse_and_grad, n_layers, tree_of, residual_rng, call.
  cbn [init n_preserve compute_residual subtract_top sublayers length].
  run.
  destruct (ffwd [x2] w s _) as [[rs s']|err] eqn:Ef; [|reflexivity].
  destruct (Hs _ _ _ _ _ _ Ef) as [r ->].
  run.
  destruct (tensor_sub y1 r) as [x1|err]; [|reflexivity].
  run. rewrite ?Ef. run.
  apply leafless_tuple2 in Hl. destruct Hl as [Hh Hi].
  rewrite Hh, Hi. run.
  match goal with
  | |- bind ?r _ = bind ?r _ => destruct r as [[x_ct w_ct]|err]
  end; reflexivity.
Qed.

(** The naive gradients on weights and state of the structure of the
    layer. *)
Lemma naive_grad_eq (f : Layer) (x1 x2 k0 k1 : tensor)
      (a b c d e w g h i sa sb sc sd se s sg sh si : pytree)
      (rng : option key) :
  n_in f = 1 -> n_out f = 1 -> single_output f ->
  naive_grad (init f) [x1; x2] [k0; k1]
          (tree_of a b c d e w g h i) (tree_of sa sb sc sd se s sg sh si) rng
  = '(rs, _) <- forward_with_state f [x2] w s (residual_rng rng) ;;
    match rs with
    | [r] =>
        y1 <- tensor_add x1 r ;;
        '(x_ct, w_ct) <-
          vjp (compute_residual (init f)) [x1; x2]
              (Tuple [Tuple [a; b]; c; Tuple [d; e; w]; g])
              (Tuple [Tuple [sa; sb]; sc; Tuple [sd; se; s]; sg])
              (rng_at rng 2 0) [k0; k0; k1] ;;
        Ok (x_ct, Tuple [w_ct; Tuple [zeros_like h; zeros_like i]])
    | _ => Err ValueError
    end.
Proof.
  intros f_in f_out Hs. unfold single_output in Hs.
  destruct f as [nin nout ffwd fvjp]. cbn [n_in n_out forward_with_state] in *.
  subst nin nout.
  unfold naive_grad, layer, tree_of, residual_rng.
  cbn [init n_preserve compute_residual subtract_top sublayers length].
  run.
  destruct (ffwd [x2] w s _) as [[rs s']|err] eqn:Ef; [|reflexivity].
  destruct (Hs _ _ _ _ _ _ Ef) as [r ->].
  run. rewrite (tensor_add_comm x1 r).
  destruct (tensor_add r x1) as [y1|err]; [|reflexivity].
  run.
  destruct (fvjp [x2] w s _ [k0]) as [[gs w_ct]|err]; [|reflexivity].
  destruct gs as [|g0 [|g1 gs]]; run; try reflexivity;
    destruct (tensor_add k1 g0) as [k|err]; run; rewrite ?app_nil_r;
    reflexivity.
Qed.

(** The gradient of [compute_residual] does not look at the stream that
    is updated. *)
Lemma compute_residual_vjp_indep (f : Layer) (x1 y1 x2 : tensor)
      (a b c d e w g sa sb sc sd se s sg : pytree) (r0 : option key)
      (c0 c1 c2 : tensor) :
  n_in f = 1 -> n_out f = 1 ->
  vjp (compute_residual (init f)) [y1; x2]
    (Tuple [Tuple [a; b]; c; Tuple [d; e; w]; g])
    (Tuple [Tuple [sa; sb]; sc; Tuple [sd; se; s]; sg]) r0 [c0; c1; c2]
  = vjp (compute_residual (init f)) [x1; x2]
    (Tuple [Tuple [a; b]; c; Tuple [d; e; w]; g])
    (Tuple [Tuple [sa; sb]; sc; Tuple [sd; se; s]; sg]) r0 [c0; c1; c2].
Proof.
  intros f_in f_out.
  destruct f as [nin nout ffwd fvjp]. cbn [n_in n_out] in f_in, f_out.
  subst nin nout.
  unfold init. cbn [compute_residual].
  run.
  destruct (ffwd [x2] w s (rng_at (rng_at r0 4 2) 3 2)) as [[rs s']|err];
    [|reflexivity].
  destruct rs as [|r rest]; [reflexivity|].
  run. reflexivity.
Qed.

(** C4: on weights and state of the structure of the layer, the forward
    pass on [(x1, x2)] applies the residual layers to [x2] alone, with
    their own weights, state and generator, and returns [(x1 + r, x2)] for
    their output [r]; the first stream reaches the addition only. *)
Theorem C4_forward_residual (f : Layer) (x1 x2 : tensor)
      (a b c d e w g h i sa sb sc sd se s sg sh si : pytree)
      (rng : option key) :
  n_in f = 1 -> n_out f = 1 -> single_output f ->
  forward (init f) [x1; x2]
          (tree_of a b c d e w g h i) (tree_of sa sb sc sd se s sg sh si) rng
  = '(rs, s') <- forward_with_state f [x2] w s (residual_rng rng) ;;
    match rs with
    | [r] => y1 <- tensor_add x1 r ;;
             Ok ([y1; x2], tree_of sa sb sc sd se s' sg sh si)
    | _ => Err ValueError
    end.
Proof. exact (@forward_eq f x1 x2 a b c d e w g h i sa sb sc sd se s sg sh si rng). Qed.

(** C1: for well-formed streams of one shape and a shape-preserving
    residual function that succeeds on [x2], the forward pass succeeds, and
    [reverse] with the same weights, state and generator, and the new state
    of the forward pass, returns [(x1, x2)]. *)
Theorem C1_reverse_forward (f : Layer) (x1 x2 : tensor)
      (a b c d e w g h i sa sb sc sd se s sg sh si : pytree)
      (rng : option key) (rs : stack) (s' : pytree) :
  n_in f = 1 -> n_out f = 1 -> shape_preserving f ->
  wf x1 -> wf x2 -> shape x1 = shape x2 ->
  forward_with_state f [x2] w s (residual_rng rng) = Ok (rs, s') ->
  exists y ns,
    forward (init f) [x1; x2] (tree_of a b c d e w g h i)
            (tree_of sa sb sc sd se s sg sh si) rng = Ok (y, ns) /\
    reverse (init f) y (tree_of a b c d e w g h i)
            (tree_of sa sb sc sd se s sg sh si) ns rng = Ok [x1; x2].
Proof.
  intros f_in f_out Hp Hw1 Hw2 Hsh Ef.
  pose proof (shape_preserving_single Hp) as Hs.
  destruct (Hp _ _ _ _ _ _ Ef) as [r [-> [Hr Hwr]]].
  assert (Hadd : exists y1, tensor_add x1 r = Ok y1).
  { unfold tensor_add. replace (same_shape x1 r) with true; [eauto|].
    symmetry. apply same_shape_true. congruence. }
  destruct Hadd as [y1 Hy1].
  exists [y1; x2], (tree_of sa sb sc sd se s' sg sh si). split.
  - rewrite forward_eq by assumption. rewrite Ef. cbn [bind]. now rewrite Hy1.
  - unfold tree_of at 3. rewrite reverse_eq by assumption.
    rewrite Ef. cbn [bind].
    rewrite (@tensor_add_sub x1 r y1) by auto. reflexivity.
Qed.

(** C2: after a forward pass from [(x1, x2)], on a cotangent of two
    tensors, [reverse_and_grad] reconstructs [(x1, x2)] as [reverse] does,
    and returns the gradients of the inputs and of the weights of the
    naive path, the reverse-mode differentiation of the whole forward pass
    at [(x1, x2)]; where the naive path raises, so does the fused one. *)
Theorem C2_reverse_and_grad_naive (f : Layer) (x1 x2 k0 k1 : tensor)
      (a b c d e w g h i sa sb sc sd se s sg sh si : pytree)
      (rng : option key) (y : stack) (ns : pytree) :
  n_in f = 1 -> n_out f = 1 -> shape_preserving f ->
  wf x1 -> wf x2 ->
  tree_leaves (Tuple [h; i]) = [] ->
  forward (init f) [x1; x2] (tree_of a b c d e w g h i)
          (tree_of sa sb sc sd se s sg sh si) rng = Ok (y, ns) ->
  reverse (init f) y (tree_of a b c d e w g h i)
          (tree_of sa sb sc sd se s sg sh si) ns rng = Ok [x1; x2] /\
  reverse_and_grad (init f) y [k0; k1] (tree_of a b c d e w g h i)
          (tree_of sa sb sc sd se s sg sh si) ns rng
  = (grads <- naive_grad (init f) [x1; x2] [k0; k1]
                (tree_of a b c d e w g h i)
                (tree_of sa sb sc sd se s sg sh si) rng ;;
     Ok ([x1; x2], grads)).
Proof.
  intros f_in f_out Hp Hw1 Hw2 Hl Hf.
  pose proof (shape_preserving_single Hp) as Hs.
  rewrite forward_eq in Hf by assumption.
  apply bind_ok in Hf. destruct Hf as [[rs s'] [Ef Hf]].
  destruct (Hp _ _ _ _ _ _ Ef) as [r [-> [Hr Hwr]]].
  apply bind_ok in Hf. destruct Hf as [y1 [Hy1 Hf]].
  injection Hf as <- <-.
  assert (Hsub : tensor_sub y1 r = Ok x1) by (apply tensor_add_sub; auto).
  split.
  - unfold tree_of at 3. rewrite reverse_eq by assumption.
    rewrite Ef. cbn [bind]. now rewrite Hsub.
  - rewrite reverse_and_grad_eq, naive_grad_eq by assumption.
    rewrite Ef. cbn [bind]. rewrite Hsub, Hy1. cbn [bind].
    rewrite (@compute_residual_vjp_indep f x1 y1 x2) by assumption.
    apply leafless_tuple2 in Hl. destruct Hl as [Hh Hi].
    rewrite !zeros_like_leafless by assumption.
    destruct (vjp _ _ _ _ _ _) as [[x_ct w_ct]|err]; reflexivity.
Qed.

End HalfResidual.

(** ** ReversibleAttentionHalfResidual *)

Module RAHR := ReversibleAttentionHalfResidual.
Module RHR := ReversibleHalfResidual.

Section AttentionHalfResidual.

Context `{PRNG}.

Lemma attention_forward_eq (pre : Layer) (att : AttentionLayer) (post : Layer)
      (x1 x2 : tensor)
      (wpre watt wpost spre satt spost : pytree) (rng : option key) :
  RAHR.fits pre att post ->
  RAHR.forward (RAHR.init pre att post) [x1; x2]
               (RAHR.tree_of wpre watt wpost) (RAHR.tree_of spre satt spost) rng
  = '(r, ss) <- RAHR.residual_chain pre att post x2 wpre watt wpost
                  spre satt spost (RAHR.sub_rngs rng) ;;
    y1 <- tensor_add x1 r ;;
    let '(spre', satt', spost') := ss in
    Ok ([y1; x2], RAHR.tree_of spre' satt' spost').
Proof.
  intros [[pre_in [pre_out [pre_returns _]]]
            [[att_in [att_out [att_returns _]]]
               [post_in [post_out [post_returns _]]]]].
  unfold RAHR.returns in *.
  destruct pre as [nin nout pfwd pvjp].
  destruct post as [nin' nout' qfwd qvjp].
  destruct att as [[nin'' nout'' afwd avjp] afab].
  cbn [n_in n_out forward_with_state attention_layer] in *.
  subst.
  unfold RAHR.forward, RAHR.layer, RAHR.init, RAHR.tree_of, RAHR.residual_chain,
    RAHR.sub_rngs, ApplyAttentionWrapper.init.
  cbn [RAHR.sublayers ApplyAttentionWrapper.layer attention_layer].
  run.
  destruct (pfwd [x2] wpre spre _) as [[qkv spre']|err] eqn:Ep; [|reflexivity].
  destruct (length_3 _ (pre_returns _ _ _ _ _ _ Ep)) as [q [k [v ->]]].
  run.
  destruct (afwd [q; k; v] watt satt _) as [[o satt']|err] eqn:Ea; [|reflexivity].
  destruct (length_1 _ (att_returns _ _ _ _ _ _ Ea)) as [o1 ->].
  run.
  destruct (qfwd [o1] wpost spost _) as [[rs spost']|err] eqn:Eq; [|reflexivity].
  destruct (length_1 _ (post_returns _ _ _ _ _ _ Eq)) as [r ->].
  run. rewrite (tensor_add_comm x1 r).
  destruct (tensor_add r x1) as [y1|err]; reflexivity.
Qed.

(** The forward pass of the naive composition. *)
Lemma naive_forward_eq (pre : Layer) (att : AttentionLayer) (post : Layer)
      (x1 x2 : tensor)
      (wpre watt wpost spre satt spost : pytree) (rng : option key) :
  RAHR.fits pre att post ->
  RHR.forward (RAHR.naive pre att post) [x1; x2]
               (RAHR.naive_tree_of wpre watt wpost)
               (RAHR.naive_tree_of spre satt spost) rng
  = '(r, ss) <- RAHR.residual_chain pre att post x2 wpre watt wpost
                  spre satt spost (RAHR.naive_sub_rngs rng) ;;
    y1 <- tensor_add x1 r ;;
    let '(spre', satt', spost') := ss in
    Ok ([y1; x2], RAHR.naive_tree_of spre' satt' spost').
Proof.
  intros [[pre_in [pre_out [pre_returns _]]]
            [[att_in [att_out [att_returns _]]]
               [post_in [post_out [post_returns _]]]]].
  unfold RAHR.returns in *.
  destruct pre as [nin nout pfwd pvjp].
  destruct post as [nin' nout' qfwd qvjp].
  destruct att as [[nin'' nout'' afwd avjp] afab].
  cbn [n_in n_out forward_with_state attention_layer] in *.
  subst.
  unfold RHR.forward, RHR.layer, RAHR.naive, RHR.init, RAHR.naive_tree_of,
    RHR.weights_of, RHR.tree_of, RAHR.residual_chain,
    RAHR.naive_sub_rngs, RHR.residual_rng.
  cbn [RHR.sublayers attention_layer].
  run.
  destruct (pfwd [x2] wpre spre _) as [[qkv spre']|err] eqn:Ep; [|reflexivity].
  destruct (length_3 _ (pre_returns _ _ _ _ _ _ Ep)) as [q [k [v ->]]].
  run.
  destruct (afwd [q; k; v] watt satt _) as [[o satt']|err] eqn:Ea; [|reflexivity].
  destruct (length_1 _ (att_returns _ _ _ _ _ _ Ea)) as [o1 ->].
  run.
  destruct (qfwd [o1] wpost spost _) as [[rs spost']|err] eqn:Eq; [|reflexivity].
  destruct (length_1 _ (post_returns _ _ _ _ _ _ Eq)) as [r ->].
  run. rewrite (tensor_add_comm x1 r).
  destruct (tensor_add r x1) as [y1|err]; reflexivity.
Qed.

(** What the fused inverse and gradient of the naive composition returns,
    step by step. *)
Lemma naive_reverse_and_grad_inv
      (pre : Layer) (att : AttentionLayer) (post : Layer)
      (y1 x2 k0 k1 : tensor)
      (wpre watt wpost spre satt spost ns : pytree) (rng : option key)
      (x x_ct : stack) (w_ct : pytree) :
  RAHR.fits pre att post ->
  RHR.reverse_and_grad (RAHR.naive pre att post) [y1; x2] [k0; k1]
               (RAHR.naive_tree_of wpre watt wpost)
               (RAHR.naive_tree_of spre satt spost) ns rng
  = Ok (x, (x_ct, w_ct)) ->
  let '(r_pre, r_att, r_post) := RAHR.naive_sub_rngs rng in
  exists q k v o r x1 go gq gk gv gx kx spre' satt' spost' gpre gatt gpost,
    forward_with_state pre [x2] wpre spre r_pre = Ok ([q; k; v], spre') /\
    forward_with_state (attention_layer att) [q; k; v] watt satt r_att
    = Ok ([o], satt') /\
    forward_with_state post [o] wpost spost r_post = Ok ([r], spost') /\
    tensor_sub y1 r = Ok x1 /\
    vjp post [o] wpost spost r_post [k0] = Ok ([go], gpost) /\
    vjp (attention_layer att) [q; k; v] watt satt r_att [go]
    = Ok ([gq; gk; gv], gatt) /\
    vjp pre [x2] wpre spre r_pre [gq; gk; gv] = Ok ([gx], gpre) /\
    tensor_add k1 gx = Ok kx /\
    x = [x1; x2] /\ x_ct = [k0; kx] /\
    w_ct = RAHR.naive_tree_of gpre gatt gpost.
Proof.
  intros [[pre_in [pre_out [pre_returns pre_pulls]]]
            [[att_in [att_out [att_returns att_pulls]]]
               [post_in [post_out [post_returns post_pulls]]]]].
  unfold RAHR.returns, RAHR.pulls_back in *.
  destruct pre as [nin nout pfwd pvjp].
  destruct post as [nin' nout' qfwd qvjp].
  destruct att as [[nin'' nout'' afwd avjp] afab].
  cbn [n_in n_out forward_with_state vjp attention_layer] in *.
  subst.
  unfold RHR.reverse_and_grad, RHR.n_layers, RAHR.naive, RAHR.naive_tree_of,
    RHR.weights_of, RHR.tree_of, RAHR.naive_sub_rngs, RHR.residual_rng.
  cbn [RHR.init RHR.n_preserve RHR.compute_residual RHR.subtract_top
       RHR.sublayers length attention_layer].
  intros E. run_in E.
  destruct (pfwd [x2] wpre spre _) as [[qkv spre']|err] eqn:Ep; [|discriminate].
  destruct (length_3 _ (pre_returns _ _ _ _ _ _ Ep)) as [q [k [v ->]]].
  run_in E.
  destruct (afwd [q; k; v] watt satt _) as [[o satt']|err] eqn:Ea; [|discriminate].
  destruct (length_1 _ (att_returns _ _ _ _ _ _ Ea)) as [o1 ->].
  run_in E.
  destruct (qfwd [o1] wpost spost _) as [[rs spost']|err] eqn:Eq; [|discriminate].
  destruct (length_1 _ (post_returns _ _ _ _ _ _ Eq)) as [r ->].
  run_in E.
  destruct (tensor_sub y1 r) as [x1|err] eqn:Es; [|discriminate].
  run_in E.
  destruct (qvjp [o1] wpost spost _ [k0]) as [[gos gpost]|err] eqn:Eqv;
    [|discriminate].
  destruct (length_1 _ (post_pulls _ _ _ _ _ _ _ Eqv)) as [go ->].
  run_in E.
  destruct (avjp [q; k; v] watt satt _ [go]) as [[gqkv gatt]|err] eqn:Eav;
    [|discriminate].
  destruct (length_3 _ (att_pulls _ _ _ _ _ _ _ Eav)) as [gq [gk [gv ->]]].
  run_in E.
  destruct (pvjp [x2] wpre spre _ [gq; gk; gv]) as [[gxs gpre]|err] eqn:Epv;
    [|discriminate].
  destruct (length_1 _ (pre_pulls _ _ _ _ _ _ _ Epv)) as [gx ->].
  run_in E.
  destruct (tensor_add k1 gx) as [kx|err] eqn:Ek; [|discriminate].
  run_in E.
  injection E as <- <- <-.
  exists q, k, v, o1, r, x1, go, gq, gk, gv, gx, kx, spre', satt', spost',
    gpre, gatt, gpost.
  repeat split; assumption.
Qed.

(** The fused inverse and gradient of the layer, from the steps of the
    naive path. *)
Lemma attention_reverse_and_grad_run
      (pre : Layer) (att : AttentionLayer) (post : Layer)
      (y1 x2 k0 k1 : tensor)
      (wpre watt wpost spre satt spost nspre nsatt nspost : pytree)
      (rng : option key)
      (q k v o r x1 go gq gk gv gx kx : tensor)
      (spre' satt' spost' gpre gatt gpost : pytree) :
  RAHR.fits pre att post ->
  RAHR.fused att ->
  RAHR.linear_in_input post ->
  RAHR.output_like_value (attention_layer att) ->
  tree_leaves watt = [] ->
  let '(r_pre, r_att, r_post) := RAHR.sub_rngs rng in
  forward_with_state pre [x2] wpre spre r_pre = Ok ([q; k; v], spre') ->
  forward_with_state (attention_layer att) [q; k; v] watt satt r_att
  = Ok ([o], satt') ->
  forward_with_state post [o] wpost spost r_post = Ok ([r], spost') ->
  tensor_sub y1 r = Ok x1 ->
  vjp post [o] wpost spost r_post [k0] = Ok ([go], gpost) ->
  vjp (attention_layer att) [q; k; v] watt satt r_att [go]
  = Ok ([gq; gk; gv], gatt) ->
  vjp pre [x2] wpre spre r_pre [gq; gk; gv] = Ok ([gx], gpre) ->
  tensor_add k1 gx = Ok kx ->
  RAHR.reverse_and_grad (RAHR.init pre att post) [y1; x2] [k0; k1]
    (RAHR.tree_of wpre watt wpost) (RAHR.tree_of spre satt spost)
    (RAHR.tree_of nspre nsatt nspost) rng
  = Ok ([x1; x2], ([k0; kx], RAHR.tree_of gpre watt gpost)).
Proof.
  intros [[pre_in [pre_out [pre_returns pre_pulls]]]
            [[att_in [att_out [att_returns att_pulls]]]
               [post_in [post_out [post_returns post_pulls]]]]]
         Hfused Hlin Hval Hleaf.
  unfold RAHR.returns, RAHR.pulls_back, RAHR.fused, RAHR.linear_in_input,
    RAHR.output_like_value in *.
  destruct pre as [nin nout pfwd pvjp].
  destruct post as [nin' nout' qfwd qvjp].
  destruct att as [[nin'' nout'' afwd avjp] afab].
  cbn [n_in n_out forward_with_state vjp attention_layer
       attention_forward_and_backward] in *.
  subst.
  unfold RAHR.sub_rngs.
  intros Ep Ea Eq Es Eqv Eav Epv Ek.
  pose proof (Hval _ _ _ _ _ _ _ _ Ea) as Hov.
  destruct (Hlin o v _ _ _ _ _ Hov Eq) as [[ys' [s'' Eqd]] Hg].
  destruct (Hg _ _ _ Eqv) as [w_ct' Eqvd].
  destruct (Hfused _ _ _ _ _ nsatt _ _ _ _ Hleaf Ea Eav) as [Efab ->].
  unfold RAHR.reverse_and_grad, RAHR.n_layers, RAHR.tree_of,
    ApplyAttentionWrapper.forward_and_backward, RAHR.last_three.
  cbn [RAHR.init RAHR.pre_attention RAHR.post_attention RAHR.attention
       RAHR.subtract_top RAHR.sublayers length ApplyAttentionWrapper.init
       ApplyAttentionWrapper.attention ApplyAttentionWrapper.n_layers
       ApplyAttentionWrapper.layer attention_layer
       attention_forward_and_backward].
  run. rewrite Ep. run. rewrite Eqd. run. rewrite Eqvd. run.
  replace (match rng_at rng 4 1 with
           | Some _ => Ok (rng_at (rng_at rng 4 1) 3 0)
           | None => Ok None
           end) with (Ok (rng_at (rng_at rng 4 1) 3 0))
    by (destruct (rng_at rng 4 1); reflexivity).
  run. rewrite Efab. run. rewrite Hleaf. run.
  rewrite Epv. run. rewrite (tensor_add_comm gx k1), Ek. run.
  rewrite Eq. run. rewrite Eqv. run. rewrite Es. run.
  reflexivity.
Qed.
End AttentionHalfResidual.
Section AttentionTheorem.

Context `{PRNG}.

Lemma rng_at_none (n i : nat) : rng_at None n i = None.
Proof.
  unfold rng_at. cbn [split_rng].
  destruct (Nat.lt_ge_cases i n) as [Hi|Hi].
  - apply nth_repeat_lt. assumption.
  - apply nth_overflow. now rewrite repeat_length.
Qed.

(** Forward pass and gradients of the layer against the naive
    composition, for given layers. *)
Lemma attention_equivalence
      (pre : Layer) (att : AttentionLayer) (post : Layer)
      (x1 x2 k0 k1 : tensor)
      (wpre watt wpost spre satt spost : pytree) (rng : option key) :
  RAHR.fits pre att post ->
  RAHR.same_generators pre att post rng ->
  outputs (RAHR.forward (RAHR.init pre att post) [x1; x2]
             (RAHR.tree_of wpre watt wpost) (RAHR.tree_of spre satt spost) rng)
  = outputs (RHR.forward (RAHR.naive pre att post) [x1; x2]
               (RAHR.naive_tree_of wpre watt wpost)
               (RAHR.naive_tree_of spre satt spost) rng)
  /\
  (RAHR.fused att -> RAHR.linear_in_input post ->
   RAHR.output_like_value (attention_layer att) ->
   tree_leaves watt = [] ->
   forall (y1 : tensor) (ns nspre nsatt nspost : pytree)
          (x x_ct : stack) (w_ct : pytree),
     RHR.reverse_and_grad (RAHR.naive pre att post) [y1; x2] [k0; k1]
       (RAHR.naive_tree_of wpre watt wpost)
       (RAHR.naive_tree_of spre satt spost) ns rng
     = Ok (x, (x_ct, w_ct)) ->
     exists gpre gpost,
       w_ct = RAHR.naive_tree_of gpre watt gpost /\
       RAHR.reverse_and_grad (RAHR.init pre att post) [y1; x2] [k0; k1]
         (RAHR.tree_of wpre watt wpost) (RAHR.tree_of spre satt spost)
         (RAHR.tree_of nspre nsatt nspost) rng
       = Ok (x, (x_ct, RAHR.tree_of gpre watt gpost))).
Proof.
  intros Hfits Hrng. split.
  - rewrite attention_forward_eq, naive_forward_eq by assumption.
    unfold RAHR.same_generators, RAHR.residual_chain in *.
    destruct (RAHR.sub_rngs rng) as [[a_pre a_att] a_post].
    destruct (RAHR.naive_sub_rngs rng) as [[b_pre b_att] b_post].
    destruct Hrng as (Hp & Ha & Hq).
    rewrite (proj1 (Hp [x2] wpre spre)).
    destruct (forward_with_state pre [x2] wpre spre b_pre)
      as [[qkv spre']|err]; [|reflexivity].
    cbn [bind]. rewrite (proj1 (Ha qkv watt satt)).
    destruct (forward_with_state (attention_layer att) qkv watt satt b_att)
      as [[o satt']|err]; [|reflexivity].
    cbn [bind]. rewrite (proj1 (Hq o wpost spost)).
    destruct (forward_with_state post o wpost spost b_post)
      as [[rs spost']|err]; [|reflexivity].
    cbn [bind]. destruct rs as [|r [|r' rs]]; try reflexivity.
    cbn [bind]. unfold outputs.
    destruct (tensor_add x1 r) as [y1|err]; reflexivity.
  - intros Hfused Hlin Hval Hleaf y1 ns nspre nsatt nspost x x_ct w_ct E.
    pose proof (@naive_reverse_and_grad_inv _ pre att post y1 x2 k0 k1 wpre watt
                  wpost spre satt spost ns rng x x_ct w_ct Hfits E) as Hinv.
    pose proof (fun q k v o r x1 go gq gk gv gx kx spre' satt' spost'
                    gpre gatt gpost =>
                  @attention_reverse_and_grad_run _ pre att post y1 x2 k0 k1
                    wpre watt wpost spre satt spost nspre nsatt nspost rng
                    q k v o r x1 go gq gk gv gx kx spre' satt' spost'
                    gpre gatt gpost Hfits Hfused Hlin Hval Hleaf)
      as Hrun.
    unfold RAHR.same_generators in Hrng.
    destruct (RAHR.sub_rngs rng) as [[a_pre a_att] a_post].
    destruct (RAHR.naive_sub_rngs rng) as [[b_pre b_att] b_post].
    destruct Hrng as (Hp & Ha & Hq).
    destruct Hinv as
        (q & k & v & o & r & x1' & go & gq & gk & gv & gx & kx & spre' &
         satt' & spost' & gpre & gatt & gpost &
         Ep & Ea & Eq & Es & Eqv & Eav & Epv & Ek & -> & -> & ->).
    rewrite <- (proj1 (Hp _ _ _)) in Ep.
    rewrite <- (proj1 (Ha _ _ _)) in Ea.
    rewrite <- (proj1 (Hq _ _ _)) in Eq.
    rewrite <- (proj2 (Hq _ _ _)) in Eqv.
    rewrite <- (proj2 (Ha _ _ _)) in Eav.
    rewrite <- (proj2 (Hp _ _ _)) in Epv.
    assert (Hg : gatt = watt).
    { exact (proj2 (Hfused _ go _ _ _ satt _ _ _ _ Hleaf Ea Eav)). }
    subst gatt.
    exists gpre, gpost. split; [reflexivity|].
    eapply Hrun; eassumption.
Qed.

(** Without a generator, every layer receives none. *)
Lemma same_generators_none (pre : Layer) (att : AttentionLayer) (post : Layer) :
  RAHR.same_generators pre att post None.
Proof.
  unfold RAHR.same_generators, RAHR.sub_rngs, RAHR.naive_sub_rngs,
    RHR.residual_rng.
  rewrite !rng_at_none. repeat split.
Qed.

End AttentionTheorem.
(** *** The example layers *)

Section ExampleLayers.

Context `{PRNG}.

Lemma scale_forward_inv (x : stack) (w s : pytree) (rng : option key)
      (ys : stack) (s' : pytree) :
  forward_with_state scale x w s rng = Ok (ys, s') ->
  exists a k, x = [a] /\ w = Leaf (scalar k) /\ ys = [tensor_scale k a].
Proof.
  cbn [scale forward_with_state].
  destruct x as [|a [|b x]]; try discriminate.
  destruct w as [[sh d]|ts]; [|discriminate].
  destruct sh as [|n sh]; [|discriminate].
  destruct d as [|k [|k' d]]; try discriminate.
  intros E. injection E as <- <-. now exists a, k.
Qed.

Lemma scale_shape_preserving : RHR.shape_preserving scale.
Proof.
  intros x w s rng ys s' E.
  destruct (scale_forward_inv _ _ _ _ E) as [a [k [Ha [_ ->]]]].
  injection Ha as <-.
  exists (tensor_scale k x). split; [reflexivity|]. split; [reflexivity|].
  unfold wf, tensor_scale. cbn [shape data]. now rewrite length_map.
Qed.

Lemma scale_returns : RAHR.returns scale 1.
Proof.
  intros x w s rng ys s' E.
  destruct (scale_forward_inv _ _ _ _ E) as [a [k [_ [_ ->]]]]. reflexivity.
Qed.

Lemma scale_pulls_back : RAHR.pulls_back scale 1.
Proof.
  intros x w s rng ct x_ct w_ct. cbn [scale vjp].
  destruct x as [|a [|b x]]; try discriminate.
  destruct w as [[sh d]|ts]; [|discriminate].
  destruct sh as [|n sh]; [|discriminate].
  destruct d as [|k [|k' d]]; try discriminate.
  destruct ct as [|c [|c' ct]]; try discriminate.
  intros E. injection E as <- <-. reflexivity.
Qed.

Lemma scale_linear : RAHR.linear_in_input scale.
Proof.
  intros x x' w s rng ys s' _ E.
  destruct (scale_forward_inv _ _ _ _ E) as [a [k [Ha [-> ->]]]].
  injection Ha as <-. split.
  - eexists _, _. reflexivity.
  - intros ct g w_ct. cbn [scale vjp scalar].
    destruct ct as [|c [|c' ct]]; try discriminate.
    intros Ev. injection Ev as <- <-. eexists. reflexivity.
Qed.

Lemma pure_returns (nin nout : nat) (f : stack -> result stack)
      (b : stack -> stack -> result stack) :
  (forall x y, f x = Ok y -> length y = nout) ->
  RAHR.returns (pure_layer nin nout f b) nout.
Proof.
  intros Hf x w s rng ys s'. cbn [pure_layer forward_with_state].
  intros E. apply bind_ok in E. destruct E as [y [Ey E]].
  injection E as <- <-. eauto.
Qed.

Lemma pure_pulls_back (nin nout : nat) (f : stack -> result stack)
      (b : stack -> stack -> result stack) :
  (forall x ct g, b x ct = Ok g -> length g = nin) ->
  RAHR.pulls_back (pure_layer nin nout f b) nin.
Proof.
  intros Hb x w s rng ct x_ct w_ct. cbn [pure_layer vjp].
  intros E. apply bind_ok in E. destruct E as [g [Eg E]].
  injection E as <- <-. eauto.
Qed.

Lemma triple_fits_pre :
  n_in triple = 1 /\ n_out triple = 3 /\
  RAHR.returns triple 3 /\ RAHR.pulls_back triple 1.
Proof.
  repeat split.
  - apply pure_returns. intros [|a [|b x]] y E; try discriminate.
    now injection E as <-.
  - apply pure_pulls_back. intros x [|c1 [|c2 [|c3 [|c4 ct]]]] g E;
      try discriminate.
    destruct (tensor_add c1 c2) as [c12|]; [|discriminate]. cbn [bind] in E.
    destruct (tensor_add c12 c3) as [c|]; [|discriminate].
    now injection E as <-.
Qed.

Lemma double_value_fits :
  n_in (attention_layer double_value) = 3 /\
  n_out (attention_layer double_value) = 1 /\
  RAHR.returns (attention_layer double_value) 1 /\
  RAHR.pulls_back (attention_layer double_value) 3.
Proof.
  repeat split.
  - apply pure_returns. intros [|q [|k [|v [|z x]]]] y E; try discriminate.
    now injection E as <-.
  - apply pure_pulls_back.
    intros [|q [|k [|v [|z x]]]] [|c [|c' ct]] g E; try discriminate.
    now injection E as <-.
Qed.

Lemma double_value_fused : RAHR.fused double_value.
Proof.
  intros qkv out_ct rng w s ns out s' qkv_ct w_ct Hl.
  cbn [double_value attention_layer attention_forward_and_backward
       pure_layer forward_with_state vjp].
  destruct qkv as [|q [|k [|v [|z x]]]]; try discriminate.
  cbn [bind]. intros E Ev. injection E as <- <-. injection Ev as <- <-.
  split; [reflexivity|]. now apply zeros_like_leafless.
Qed.

Lemma double_value_output : RAHR.output_like_value (attention_layer double_value).
Proof.
  intros q k v w s rng out s'.
  cbn [double_value attention_layer pure_layer forward_with_state bind].
  intros E. now injection E as <-.
Qed.

Lemma example_fits : RAHR.fits triple double_value scale.
Proof.
  split; [exact triple_fits_pre|]. split; [exact double_value_fits|].
  repeat split; [exact scale_returns|exact scale_pulls_back].
Qed.

Lemma square_fits : RAHR.fits triple double_value square.
Proof.
  split; [exact triple_fits_pre|]. split; [exact double_value_fits|].
  repeat split.
  - apply pure_returns. intros [|a [|b x]] y E; try discriminate.
    now injection E as <-.
  - apply pure_pulls_back. intros [|a [|b x]] [|c [|c' ct]] g E;
      try discriminate.
    now injection E as <-.
Qed.

(** The example layers draw no random numbers: they behave alike under any
    generators. *)
Lemma example_same_generators (rng : option key) :
  RAHR.same_generators triple double_value scale rng.
Proof.
  unfold RAHR.same_generators.
  destruct (RAHR.sub_rngs rng) as [[a_pre a_att] a_post].
  destruct (RAHR.naive_sub_rngs rng) as [[b_pre b_att] b_post].
  repeat split.
Qed.

End ExampleLayers.
Section AttentionClaim.

Context `{PRNG}.

(** C3: for pre-attention, attention and post-attention layers that fit
    together and behave in the naive composition as in the layer under the
    generators they receive (layers that draw no random numbers do), the
    forward pass of [ReversibleAttentionHalfResidual] returns the outputs of
    [ReversibleHalfResidual([pre_attention, attention, post_attention])];
    when post-attention is linear in its input (and the attention has a
    fused operation, no weights and outputs of the shape of the values),
    [reverse_and_grad] returns the reconstructed input and the gradients
    that the naive composition returns; and with a post-attention that is
    not linear, [square], the two gradients differ. *)
Theorem C3_attention_half_residual
      (pre : Layer) (att : AttentionLayer) (post : Layer)
      (x1 x2 k0 k1 : tensor)
      (wpre watt wpost spre satt spost : pytree) (rng : option key) :
  RAHR.fits pre att post ->
  RAHR.same_generators pre att post rng ->
  outputs (RAHR.forward (RAHR.init pre att post) [x1; x2]
             (RAHR.tree_of wpre watt wpost) (RAHR.tree_of spre satt spost) rng)
  = outputs (RHR.forward (RAHR.naive pre att post) [x1; x2]
               (RAHR.naive_tree_of wpre watt wpost)
               (RAHR.naive_tree_of spre satt spost) rng)
  /\
  (RAHR.fused att -> RAHR.linear_in_input post ->
   RAHR.output_like_value (attention_layer att) ->
   tree_leaves watt = [] ->
   forall (y1 : tensor) (ns nspre nsatt nspost : pytree)
          (x x_ct : stack) (w_ct : pytree),
     RHR.reverse_and_grad (RAHR.naive pre att post) [y1; x2] [k0; k1]
       (RAHR.naive_tree_of wpre watt wpost)
       (RAHR.naive_tree_of spre satt spost) ns rng
     = Ok (x, (x_ct, w_ct)) ->
     exists gpre gpost,
       w_ct = RAHR.naive_tree_of gpre watt gpost /\
       RAHR.reverse_and_grad (RAHR.init pre att post) [y1; x2] [k0; k1]
         (RAHR.tree_of wpre watt wpost) (RAHR.tree_of spre satt spost)
         (RAHR.tree_of nspre nsatt nspost) rng
       = Ok (x, (x_ct, RAHR.tree_of gpre watt gpost)))
  /\
  (RAHR.fits triple double_value square /\
   RAHR.fused double_value /\
   RAHR.output_like_value (attention_layer double_value) /\
   ~ RAHR.linear_in_input square /\
   exists x_ct x_ct' w_ct w_ct',
     RHR.reverse_and_grad (RAHR.naive triple double_value square)
       [vec 110; vec 5] [vec 1; vec 100]
       (RAHR.naive_tree_of empty empty empty)
       (RAHR.naive_tree_of empty empty empty)
       (RAHR.naive_tree_of empty empty empty) None
     = Ok ([vec 10; vec 5], (x_ct, w_ct)) /\
     RAHR.reverse_and_grad (RAHR.init triple double_value square)
       [vec 110; vec 5] [vec 1; vec 100]
       (RAHR.tree_of empty empty empty) (RAHR.tree_of empty empty empty)
       (RAHR.tree_of empty empty empty) None
     = Ok ([vec 10; vec 5], (x_ct', w_ct')) /\
     x_ct <> x_ct').
Proof.
  intros Hfits Hrng.
  destruct (@attention_equivalence _ pre att post x1 x2 k0 k1
              wpre watt wpost spre satt spost rng Hfits Hrng) as [Hf Hg].
  split; [exact Hf|]. split; [exact Hg|].
  assert (Hdiff :
    exists x_ct x_ct' w_ct w_ct',
     RHR.reverse_and_grad (RAHR.naive triple double_value square)
       [vec 110; vec 5] [vec 1; vec 100]
       (RAHR.naive_tree_of empty empty empty)
       (RAHR.naive_tree_of empty empty empty)
       (RAHR.naive_tree_of empty empty empty) None
     = Ok ([vec 10; vec 5], (x_ct, w_ct)) /\
     RAHR.reverse_and_grad (RAHR.init triple double_value square)
       [vec 110; vec 5] [vec 1; vec 100]
       (RAHR.tree_of empty empty empty) (RAHR.tree_of empty empty empty)
       (RAHR.tree_of empty empty empty) None
     = Ok ([vec 10; vec 5], (x_ct', w_ct')) /\
     x_ct <> x_ct').
  { exists [vec 1; vec 140], [vec 1; vec 120].
    eexists. eexists.
    split; [reflexivity|]. split; [reflexivity|]. discriminate. }
  split; [exact square_fits|]. split; [exact double_value_fused|].
  split; [exact double_value_output|]. split; [|exact Hdiff].
  intros Hlin.
  destruct Hdiff as (x_ct & x_ct' & w_ct & w_ct' & Eb & Ea & Hne).
  destruct (@attention_equivalence _ triple double_value square
              (vec 10) (vec 5) (vec 1) (vec 100)
              empty empty empty empty empty empty None square_fits
              (same_generators_none _ _ _))
    as [_ Hg'].
  destruct (Hg' double_value_fused Hlin double_value_output eq_refl
                (vec 110) _ empty empty empty _ _ _ Eb)
    as (gpre & gpost & _ & Ea').
  unfold RAHR.tree_of at 3 in Ea'. fold (RAHR.tree_of empty empty empty) in Ea'.
  rewrite Ea in Ea'. injection Ea' as E1 E2. congruence.
Qed.

End AttentionClaim.

(** *** The layer that draws on its generator *)

Lemma keyed_scale_fits : RAHR.fits triple double_value keyed_scale.
Proof.
  split; [exact triple_fits_pre|]. split; [exact double_value_fits|].
  repeat split.
  - intros x w s rng ys s'. cbn [keyed_scale forward_with_state].
    destruct x as [|a [|b x]]; try discriminate.
    intros E. now injection E as <- _.
  - intros x w s rng ct x_ct w_ct. cbn [keyed_scale vjp].
    destruct x as [|a [|b x]]; try discriminate.
    destruct ct as [|c [|c' ct]]; try discriminate.
    intros E. now injection E as <- _.
Qed.

Lemma keyed_scale_linear : RAHR.linear_in_input keyed_scale.
Proof.
  intros x x' w s rng ys s' _ E. split.
  - eexists _, _. reflexivity.
  - intros ct g w_ct. cbn [keyed_scale vjp].
    destruct ct as [|c [|c' ct]]; try discriminate.
    intros Ev. injection Ev as <- <-. eexists. reflexivity.
Qed.

(** C3, as the spec has it, fails twice.  With a post-attention that is
    linear in its input and draws on its generator, the two layers hand it
    different generators and their forward passes differ.  With an
    attention that has a weight, the naive composition returns the input and
    the gradients and the fused [reverse_and_grad] raises. *)
Lemma C3_equivalence_counterexample :
  (RAHR.fits triple double_value keyed_scale /\
   RAHR.linear_in_input keyed_scale /\
   RAHR.fused double_value /\
   outputs (RAHR.forward (RAHR.init triple double_value keyed_scale)
              [vec 10; vec 5] (RAHR.tree_of empty empty empty)
              (RAHR.tree_of empty empty empty) (Some []))
   = Ok [vec 40; vec 5] /\
   outputs (RHR.forward (RAHR.naive triple double_value keyed_scale)
              [vec 10; vec 5] (RAHR.naive_tree_of empty empty empty)
              (RAHR.naive_tree_of empty empty empty) (Some []))
   = Ok [vec 60; vec 5]) /\
  (RAHR.fits triple double_value (@scale path_prng) /\
   RAHR.linear_in_input (@scale path_prng) /\
   RAHR.fused (@double_value path_prng) /\
   RHR.reverse_and_grad (RAHR.naive triple double_value scale)
     [vec 40; vec 5] [vec 1; vec 100]
     (RAHR.naive_tree_of empty (Leaf (scalar 1)) (Leaf (scalar 3)))
     (RAHR.naive_tree_of empty empty empty)
     (RAHR.naive_tree_of empty empty empty) None
   = Ok ([vec 10; vec 5],
         ([vec 1; vec 106],
          RAHR.naive_tree_of empty (Leaf (scalar 0)) (Leaf (scalar 10)))) /\
   RAHR.reverse_and_grad (RAHR.init triple double_value scale)
     [vec 40; vec 5] [vec 1; vec 100]
     (RAHR.tree_of empty (Leaf (scalar 1)) (Leaf (scalar 3)))
     (RAHR.tree_of empty empty empty)
     (RAHR.tree_of empty empty empty) None
   = Err AssertionError).
Proof.
  split.
  - split; [exact keyed_scale_fits|]. split; [exact keyed_scale_linear|].
    split; [exact double_value_fused|]. split; reflexivity.
  - split; [exact example_fits|]. split; [exact scale_linear|].
    split; [exact double_value_fused|]. split; reflexivity.
Qed.

(** ** Errors of ReversibleHalfResidual *)

Section HalfResidualErrors.

Context `{PRNG}.

(** [reverse] stops at the shortest of its sequences. *)
Lemma reverse_loop_short (layers : list Layer) (ws ss nss : list pytree)
      (rngs : list (option key)) (x : stack) :
  ws = [] \/ ss = [] \/ nss = [] ->
  reverse_loop layers ws ss nss rngs x = Ok x.
Proof.
  intros Hshort. destruct layers as [|l layers]; [reflexivity|].
  cbn [reverse_loop].
  destruct ws as [|w0 ws]; [reflexivity|].
  destruct ss as [|s0 ss]; [reflexivity|].
  destruct nss as [|n0 nss]; [reflexivity|].
  destruct Hshort as [E|[E|E]]; discriminate.
Qed.

(** [reverse] never looks beyond the shortest of its sequences: the
    entries after it are ignored, and that entries are missing is not
    noticed. *)
Lemma reverse_loop_firstn (layers : list Layer) (ws ss nss : list pytree)
      (rngs : list (option key)) (x : stack) :
  let m := Nat.min (length ws) (Nat.min (length ss) (length nss)) in
  reverse_loop layers ws ss nss rngs x
  = reverse_loop layers (firstn m ws) (firstn m ss) (firstn m nss) rngs x.
Proof.
  revert ws ss nss rngs x.
  induction layers as [|l layers IH]; intros ws ss nss rngs x;
    [reflexivity|].
  destruct ws as [|w0 ws]; [reflexivity|].
  destruct ss as [|s0 ss]; [reflexivity|].
  destruct nss as [|n0 nss]; [reflexivity|].
  cbn [length Nat.min firstn reverse_loop].
  destruct rngs as [|r rngs]; [reflexivity|].
  destruct (call l x w0 s0 r) as [y|e]; [|reflexivity].
  cbn [bind]. apply IH.
Qed.

(** C8, as the code has it: the alignment of the sequences with the
    sublayers is not checked.  [reverse] pairs its layers with the entries
    of weights, state and new state and stops at the shortest of them: with
    an empty one it returns its argument, entries beyond the shortest are
    never looked at, and nothing is raised for the mismatch;
    [reverse_and_grad] never reads the new state. *)
Theorem C8_alignment_unchecked (f : Layer) (rng : option key) :
  (forall output ws ss nss,
      ws = [] \/ ss = [] \/ nss = [] ->
      reverse (init f) output (Tuple ws) (Tuple ss) (Tuple nss) rng
      = Ok output) /\
  (forall output ws ss nss,
      let m := Nat.min (length ws) (Nat.min (length ss) (length nss)) in
      reverse (init f) output (Tuple ws) (Tuple ss) (Tuple nss) rng
      = reverse (init f) output (Tuple (firstn m ws)) (Tuple (firstn m ss))
                (Tuple (firstn m nss)) rng) /\
  (forall output ct weights state new_state new_state',
      reverse_and_grad (init f) output ct weights state new_state rng
      = reverse_and_grad (init f) output ct weights state new_state' rng).
Proof.
  split; [|split].
  - intros output ws ss nss Hshort. unfold reverse. cbn [as_tuple bind].
    now apply reverse_loop_short.
  - intros output ws ss nss m. unfold reverse. cbn [as_tuple bind].
    apply reverse_loop_firstn.
  - reflexivity.
Qed.

End HalfResidualErrors.

(** ** The reversible chain runner *)

Module Chain := ReversibleSerial.

Lemma run_backward_app (l1 l2 : list Chain.step) (y ct : list tensor) :
  Chain.run_backward (l1 ++ l2) y ct
  = '(x, ct', ps, rg) <- Chain.run_backward l1 y ct ;;
    '(x0, ct0, ps', rg') <- Chain.run_backward l2 x ct' ;;
    Ok (x0, ct0, ps ++ ps', rg ++ rg').
Proof.
  revert y ct. induction l1 as [|s l1 IH]; intros y ct; cbn [app Chain.run_backward].
  - cbn [bind]. destruct (Chain.run_backward l2 y ct) as [[[[x0 ct0] ps'] rg']|e];
      reflexivity.
  - destruct (Chain.reverse_and_grad s y ct (Chain.params s))
      as [[x [x_ct p_ct]]|e]; [|reflexivity].
    cbn [bind]. rewrite IH.
    destruct (Chain.run_backward l1 x x_ct) as [[[[x' ct'] ps] rg]|e];
      [|reflexivity].
    cbn [bind].
    destruct (Chain.run_backward l2 x' ct') as [[[[x0 ct0] ps'] rg']|e];
      reflexivity.
Qed.

Lemma last_cons_indep {A : Type} (l : list A) (a d d' : A) :
  last (a :: l) d = last (a :: l) d'.
Proof.
  revert a. induction l as [|b l IH]; intros a; [reflexivity|].
  change (last (a :: b :: l) d) with (last (b :: l) d).
  change (last (a :: b :: l) d') with (last (b :: l) d').
  apply IH.
Qed.

(** The forward pass holds one pair after every step. *)
Lemma run_forward_holds_one (steps : list Chain.step) :
  forall (x : list tensor) (ps : list pytree) (acts : list (list tensor)),
    Chain.activations steps x = Ok acts ->
    exists ms,
      Chain.run_forward steps (Chain.mkMemory [x] ps) = Ok ms /\
      length ms = length steps /\
      Forall (fun m => length (Chain.held m) = 1 /\ Chain.parameters m = ps) ms /\
      Chain.held (last ms (Chain.mkMemory [x] ps)) = [last acts x] /\
      length acts = S (length steps).
Proof.
  induction steps as [|s steps IH]; intros x ps acts Ha; cbn [Chain.activations] in Ha.
  - injection Ha as <-. exists []. repeat split. constructor.
  - apply bind_ok in Ha. destruct Ha as [y [Ey Ha]].
    apply bind_ok in Ha. destruct Ha as [ys [Eys Ha]]. injection Ha as <-.
    destruct (IH y ps ys Eys) as (ms & Em & Hl & Hall & Hlast & Hlen).
    exists (Chain.mkMemory [y] ps :: ms).
    cbn [Chain.run_forward Chain.held Chain.parameters]. rewrite Ey. cbn [bind].
    rewrite Em. cbn [bind length]. repeat split.
    + now rewrite Hl.
    + constructor; [now split|assumption].
    + destruct ms as [|m ms].
      * destruct steps; [|discriminate].
        cbn [Chain.activations] in Eys. injection Eys as <-. reflexivity.
      * destruct ys as [|y0 ys]; [discriminate|].
        change (last (Chain.mkMemory [y] ps :: m :: ms) (Chain.mkMemory [x] ps))
          with (last (m :: ms) (Chain.mkMemory [x] ps)).
        change (last (x :: y0 :: ys) x) with (last (y0 :: ys) x).
        rewrite (last_cons_indep ms m _ (Chain.mkMemory [y] ps)).
        rewrite Hlast. f_equal. apply last_cons_indep.
    + now rewrite Hlen.
Qed.

(** The backward pass regenerates the pairs between the steps, from the
    last to the first. *)
Lemma run_backward_regenerates (steps : list Chain.step) :
  Forall Chain.reversible steps ->
  forall (x : list tensor) (acts : list (list tensor)) (ct : list tensor),
    Chain.two_stream x -> Chain.two_stream ct ->
    Chain.activations steps x = Ok acts ->
    Chain.two_stream (last acts x) /\
    exists x_ct p_cts,
      Chain.run_backward (rev steps) (last acts x) ct
      = Ok (x, x_ct, p_cts, rev (removelast acts)) /\
      Chain.two_stream x_ct /\ length p_cts = length steps.
Proof.
  induction 1 as [|s steps Hs Hall IH]; intros x acts ct Hx Hct Ha;
    cbn [Chain.activations] in Ha.
  - injection Ha as <-. split; [exact Hx|]. exists ct, []. now repeat split.
  - apply bind_ok in Ha. destruct Ha as [y [Ey Ha]].
    apply bind_ok in Ha. destruct Ha as [ys [Eys Ha]]. injection Ha as <-.
    assert (Hys : exists y0 ys', ys = y0 :: ys').
    { destruct steps; cbn [Chain.activations] in Eys.
      - injection Eys as <-. eauto.
      - apply bind_ok in Eys. destruct Eys as [z [_ Eys]].
        apply bind_ok in Eys. destruct Eys as [zs [_ Eys]].
        injection Eys as <-. eauto. }
    destruct Hys as [y0 [ys' ->]].
    change (last (x :: y0 :: ys') x) with (last (y0 :: ys') x).
    rewrite (last_cons_indep ys' y0 x y).
    change (removelast (x :: y0 :: ys')) with (x :: removelast (y0 :: ys')).
    destruct (Hs x y ct Hx Hct Ey) as [Hy _].
    destruct (IH y (y0 :: ys') ct Hy Hct Eys)
      as (Hlast & y_ct & p_cts & Eb & Hyct & Hlen).
    split; [exact Hlast|].
    destruct (Hs x y y_ct Hx Hyct Ey) as [_ (x_ct & p_ct & Er & Hxct)].
    exists x_ct, (p_cts ++ [p_ct]).
    cbn [rev]. rewrite run_backward_app, Eb. cbn [bind Chain.run_backward].
    rewrite Er. cbn [bind]. repeat split.
    + assumption.
    + rewrite length_app, Hlen. cbn [length]. lia.
Qed.

(** C9: in a chain of K reversible steps run on a two-stream pair, the
    memory of the runner after every step of the forward pass holds one
    pair, whatever K is, and the K parameters; after the last step it is
    the final pair; and the backward pass from the final pair regenerates
    the pairs between the steps, last first, down to the input. *)
Theorem C9_chain_memory (steps : list Chain.step) (x ct : list tensor)
        (acts : list (list tensor)) :
  Forall Chain.reversible steps ->
  Chain.two_stream x -> Chain.two_stream ct ->
  Chain.activations steps x = Ok acts ->
  (exists ms,
      Chain.run_forward steps (Chain.start steps x) = Ok ms /\
      length ms = length steps /\
      Forall (fun m => length (Chain.held m) = 1 /\
                       length (Chain.parameters m) = length steps) ms /\
      Chain.held (last ms (Chain.start steps x)) = [last acts x]) /\
  (exists x_ct p_cts,
      Chain.run_backward (rev steps) (last acts x) ct
      = Ok (x, x_ct, p_cts, rev (removelast acts)) /\
      length p_cts = length steps).
Proof.
  intros Hall Hx Hct Ha. split.
  - destruct (@run_forward_holds_one steps x (map Chain.params steps) acts Ha)
      as (ms & Em & Hl & Hf & Hlast & _).
    exists ms. repeat split; try assumption.
    eapply Forall_impl; [|exact Hf].
    intros m [H1 H2]. split; [exact H1|]. now rewrite H2, length_map.
  - destruct (@run_backward_regenerates steps Hall x acts ct Hx Hct Ha)
      as (_ & x_ct & p_cts & Eb & _ & Hlen).
    now exists x_ct, p_cts.
Qed.

(** *** The example step *)

Lemma length_zip_with (f : Z -> Z -> Z) (a b : list Z) :
  length a = length b -> length (zip_with f a b) = length a.
Proof.
  revert b. induction a as [|x a IH]; intros [|y b] Hl; simpl in *;
    try discriminate; [reflexivity|].
  rewrite IH by lia. reflexivity.
Qed.

Lemma tensor_add_ok (a b : tensor) :
  shape a = shape b -> wf a -> wf b ->
  exists c, tensor_add a b = Ok c /\ shape c = shape a /\ wf c.
Proof.
  intros Hs Ha Hb. unfold tensor_add.
  replace (same_shape a b) with true by (symmetry; now apply same_shape_true).
  eexists. split; [reflexivity|]. split; [reflexivity|].
  unfold wf in *. cbn [shape data]. rewrite length_zip_with; congruence.
Qed.

Lemma tensor_scale_wf (k : Z) (a : tensor) : wf a -> wf (tensor_scale k a).
Proof. unfold wf, tensor_scale. cbn [shape data]. now rewrite length_map. Qed.

Lemma example_step_reversible : Chain.reversible example_step.
Proof.
  intros x y ct (x1 & x2 & -> & Hw1 & Hw2 & Hsh) (k0 & k1 & -> & Hk0 & Hk1 & Hk) Ef.
  cbn [example_step Chain.forward Chain.reverse_and_grad Chain.params] in *.
  unfold example_weights, example_state, weights_of, example_half_residual in *.
  rewrite forward_eq in Ef
    by (try reflexivity; exact (shape_preserving_single scale_shape_preserving)).
  cbn [scale forward_with_state scalar bind] in Ef.
  destruct (@tensor_add_ok x1 (tensor_scale 3 x2)) as (y1 & Ey1 & Hy1 & Hwy1);
    [exact Hsh|exact Hw1|now apply tensor_scale_wf|].
  rewrite Ey1 in Ef. cbn [outputs bind] in Ef. injection Ef as <-.
  split.
  - exists y1, x2. repeat split; try assumption. congruence.
  - rewrite reverse_and_grad_eq
      by (try reflexivity; exact (shape_preserving_single scale_shape_preserving)).
    cbn [scale forward_with_state scalar bind].
    rewrite (@tensor_add_sub x1 (tensor_scale 3 x2) y1)
      by (try assumption; now apply tensor_scale_wf).
    cbn [bind].
    destruct (@tensor_add_ok k1 (tensor_scale 3 k0)) as (kx & Ekx & Hkx & Hwkx);
      [symmetry; exact Hk|exact Hk1|now apply tensor_scale_wf|].
    unfold init. cbn [compute_residual]. run. rewrite Ekx. run.
    eexists. eexists. split; [reflexivity|].
    exists k0, kx. repeat split; try assumption. congruence.
Qed.

(** ** Chunking: closed forms, inverses and composition *)

Lemma eqb_mul_true (a b : nat) : a = b -> (a =? b) = true.
Proof. intros ->. apply Nat.eqb_refl. Qed.

(** The outcome of [Unchunk], case by case. *)
Lemma Unchunk_eq (x : tensor) (n_sections : nat) :
  Unchunk x n_sections =
  match shape x with
  | [] => Err IndexError
  | s0 :: rest =>
      if n_sections =? 0 then Err ZeroDivisionError
      else if negb (s0 mod n_sections =? 0) then Err AssertionError
      else match rest with
           | [] => Err IndexError
           | s1 :: rest' =>
               Ok (mkTensor (s0 / n_sections :: s1 * n_sections :: rest')
                            (data x))
           end
  end.
Proof.
  destruct x as [sh d].
  unfold Unchunk, shape_at, py_mod, py_floordiv, np_reshape. cbn [shape data].
  destruct sh as [|s0 rest]; [reflexivity|]. cbn [nth_error bind].
  destruct (Nat.eqb_spec n_sections 0) as [Hz|Hn]; [reflexivity|].
  cbn [bind]. unfold assert.
  destruct (Nat.eqb_spec (s0 mod n_sections) 0) as [Hm|Hm]; [|reflexivity].
  cbn [bind negb]. destruct rest as [|s1 rest']; [reflexivity|].
  cbn [nth_error bind skipn].
  rewrite eqb_mul_true; [reflexivity|].
  rewrite !prod_cons.
  assert (Hs : s0 = n_sections * (s0 / n_sections))
    by (apply Nat.Div0.div_exact; assumption).
  rewrite Hs at 2. lia.
Qed.

(** The outcome of [Chunk], case by case. *)
Lemma Chunk_eq (x : tensor) (n_sections : nat) :
  Chunk x n_sections =
  match shape x with
  | s0 :: s1 :: rest =>
      if n_sections =? 0 then Err ZeroDivisionError
      else if negb (s1 mod n_sections =? 0) then Err AssertionError
      else Ok (mkTensor (s0 * n_sections :: s1 / n_sections :: rest) (data x))
  | _ => Err IndexError
  end.
Proof.
  destruct x as [sh d].
  destruct sh as [|s0 [|s1 rest]]; try reflexivity.
  cbn [shape data].
  destruct (Nat.eqb_spec n_sections 0) as [Hz|Hn].
  - subst. reflexivity.
  - destruct (Nat.eqb_spec (s1 mod n_sections) 0) as [Hm|Hm]; cbn [negb].
    + apply Chunk_divisible; assumption.
    + unfold Chunk, shape_at, py_mod, assert. cbn [shape nth_error bind].
      destruct (Nat.eqb_spec n_sections 0) as [Hz|_]; [contradiction|].
      cbn [bind].
      destruct (Nat.eqb_spec (s1 mod n_sections) 0) as [E|_];
        [contradiction|reflexivity].
Qed.

(** X1: [Unchunk] in closed form.  It raises [IndexError] on a tensor
    without axes, [ZeroDivisionError] for no section, [AssertionError] when
    the first axis is not a multiple of [n_sections], [IndexError] on a
    tensor with a single axis, and otherwise returns the entries of [x] under
    the shape [batch / n_sections, length * n_sections, ...]: the reshape
    never fails. *)
Theorem X1_unchunk_closed_form (x : tensor) (n_sections : nat) :
  Unchunk x n_sections =
  match shape x with
  | [] => Err IndexError
  | s0 :: rest =>
      if n_sections =? 0 then Err ZeroDivisionError
      else if negb (s0 mod n_sections =? 0) then Err AssertionError
      else match rest with
           | [] => Err IndexError
           | s1 :: rest' =>
               Ok (mkTensor (s0 / n_sections :: s1 * n_sections :: rest')
                            (data x))
           end
  end.
Proof. exact (Unchunk_eq x n_sections). Qed.

(** X2: [Chunk] in closed form.  It raises [IndexError] on a tensor with
    fewer than two axes, whatever [n_sections] is, [ZeroDivisionError] for no
    section, [AssertionError] when the length is not a multiple of
    [n_sections], and otherwise returns the entries of [x] under the shape
    [batch * n_sections, length / n_sections, ...]: the reshape never
    fails. *)
Theorem X2_chunk_closed_form (x : tensor) (n_sections : nat) :
  Chunk x n_sections =
  match shape x with
  | s0 :: s1 :: rest =>
      if n_sections =? 0 then Err ZeroDivisionError
      else if negb (s1 mod n_sections =? 0) then Err AssertionError
      else Ok (mkTensor (s0 * n_sections :: s1 / n_sections :: rest) (data x))
  | _ => Err IndexError
  end.
Proof. exact (Chunk_eq x n_sections). Qed.

(** What a successful [Chunk], and a successful [Unchunk], says of its
    argument. *)
Lemma Chunk_ok_inv (x c : tensor) (n : nat) :
  Chunk x n = Ok c ->
  exists s0 s1 rest,
    shape x = s0 :: s1 :: rest /\ n <> 0 /\ s1 mod n = 0 /\
    c = mkTensor (s0 * n :: s1 / n :: rest) (data x).
Proof.
  rewrite Chunk_eq. destruct (shape x) as [|s0 [|s1 rest]]; try discriminate.
  destruct (Nat.eqb_spec n 0) as [Hz|Hn]; [discriminate|].
  destruct (Nat.eqb_spec (s1 mod n) 0) as [Hm|Hm]; cbn [negb];
    [|discriminate].
  intros E. injection E as <-. now exists s0, s1, rest.
Qed.

Lemma Unchunk_ok_inv (x u : tensor) (n : nat) :
  Unchunk x n = Ok u ->
  exists s0 s1 rest,
    shape x = s0 :: s1 :: rest /\ n <> 0 /\ s0 mod n = 0 /\
    u = mkTensor (s0 / n :: s1 * n :: rest) (data x).
Proof.
  rewrite Unchunk_eq. destruct (shape x) as [|s0 rest]; try discriminate.
  destruct (Nat.eqb_spec n 0) as [Hz|Hn]; [discriminate|].
  destruct (Nat.eqb_spec (s0 mod n) 0) as [Hm|Hm]; cbn [negb];
    [|discriminate].
  destruct rest as [|s1 rest]; [discriminate|].
  intros E. injection E as <-. now exists s0, s1, rest.
Qed.

(** X3: [Chunk] undoes [Unchunk]: whenever [Unchunk] succeeds on [x],
    [Chunk] with the same [n_sections] succeeds on its result and returns
    [x]. *)
Theorem X3_chunk_unchunk (x u : tensor) (n_sections : nat) :
  Unchunk x n_sections = Ok u -> Chunk u n_sections = Ok x.
Proof.
  intros E. destruct (Unchunk_ok_inv _ _ E) as (s0 & s1 & rest & Hsh & Hn & Hm & ->).
  rewrite Chunk_eq. cbn [shape data].
  destruct (Nat.eqb_spec n_sections 0) as [Hz|_]; [contradiction|].
  rewrite Nat.Div0.mod_mul. cbn [Nat.eqb negb].
  rewrite Nat.div_mul by assumption.
  replace (s0 / n_sections * n_sections) with s0.
  - destruct x as [sh d]. cbn [shape data] in *. now subst sh.
  - rewrite Nat.mul_comm. apply Nat.Div0.div_exact. assumption.
Qed.

(** X4: chunking twice is chunking once: [Chunk] in [m] sections followed by
    [Chunk] in [n] sections is [Chunk] in [m * n] sections. *)
Theorem X4_chunk_compose (x c c' : tensor) (m n : nat) :
  Chunk x m = Ok c -> Chunk c n = Ok c' -> Chunk x (m * n) = Ok c'.
Proof.
  intros E1 E2.
  destruct (Chunk_ok_inv _ _ E1) as (s0 & s1 & rest & Hsh & Hm & Hm0 & ->).
  destruct (Chunk_ok_inv _ _ E2) as (t0 & t1 & rest' & Hsh' & Hn & Hn0 & ->).
  cbn [shape data] in *. injection Hsh' as <- <- <-.
  rewrite Chunk_eq, Hsh.
  destruct (Nat.eqb_spec (m * n) 0) as [Hz|_]; [lia|].
  assert (Hs1 : s1 = m * (s1 / m)) by (apply Nat.Div0.div_exact; assumption).
  assert (Hs2 : s1 / m = n * (s1 / m / n))
    by (apply Nat.Div0.div_exact; assumption).
  assert (Hmod : s1 mod (m * n) = 0).
  { apply Nat.Div0.mod_divides. exists (s1 / m / n).
    rewrite Hs1 at 1. rewrite Hs2 at 1. lia. }
  rewrite Hmod. cbn [Nat.eqb negb].
  rewrite Nat.Div0.div_div. now rewrite Nat.mul_assoc.
Qed.

(** ** The chunks of the feed-forward block *)

(** The outcome of [reshape_to_chunks], case by case. *)
Lemma reshape_to_chunks_eq (chunk_size : nat) (x : tensor) :
  reshape_to_chunks chunk_size x =
  match shape x with
  | s0 :: s1 :: rest =>
      if chunk_size =? 0 then Err ZeroDivisionError
      else if negb ((s0 * s1) mod chunk_size =? 0) then Err AssertionError
      else Ok (mkTensor ((s0 * s1) / chunk_size :: 1 :: chunk_size :: rest)
                        (data x))
  | _ => Err IndexError
  end.
Proof.
  destruct x as [sh d].
  unfold reshape_to_chunks, shape_at, py_mod, py_floordiv, np_reshape, assert.
  cbn [shape data].
  destruct sh as [|s0 [|s1 rest]]; try reflexivity.
  cbn [nth_error bind skipn app].
  destruct (Nat.eqb_spec chunk_size 0) as [Hz|Hn]; [reflexivity|].
  cbn [bind].
  destruct (Nat.eqb_spec ((s0 * s1) mod chunk_size) 0) as [Hm|Hm];
    [|reflexivity].
  cbn [bind negb].
  rewrite eqb_mul_true; [reflexivity|].
  rewrite !prod_cons.
  assert (Hs : s0 * s1 = chunk_size * ((s0 * s1) / chunk_size))
    by (apply Nat.Div0.div_exact; assumption).
  nia.
Qed.

(** X5: [reshape_to_chunks] in closed form.  The assertion is on the
    product of the batch and length axes, so chunks may run over the end of
    a sequence into the next one; on success the entries of [x] are
    returned, in their order, under the shape
    [batch * length / chunk_size, 1, chunk_size, ...]. *)
Theorem X5_reshape_to_chunks_closed_form (chunk_size : nat) (x : tensor) :
  reshape_to_chunks chunk_size x =
  match shape x with
  | s0 :: s1 :: rest =>
      if chunk_size =? 0 then Err ZeroDivisionError
      else if negb ((s0 * s1) mod chunk_size =? 0) then Err AssertionError
      else Ok (mkTensor ((s0 * s1) / chunk_size :: 1 :: chunk_size :: rest)
                        (data x))
  | _ => Err IndexError
  end.
Proof. exact (reshape_to_chunks_eq chunk_size x). Qed.

(** X6: the last layer of [ChunkedFeedForward] undoes [reshape_to_chunks]:
    reshaping the chunks of [x] to the shape of [x] gives [x] back, and
    reshaping to the shape of [x] any tensor [y] of the shape of the chunks
    (the output of a shape-preserving block) gives the entries of [y] under
    the shape of [x]. *)
Theorem X6_reshape_as_chunks (chunk_size : nat) (x c : tensor) :
  reshape_to_chunks chunk_size x = Ok c ->
  reshape_as c x = Ok x /\
  forall y, shape y = shape c ->
            reshape_as y x = Ok (mkTensor (shape x) (data y)).
Proof.
  rewrite reshape_to_chunks_eq. intros E.
  assert (Hp : prod (shape x) = prod (shape c)).
  { destruct (shape x) as [|s0 [|s1 rest]]; try discriminate.
    destruct (Nat.eqb_spec chunk_size 0) as [Hz|Hn]; [discriminate|].
    destruct (Nat.eqb_spec ((s0 * s1) mod chunk_size) 0) as [Hm|Hm];
      cbn [negb] in E; [|discriminate].
    injection E as <-. cbn [shape]. rewrite !prod_cons.
    assert (Hs : s0 * s1 = chunk_size * ((s0 * s1) / chunk_size))
      by (apply Nat.Div0.div_exact; assumption).
    nia. }
  assert (Hd : data c = data x).
  { destruct (shape x) as [|s0 [|s1 rest]]; try discriminate.
    destruct (chunk_size =? 0); [discriminate|].
    destruct (negb _); [discriminate|]. now injection E as <-. }
  unfold reshape_as, np_reshape. split.
  - rewrite eqb_mul_true by assumption. rewrite Hd. now destruct x.
  - intros y Hy. rewrite Hy. now rewrite eqb_mul_true by assumption.
Qed.

(** ** SplitForOutput: shapes, failures and the other round trip *)

Lemma Forall2_length_eq {A B : Type} (P : A -> B -> Prop) (l : list A)
      (l' : list B) :
  Forall2 P l l' -> length l = length l'.
Proof. induction 1; simpl; congruence. Qed.

Lemma Forall2_right {A B : Type} (P : A -> B -> Prop) (Q : B -> Prop)
      (l : list A) (l' : list B) :
  (forall a b, P a b -> Q b) -> Forall2 P l l' -> Forall Q l'.
Proof. intros HPQ. induction 1; constructor; eauto. Qed.

(** X7: on two well-formed tensors of one shape whose split axis is a
    multiple of [n_sections], [forward] returns exactly [n_sections] tensors
    (the [n_out] that [__init__] declares), each of the shape of the inputs
    with the split axis divided by [n_sections] and then the last axis
    doubled. *)
Theorem X7_split_forward_shapes (self : SplitForOutput.t) (x1 x2 : tensor)
        (ax : nat) :
  wf x1 -> wf x2 -> shape x1 = shape x2 ->
  normalize_axis (SplitForOutput.axis self) (ndim x1) = Ok ax ->
  py_mod (dim ax x1) (SplitForOutput.n_sections self) = Ok 0 ->
  let n := SplitForOutput.n_sections self in
  let sh := firstn ax (shape x1) ++ dim ax x1 / n :: skipn (S ax) (shape x1) in
  exists ys,
    SplitForOutput.forward self [x1; x2] = Ok ys /\
    length ys = n /\
    Forall (fun y => shape y = removelast sh ++ [2 * last sh 0]) ys.
Proof.
  intros Hw1 Hw2 Hsh Hax Hmod n sh.
  destruct (forward_sections self Hw1 Hw2 Hsh Hax Hmod) as [ys [Hf HF]].
  exists ys. split; [assumption|]. split.
  - rewrite <- (Forall2_length_eq HF).
    rewrite length_combine, !length_map, length_seq. apply Nat.min_id.
  - eapply Forall2_right; [|exact HF].
    intros p y Hj. exact (proj1 (proj2 (proj2 Hj))).
Qed.

(** X8: the failures of [forward].  It raises [ValueError] unless it is
    given exactly two inputs, [IndexError] when the axis is outside the rank
    of the first input, [ZeroDivisionError] for no section, and [ValueError]
    when the extent of the split axis is not a multiple of [n_sections]. *)
Theorem X8_split_forward_failures (self : SplitForOutput.t) :
  (forall inputs, length inputs <> 2 ->
                  SplitForOutput.forward self inputs = Err ValueError) /\
  (forall x1 x2,
      normalize_axis (SplitForOutput.axis self) (ndim x1) = Err IndexError ->
      SplitForOutput.forward self [x1; x2] = Err IndexError) /\
  (forall x1 x2 ax,
      normalize_axis (SplitForOutput.axis self) (ndim x1) = Ok ax ->
      (SplitForOutput.n_sections self = 0 ->
       SplitForOutput.forward self [x1; x2] = Err ZeroDivisionError) /\
      (SplitForOutput.n_sections self <> 0 ->
       dim ax x1 mod SplitForOutput.n_sections self <> 0 ->
       SplitForOutput.forward self [x1; x2] = Err ValueError)).
Proof.
  split; [|split].
  - intros [|a [|b [|c l]]] Hl; try reflexivity. now elim Hl.
  - intros x1 x2 Hax. unfold SplitForOutput.forward, np_split.
    now rewrite Hax.
  - intros x1 x2 ax Hax.
    assert (Hlt : ax < ndim x1) by (eapply normalize_axis_lt; eassumption).
    unfold SplitForOutput.forward, np_split. rewrite Hax. cbn [bind].
    rewrite shape_at_nth by assumption. cbn [bind]. unfold py_mod. split.
    + intros ->. reflexivity.
    + intros Hn Hm.
      destruct (Nat.eqb_spec (SplitForOutput.n_sections self) 0) as [Hz|_];
        [contradiction|].
      cbn [bind].
      destruct (Nat.eqb_spec (dim ax x1 mod SplitForOutput.n_sections self) 0)
        as [E|_]; [contradiction|reflexivity].
Qed.

(** X9: the failures of [reverse].  On no output at all it raises
    [ValueError] (there is nothing to concatenate), and so it does when the
    last axis of the first output has an odd extent; an output without axes
    raises [IndexError]. *)
Theorem X9_split_reverse_failures (self : SplitForOutput.t) :
  SplitForOutput.reverse self [] = Err ValueError /\
  (forall y rest,
      shape y = [] ->
      SplitForOutput.reverse self (y :: rest) = Err IndexError) /\
  (forall y rest,
      shape y <> [] -> last (shape y) 0 mod 2 <> 0 ->
      SplitForOutput.reverse self (y :: rest) = Err ValueError).
Proof.
  split; [reflexivity|]. split.
  - intros y rest Hs.
    unfold SplitForOutput.reverse. cbn [SplitForOutput.split_halves].
    unfold np_split, ndim. now rewrite Hs.
  - intros y rest Hne Hodd.
    destruct (exists_last Hne) as [pre [d E]].
    unfold SplitForOutput.reverse. cbn [SplitForOutput.split_halves].
    unfold np_split, ndim. rewrite E, normalize_last. cbn [bind].
    unfold shape_at. rewrite E.
    rewrite nth_error_app2, Nat.sub_diag by lia. cbn [nth_error bind].
    rewrite E, last_last in Hodd. unfold py_mod. cbn [Nat.eqb bind].
    destruct (Nat.eqb_spec (d mod 2) 0) as [Hz|_]; [contradiction|].
    reflexivity.
Qed.

Lemma mapM_combine_map (h1 h2 : tensor -> tensor) (ys : list tensor) :
  (forall y, In y ys -> np_concatenate [h1 y; h2 y] (-1) = Ok y) ->
  mapM (fun p => np_concatenate [fst p; snd p] (-1))
       (combine (map h1 ys) (map h2 ys)) = Ok ys.
Proof.
  induction ys as [|y ys IH]; intros Hc; [reflexivity|].
  cbn [map combine mapM fst snd].
  rewrite (Hc y (or_introl eq_refl)). cbn [bind].
  rewrite IH by (intros; apply Hc; now right). reflexivity.
Qed.

(** X10: [forward] undoes [reverse].  On a non-empty list of well-formed
    outputs of one shape whose last axis is even, [reverse] succeeds, and
    [forward] with as many sections as there are outputs returns the
    outputs. *)
Theorem X10_split_forward_reverse (self : SplitForOutput.t)
        (ys : list tensor) (body : list nat) (h ax : nat) :
  ys <> [] ->
  SplitForOutput.n_sections self = length ys ->
  (forall y, In y ys -> shape y = body ++ [2 * h] /\ wf y) ->
  normalize_axis (SplitForOutput.axis self) (S (length body)) = Ok ax ->
  exists x1 x2,
    SplitForOutput.reverse self ys = Ok [x1; x2] /\
    SplitForOutput.forward self [x1; x2] = Ok ys.
Proof.
  intros Hne Hn Hys Hax.
  set (L := length body).
  set (h1 := fun y => section_of y L h 0).
  set (h2 := fun y => section_of y L h 1).
  assert (Hlast : forall y, In y ys ->
            normalize_axis (-1) (ndim y) = Ok L /\ dim L y = 2 * h).
  { intros y Hy. destruct (Hys y Hy) as [Hs _]. unfold ndim, dim. rewrite Hs.
    split; [apply normalize_last|apply nth_mid]. }
  assert (Hdiv : (2 * h) mod 2 = 0)
    by (rewrite Nat.mul_comm; apply Nat.Div0.mod_mul).
  assert (Hhalf : 2 * h / 2 = h)
    by (rewrite Nat.mul_comm; apply Nat.div_mul; discriminate).
  assert (Hsplit : forall y, In y ys -> np_split y 2 (-1) = Ok [h1 y; h2 y]).
  { intros y Hy. destruct (Hlast y Hy) as [Hl Hd].
    rewrite (@np_split_ok y 2 _ L) by (rewrite ?Hd; (assumption || lia)).
    now rewrite Hd, Hhalf. }
  assert (Hjoin : forall y, In y ys ->
            np_concatenate [h1 y; h2 y] (-1) = Ok y).
  { intros y Hy. destruct (Hlast y Hy) as [Hl Hd]. destruct (Hys y Hy) as [_ Hw].
    pose proof (@np_concatenate_split y 2 (-1) L Hw Hl) as Hc.
    rewrite Hd, Hhalf in Hc. apply Hc; (assumption || lia). }
  assert (Hshape : forall y, In y ys ->
            shape (h1 y) = body ++ [h] /\ shape (h2 y) = body ++ [h]).
  { intros y Hy. destruct (Hys y Hy) as [Hs _].
    unfold h1, h2, section_of, L. cbn [shape]. rewrite Hs.
    now rewrite firstn_pre, skipn_post. }
  assert (Hwf : forall y, In y ys -> wf (h1 y) /\ wf (h2 y)).
  { intros y Hy. destruct (Hlast y Hy) as [Hl Hd]. destruct (Hys y Hy) as [_ Hw].
    assert (Hlt : L < ndim y) by (eapply normalize_axis_lt; eassumption).
    pose proof (@section_wf y L 2 0 Hw Hlt) as W0.
    pose proof (@section_wf y L 2 1 Hw Hlt) as W1.
    rewrite Hd, Hhalf in W0, W1. split; [apply W0|apply W1]; (assumption || lia). }
  assert (Hlen : length (body ++ [h]) = S L)
    by (rewrite length_app; cbn [length]; unfold L; lia).
  assert (Hlt : ax < length (body ++ [h]))
    by (rewrite Hlen; eapply normalize_axis_lt; eassumption).
  pose proof (shape_split (body ++ [h]) Hlt) as Hdec.
  set (pre := firstn ax (body ++ [h])) in *.
  set (d := nth ax (body ++ [h]) 0) in *.
  set (post := skipn (S ax) (body ++ [h])) in *.
  assert (Hpre : length pre = ax) by (apply length_firstn_lt; assumption).
  assert (Hnorm : normalize_axis (SplitForOutput.axis self)
                    (length (pre ++ d :: post)) = Ok (length pre)).
  { rewrite <- Hdec, Hlen, Hpre. exact Hax. }
  destruct (@np_split_concatenate (map h1 ys) (SplitForOutput.axis self)
              pre post d) as [x1 [Hc1 [_ [_ Hs1]]]].
  { destruct ys; [now elim Hne|discriminate]. }
  { intros t Ht. apply in_map_iff in Ht. destruct Ht as [y [<- Hy]].
    rewrite <- Hdec. exact (proj1 (Hshape y Hy)). }
  { intros t Ht. apply in_map_iff in Ht. destruct Ht as [y [<- Hy]].
    exact (proj1 (Hwf y Hy)). }
  { exact Hnorm. }
  destruct (@np_split_concatenate (map h2 ys) (SplitForOutput.axis self)
              pre post d) as [x2 [Hc2 [_ [_ Hs2]]]].
  { destruct ys; [now elim Hne|discriminate]. }
  { intros t Ht. apply in_map_iff in Ht. destruct Ht as [y [<- Hy]].
    rewrite <- Hdec. exact (proj2 (Hshape y Hy)). }
  { intros t Ht. apply in_map_iff in Ht. destruct Ht as [y [<- Hy]].
    exact (proj2 (Hwf y Hy)). }
  { exact Hnorm. }
  exists x1, x2. split.
  - unfold SplitForOutput.reverse.
    rewrite (@split_halves_map h1 h2 ys)
      by (apply Forall_forall; exact Hsplit).
    cbn [bind]. rewrite Hc1. cbn [bind]. rewrite Hc2. reflexivity.
  - unfold SplitForOutput.forward. rewrite Hn.
    rewrite length_map in Hs1, Hs2. rewrite Hs1. cbn [bind].
    rewrite Hs2. cbn [bind].
    apply mapM_combine_map. exact Hjoin.
Qed.

(** The only section of a tensor is the tensor. *)
Lemma section_of_whole (x : tensor) (ax : nat) :
  wf x -> ax < ndim x -> section_of x ax (dim ax x) 0 = x.
Proof.
  intros Hw Hlt. unfold section_of. destruct x as [sh d].
  unfold wf, ndim, dim in *. cbn [shape data] in *.
  rewrite <- shape_split by assumption. f_equal.
  rewrite Nat.mul_0_l. apply take_rows_all.
  rewrite Hw. apply prod_split. assumption.
Qed.

(** X25: [SplitForOutput] with one section, the construction of
    [ReformerLM] without chunks.  On two well-formed tensors in whose rank
    the axis lies, [forward] returns one tensor, the concatenation of the
    two along the last axis, and fails where that concatenation fails. *)
Theorem X25_split_single_section (axis : Z) (x1 x2 : tensor) (ax1 ax2 : nat) :
  wf x1 -> wf x2 ->
  normalize_axis axis (ndim x1) = Ok ax1 ->
  normalize_axis axis (ndim x2) = Ok ax2 ->
  SplitForOutput.forward (SplitForOutput.mk 1 axis) [x1; x2]
  = (y <- np_concatenate [x1; x2] (-1) ;; Ok [y]).
Proof.
  intros Hw1 Hw2 Ha1 Ha2.
  assert (Hl1 : ax1 < ndim x1) by (eapply normalize_axis_lt; eassumption).
  assert (Hl2 : ax2 < ndim x2) by (eapply normalize_axis_lt; eassumption).
  unfold SplitForOutput.forward.
  cbn [SplitForOutput.n_sections SplitForOutput.axis].
  rewrite (@np_split_ok x1 1 axis ax1), (@np_split_ok x2 1 axis ax2);
    try assumption; try discriminate; try apply Nat.mod_1_r.
  cbn [bind seq map combine mapM fst snd].
  rewrite !Nat.div_1_r, !section_of_whole by assumption.
  destruct (np_concatenate [x1; x2] (-1)); reflexivity.
Qed.

(** ** Map: the initialisation of the weights *)

Lemma check_loop_same (first_shape : list nat) (l : list Map.ShapeDtype) :
  (forall sd, In sd l -> Map.sd_shape sd = first_shape) ->
  Map.check_loop first_shape l = Ok tt.
Proof.
  induction l as [|sd l IH]; intros Hall; [reflexivity|].
  cbn [Map.check_loop]. unfold Map.shape_eqb.
  destruct (list_eq_dec Nat.eq_dec (Map.sd_shape sd) first_shape) as [_|Hne].
  - cbn [negb]. apply IH. intros; apply Hall; now right.
  - elim Hne. apply Hall. now left.
Qed.

Lemma check_loop_differs (first_shape : list nat) (l : list Map.ShapeDtype) :
  (exists sd, In sd l /\ Map.sd_shape sd <> first_shape) ->
  Map.check_loop first_shape l = Err ValueError.
Proof.
  induction l as [|sd l IH]; intros [sd' [Hin Hne]]; [destruct Hin|].
  cbn [Map.check_loop]. unfold Map.shape_eqb.
  destruct (list_eq_dec Nat.eq_dec (Map.sd_shape sd) first_shape) as [He|_];
    [|reflexivity].
  cbn [negb]. apply IH. destruct Hin as [<-|Hin]; [contradiction|].
  now exists sd'.
Qed.

(** X11: [Map.new_weights_and_state] with more than one section.  On an
    empty signature it raises [IndexError].  With [check_shapes] it raises
    [ValueError] as soon as one entry has a shape other than the first one,
    without initialising the layer.  Otherwise the weights and the state are
    those that the layer makes of the first entry alone: the other entries
    are not looked at. *)
Theorem X11_map_new_weights_and_state (self : Map.t)
        (l : list Map.ShapeDtype) :
  Map.n_sections self <> 1 ->
  (l = [] -> Map.new_weights_and_state self (Map.Several l) = Err IndexError)
  /\
  (forall first rest,
      l = first :: rest ->
      (Map.check_shapes self = true ->
       (exists sd, In sd l /\ Map.sd_shape sd <> Map.sd_shape first) ->
       Map.new_weights_and_state self (Map.Several l) = Err ValueError) /\
      (Map.check_shapes self = false \/
       (forall sd, In sd l -> Map.sd_shape sd = Map.sd_shape first) ->
       Map.new_weights_and_state self (Map.Several l)
       = Map.layer_init self (Map.One first))).
Proof.
  intros Hn. unfold Map.new_weights_and_state.
  destruct (Nat.eqb_spec (Map.n_sections self) 1) as [E|_]; [contradiction|].
  split.
  - intros ->. reflexivity.
  - intros first rest ->. cbn [index nth_error bind]. split.
    + intros -> Hex. now rewrite check_loop_differs.
    + intros [->|Hall]; [reflexivity|].
      destruct (Map.check_shapes self); [|reflexivity].
      now rewrite check_loop_same.
Qed.

(** ** BroadcastedDropout *)

Lemma length_update (l : list nat) (i v : nat) :
  length (update l i v) = length l.
Proof.
  revert i. induction l as [|a l IH]; intros [|i]; simpl; auto.
Qed.

Lemma nth_update (l : list nat) (i v j : nat) :
  i < length l ->
  nth j (update l i v) 0 = if j =? i then v else nth j l 0.
Proof.
  revert i j. induction l as [|a l IH]; intros [|i] [|j] Hi; simpl in *;
    try lia; try reflexivity.
  apply IH. lia.
Qed.

Lemma normalize_axis_in_range (n : nat) (d : Z) :
  in_range n d ->
  exists i, normalize_axis d n = Ok i /\ i < n /\
            forall j, names n d j = (j =? i).
Proof.
  unfold in_range, normalize_axis, names. intros Hr.
  set (a := (if (d <? 0)%Z then (d + Z.of_nat n)%Z else d)).
  assert (Ha : (0 <= a < Z.of_nat n)%Z).
  { unfold a. destruct (Z.ltb_spec d 0); lia. }
  replace ((0 <=? a)%Z && (a <? Z.of_nat n)%Z) with true.
  - exists (Z.to_nat a). split; [reflexivity|]. split; [lia|].
    intros j. destruct (Nat.eqb_spec j (Z.to_nat a)) as [->|Hne].
    + apply Z.eqb_eq. lia.
    + apply Z.eqb_neq. lia.
  - symmetry. apply andb_true_iff. split; [apply Z.leb_le|apply Z.ltb_lt]; lia.
Qed.

Lemma normalize_axis_out_of_range (n : nat) (d : Z) :
  ~ in_range n d -> normalize_axis d n = Err IndexError.
Proof.
  unfold in_range, normalize_axis. intros Hr.
  set (a := (if (d <? 0)%Z then (d + Z.of_nat n)%Z else d)).
  assert (Ha : ~ (0 <= a < Z.of_nat n)%Z).
  { unfold a. destruct (Z.ltb_spec d 0); lia. }
  destruct (Z.leb_spec 0 a); destruct (Z.ltb_spec a (Z.of_nat n));
    cbn [andb]; try reflexivity. lia.
Qed.

(** What the loop over [broadcast_dims] makes of a shape. *)
Lemma noise_shape_ok (dims : list Z) (sh : list nat) :
  Forall (in_range (length sh)) dims ->
  exists ns,
    BroadcastedDropout.noise_shape dims sh = Ok ns /\
    length ns = length sh /\
    forall i, i < length sh ->
      nth i ns 0 = if existsb (fun d => names (length sh) d i) dims
                   then 1 else nth i sh 0.
Proof.
  revert sh. induction dims as [|d dims IH]; intros sh Hall.
  - exists sh. repeat split.
  - inversion Hall as [|d' dims' Hd Hds]; subst.
    destruct (normalize_axis_in_range Hd) as [i0 [Hn [Hlt Hnames]]].
    cbn [BroadcastedDropout.noise_shape]. unfold set_item. rewrite Hn.
    cbn [bind].
    destruct (IH (update sh i0 1)) as [ns [Hns [Hlen Hnth]]].
    { now rewrite length_update. }
    exists ns. split; [assumption|].
    rewrite length_update in Hlen, Hnth. split; [assumption|].
    intros i Hi. rewrite (Hnth i Hi). cbn [existsb]. rewrite Hnames.
    rewrite nth_update by assumption.
    destruct (existsb (fun d0 => names (length sh) d0 i) dims);
      [now rewrite orb_true_r|].
    rewrite orb_false_r. reflexivity.
Qed.

Lemma noise_shape_err (dims : list Z) (sh : list nat) :
  Exists (fun d => ~ in_range (length sh) d) dims ->
  BroadcastedDropout.noise_shape dims sh = Err IndexError.
Proof.
  revert sh. induction dims as [|d dims IH]; intros sh Hex;
    [inversion Hex|].
  cbn [BroadcastedDropout.noise_shape]. unfold set_item.
  destruct (Z_le_dec (- Z.of_nat (length sh)) d) as [Hl|Hl];
    [destruct (Z_lt_dec d (Z.of_nat (length sh))) as [Hu|Hu]|].
  - destruct (@normalize_axis_in_range (length sh) d (conj Hl Hu))
      as [i0 [Hn _]].
    rewrite Hn. cbn [bind]. apply IH. rewrite length_update.
    inversion Hex as [d' l' Hd|d' l' Hds]; subst; [|assumption].
    elim Hd. split; assumption.
  - rewrite normalize_axis_out_of_range; [reflexivity|].
    unfold in_range. lia.
  - rewrite normalize_axis_out_of_range; [reflexivity|].
    unfold in_range. lia.
Qed.

(** X12: the noise shape of [BroadcastedDropout].  When every broadcast
    dimension is an index into the shape of the input, negative ones counted
    from the end, the noise shape is the shape of the input with the extent
    one at the broadcast dimensions and the extent of the input elsewhere;
    when one of them is not, the loop raises [IndexError]. *)
Theorem X12_dropout_noise_shape (dims : list Z) (sh : list nat) :
  (Forall (in_range (length sh)) dims ->
   exists ns,
     BroadcastedDropout.noise_shape dims sh = Ok ns /\
     length ns = length sh /\
     forall i, i < length sh ->
       nth i ns 0 = if existsb (fun d => names (length sh) d i) dims
                    then 1 else nth i sh 0) /\
  (Exists (fun d => ~ in_range (length sh) d) dims ->
   BroadcastedDropout.noise_shape dims sh = Err IndexError).
Proof.
  split; [apply noise_shape_ok|apply noise_shape_err].
Qed.

Section Dropout.

Context `{PRNG}.

Variable bernoulli : key -> QArith_base.Q -> list nat -> tensor.
Variable scale_kept : tensor -> tensor -> QArith_base.Q -> tensor.

Import (notations) String.

(** X13: [BroadcastedDropout.__init__] raises [ValueError] exactly when the
    rate is at least one: every smaller rate is accepted, a negative one
    too, and the layer keeps the arguments as they are. *)
Theorem X13_dropout_init (rate : QArith_base.Q) (mode : String.string)
        (dims : list Z) :
  (QArith_base.Qle (QArith_base.Qmake 1 1) rate ->
   BroadcastedDropout.init rate mode dims = Err ValueError) /\
  (QArith_base.Qlt rate (QArith_base.Qmake 1 1) ->
   BroadcastedDropout.init rate mode dims
   = Ok (BroadcastedDropout.mk rate dims mode)).
Proof.
  unfold BroadcastedDropout.init. split; intros Hr.
  - apply QArith_base.Qle_bool_iff in Hr. now rewrite Hr.
  - destruct (QArith_base.Qle_bool (QArith_base.Qmake 1 1) rate) eqn:E;
      [|reflexivity].
    apply QArith_base.Qle_bool_iff in E.
    elim (QArith_base.Qlt_not_le _ _ Hr E).
Qed.

(** X14: a dropout layer that does not drop.  Without a generator
    [forward_with_state] raises [ValueError] in every mode; with one, in a
    mode other than training, or with a rate that is not positive, it
    returns the input and the state unchanged, and the broadcast dimensions
    are not looked at. *)
Theorem X14_dropout_inactive (self : BroadcastedDropout.t) (x : tensor)
        (weights state : pytree) :
  BroadcastedDropout.forward_with_state bernoulli scale_kept self x
    weights state None = Err ValueError /\
  (BroadcastedDropout.mode self <> "train"%string \/
   QArith_base.Qle (BroadcastedDropout.rate self) (QArith_base.Qmake 0 1) ->
   forall k,
     BroadcastedDropout.forward_with_state bernoulli scale_kept self x
       weights state (Some k) = Ok (x, state)).
Proof.
  split; [reflexivity|]. intros Hoff k.
  unfold BroadcastedDropout.forward_with_state.
  destruct Hoff as [Hm|Hr].
  - apply String.eqb_neq in Hm. now rewrite Hm.
  - apply QArith_base.Qle_bool_iff in Hr. rewrite Hr.
    now rewrite andb_false_r.
Qed.

(** X15: a dropout layer that drops.  In training mode with a positive
    rate, [forward_with_state] raises [IndexError] when a broadcast
    dimension is outside the rank of the input, as the default [(-2,)] is
    for an input with one axis; otherwise it returns the input rescaled by a
    mask drawn with the keep probability [1 - rate] in the noise shape, and
    the state unchanged. *)
Theorem X15_dropout_training (self : BroadcastedDropout.t) (x : tensor)
        (weights state : pytree) (k : key) :
  BroadcastedDropout.mode self = "train"%string ->
  QArith_base.Qlt (QArith_base.Qmake 0 1) (BroadcastedDropout.rate self) ->
  (Exists (fun d => ~ in_range (ndim x) d)
          (BroadcastedDropout.broadcast_dims self) ->
   BroadcastedDropout.forward_with_state bernoulli scale_kept self x
     weights state (Some k) = Err IndexError) /\
  (ndim x = 1 -> BroadcastedDropout.broadcast_dims self = [(-2)%Z] ->
   BroadcastedDropout.forward_with_state bernoulli scale_kept self x
     weights state (Some k) = Err IndexError) /\
  (Forall (in_range (ndim x)) (BroadcastedDropout.broadcast_dims self) ->
   exists ns,
     BroadcastedDropout.noise_shape (BroadcastedDropout.broadcast_dims self)
       (shape x) = Ok ns /\
     let keep_prob :=
       QArith_base.Qminus (QArith_base.Qmake 1 1)
                          (BroadcastedDropout.rate self) in
     BroadcastedDropout.forward_with_state bernoulli scale_kept self x
       weights state (Some k)
     = Ok (scale_kept x (bernoulli k keep_prob ns) keep_prob, state)).
Proof.
  intros Hm Hr.
  assert (Hon : String.eqb (BroadcastedDropout.mode self) "train"%string
                && negb (QArith_base.Qle_bool (BroadcastedDropout.rate self)
                                              (QArith_base.Qmake 0 1)) = true).
  { rewrite Hm, String.eqb_refl. cbn [andb].
    destruct (QArith_base.Qle_bool (BroadcastedDropout.rate self)
                                   (QArith_base.Qmake 0 1)) eqn:E;
      [|reflexivity].
    apply QArith_base.Qle_bool_iff in E.
    elim (QArith_base.Qlt_not_le _ _ Hr E). }
  unfold BroadcastedDropout.forward_with_state. rewrite Hon.
  split; [|split].
  - intros Hex. now rewrite noise_shape_err.
  - intros Hnd Hd. rewrite noise_shape_err; [reflexivity|].
    rewrite Hd. constructor. unfold in_range, ndim in *. rewrite Hnd. lia.
  - intros Hall. destruct (@noise_shape_ok _ (shape x) Hall) as [ns [Hns _]].
    exists ns. split; [assumption|]. cbn zeta. now rewrite Hns.
Qed.

End Dropout.

(** ** ReversibleHalfResidual: arity, the other round trip, the gradients *)

Lemma zip_with_sub_add (a b : list Z) :
  length a = length b ->
  zip_with Z.add (zip_with Z.sub a b) b = a.
Proof.
  revert b. induction a as [|x a IH]; intros [|y b] Hl; simpl in *;
    try discriminate; [reflexivity|].
  rewrite IH by lia. f_equal. lia.
Qed.

Lemma tensor_sub_add (a b c : tensor) :
  wf a -> wf b -> tensor_sub a b = Ok c -> tensor_add c b = Ok a.
Proof.
  unfold tensor_sub, tensor_add, wf. intros Ha Hb.
  destruct (same_shape a b) eqn:E; [|discriminate].
  intros Hc. injection Hc as <-.
  apply same_shape_true in E.
  unfold same_shape. cbn [shape data]. rewrite E.
  destruct (list_eq_dec Nat.eq_dec (shape b) (shape b)) as [_|Hne];
    [|now elim Hne].
  rewrite zip_with_sub_add by congruence.
  rewrite <- E. now destruct a.
Qed.

Section HalfResidualMore.

Context `{PRNG}.

Lemma list_sum_identity_in (k : nat) :
  list_sum (map n_in (repeat Identity k)) = k.
Proof. induction k as [|k IH]; simpl; congruence. Qed.

Lemma list_sum_identity_out (k : nat) :
  list_sum (map n_out (repeat Identity k)) = k.
Proof. induction k as [|k IH]; simpl; congruence. Qed.

(** The arity of a [Serial] of two layers. *)
Lemma serial2_arity (l1 l2 : Layer) (a b c d : nat) :
  n_in l1 = a -> n_out l1 = b -> n_in l2 = c -> n_out l2 = d ->
  n_in (Serial [l1; l2])
  = Z.to_nat (Z.max (Z.of_nat a) (Z.of_nat a - Z.of_nat b + Z.of_nat c)) /\
  n_out (Serial [l1; l2])
  = Z.to_nat (Z.max (Z.of_nat a) (Z.of_nat a - Z.of_nat b + Z.of_nat c)
              - (Z.of_nat a - Z.of_nat b + Z.of_nat c - Z.of_nat d)).
Proof.
  intros <- <- <- <-. cbn [Serial n_in n_out]. unfold n_inputs_n_outputs.
  cbn [fold_left fst snd]. split; f_equal; lia.
Qed.

(** X16: the arity that [__init__] gives the layer.  Around residual
    layers with at least one input and one output, [n_preserve] is the
    number of outputs of the residual layers, and the layer takes one stack
    item more than they take and returns one more than they return. *)
Theorem X16_half_residual_arity (f : Layer) :
  1 <= n_in f -> 1 <= n_out f ->
  n_preserve (init f) = n_out f /\
  n_in (layer (init f)) = n_in f + 1 /\
  n_out (layer (init f)) = n_out f + 1.
Proof.
  intros Hi Ho.
  assert (Hc : n_in (compute_residual (init f)) = n_in f + 1 /\
               n_out (compute_residual (init f)) = n_out f + 2).
  { unfold init. cbn [compute_residual Serial n_in n_out].
    unfold n_inputs_n_outputs.
    cbn [fold_left fst snd Parallel Swap Select pure_layer n_in n_out map
         list_sum Identity Dup length fold_right Nat.max].
    cbn [Nat.add Nat.max].
    split; lia. }
  destruct Hc as [Hci Hco].
  assert (Hp : n_preserve (init f) = n_out f).
  { change (n_out (compute_residual (init f)) - 2 = n_out f). lia. }
  split; [exact Hp|].
  change (layer (init f))
    with (Serial [compute_residual (init f);
                  Parallel (Add :: repeat Identity (n_preserve (init f)))]).
  destruct (@serial2_arity
              (compute_residual (init f))
              (Parallel (Add :: repeat Identity (n_preserve (init f))))
              (n_in f + 1) (n_out f + 2) (2 + n_out f) (1 + n_out f))
    as [-> ->]; try assumption.
  - change (n_in Add + list_sum (map n_in (repeat Identity (n_preserve (init f))))
            = 2 + n_out f).
    now rewrite list_sum_identity_in, Hp.
  - change (n_out Add
            + list_sum (map n_out (repeat Identity (n_preserve (init f))))
            = 1 + n_out f).
    now rewrite list_sum_identity_out, Hp.
  - split; lia.
Qed.

(** X17: [forward] undoes [reverse].  For well-formed streams of one shape
    and shape-preserving residual layers that run on [x2], [reverse]
    succeeds on [(y1, x2)], whatever the entries of the new state are, and
    the forward pass on what it returns gives [(y1, x2)] back. *)
Theorem X17_forward_reverse (f : Layer) (y1 x2 : tensor)
      (a b c d e w g h i sa sb sc sd se s sg sh si n0 n1 : pytree)
      (ns : list pytree) (rng : option key) (rs : stack) (s' : pytree) :
  n_in f = 1 -> n_out f = 1 -> shape_preserving f ->
  wf y1 -> wf x2 -> shape y1 = shape x2 ->
  forward_with_state f [x2] w s (residual_rng rng) = Ok (rs, s') ->
  exists x,
    reverse (init f) [y1; x2] (tree_of a b c d e w g h i)
            (tree_of sa sb sc sd se s sg sh si) (Tuple (n0 :: n1 :: ns)) rng
    = Ok x /\
    outputs (forward (init f) x (tree_of a b c d e w g h i)
                     (tree_of sa sb sc sd se s sg sh si) rng)
    = Ok [y1; x2].
Proof.
  intros f_in f_out Hsp Hw1 Hw2 Hshape Ef.
  pose proof (shape_preserving_single Hsp) as Hs.
  destruct (Hsp _ _ _ _ _ _ Ef) as [r [-> [Hr Hwr]]].
  assert (Hsame : same_shape y1 r = true)
    by (apply same_shape_true; congruence).
  destruct (tensor_sub y1 r) as [x1|err] eqn:Esub;
    [|unfold tensor_sub in Esub; rewrite Hsame in Esub; discriminate].
  exists [x1; x2]. split.
  - rewrite reverse_eq by assumption. rewrite Ef. cbn [bind].
    now rewrite Esub.
  - rewrite forward_eq by assumption. rewrite Ef. cbn [bind].
    rewrite (tensor_sub_add Hw1 (Hwr Hw2) Esub). reflexivity.
Qed.

(** X18: the gradients that [reverse_and_grad] returns.  With [r] the
    output of the residual layers on [x2], and [g] and [gw] their gradients
    of the input and of the weights for the cotangent [k0] of the first
    stream, [reverse_and_grad] returns the input [(y1 - r, x2)], the
    cotangents [(k0, k1 + g)], and for the weights the gradient [gw] at the
    place of the residual layers, zero at the layers of the combinators. *)
Theorem X18_reverse_and_grad_gradients (f : Layer) (y1 x2 k0 k1 : tensor)
      (a b c d e w g h i sa sb sc sd se s sg sh si ns : pytree)
      (rng : option key) (r x1 gx kx : tensor) (s' gw : pytree) :
  n_in f = 1 -> n_out f = 1 -> single_output f ->
  tree_leaves (Tuple [h; i]) = [] ->
  forward_with_state f [x2] w s (residual_rng rng) = Ok ([r], s') ->
  tensor_sub y1 r = Ok x1 ->
  vjp f [x2] w s (residual_rng rng) [k0] = Ok ([gx], gw) ->
  tensor_add k1 gx = Ok kx ->
  reverse_and_grad (init f) [y1; x2] [k0; k1]
          (tree_of a b c d e w g h i) (tree_of sa sb sc sd se s sg sh si)
          ns rng
  = Ok ([x1; x2],
        ([k0; kx],
         tree_of (zeros_like a) (zeros_like b) (zeros_like c) (zeros_like d)
                 (zeros_like e) gw (zeros_like g) h i)).
Proof.
  intros f_in f_out Hs Hl Ef Esub Ev Eadd.
  rewrite reverse_and_grad_eq by assumption.
  rewrite Ef. cbn [bind]. rewrite Esub. cbn [bind].
  destruct f as [nin nout ffwd fvjp].
  cbn [n_in n_out forward_with_state vjp] in *. subst nin nout.
  unfold init, residual_rng in *. cbn [compute_residual].
  run. rewrite Ef. run. rewrite Ev. run. rewrite Eadd. run.
  reflexivity.
Qed.

(** X19: the assertions of [reverse_and_grad].  A cotangent that does not
    have [n_preserve + 1] entries raises [AssertionError] before anything is
    computed; and when the weights of the last layer have a leaf,
    [reverse_and_grad] does not return. *)
Theorem X19_reverse_and_grad_assertions (self : t) (output ct : stack)
        (weights state new_state : pytree) (rng : option key) :
  (length ct <> n_preserve self + 1 ->
   reverse_and_grad self output ct weights state new_state rng
   = Err AssertionError) /\
  (forall ws w_last,
      weights = Tuple ws -> index_last ws = Ok w_last ->
      tree_leaves w_last <> [] ->
      forall res,
        reverse_and_grad self output ct weights state new_state rng
        <> Ok res).
Proof.
  split.
  - intros Hl. unfold reverse_and_grad, assert.
    destruct (Nat.eqb_spec (length ct) (n_preserve self + 1)) as [E|_];
      [contradiction|reflexivity].
  - intros ws w_last -> Hlast Hleaf res E.
    unfold reverse_and_grad in E. cbn [as_tuple bind] in E.
    repeat match type of E with
           | bind _ _ = Ok _ =>
               let v := fresh "v" in
               let Hv := fresh "Hv" in
               apply bind_ok in E; destruct E as [v [Hv E]]; cbv beta in E
           end.
    match goal with
    | Hx : index_last ws = Ok ?p |- _ =>
        rewrite Hlast in Hx; injection Hx as Hx; subst p
    end.
    match type of E with
    | match ?p with _ => _ end = _ => destruct p as [x_ct w_ct]
    end.
    apply bind_ok in E. destruct E as [u [Ea _]].
    unfold assert in Ea.
    destruct (tree_leaves w_last); [now elim Hleaf|discriminate].
Qed.

End HalfResidualMore.

(** ** The attention wrapper and the attention half-residual *)

Module AAW := ApplyAttentionWrapper.

(** Inversion of a chain of binds that returns. *)
Ltac bind_inv E :=
  repeat match type of E with
         | bind _ _ = Ok _ =>
             let v := fresh "v" in
             let Hv := fresh "Hv" in
             apply bind_ok in E; destruct E as [v [Hv E]]; cbv beta in E
         | match ?p with (_, _) => _ end = Ok _ => destruct p
         end.

Section AttentionMore.

Context `{PRNG}.

(** X20: the fused operation of the wrapper agrees with the wrapper as a
    layer.  For an attention from three tensors to one with a fused
    operation and no weights, on queries, keys, values and two more items:
    when the forward pass of [Parallel(attention, [], [])] returns [ys] and
    its reverse-mode differentiation returns the cotangents [x_ct],
    [forward_and_backward] returns [ys] and [x_ct], for every new state:
    the generator it hands to the attention is that of the forward pass. *)
Theorem X20_wrapper_forward_and_backward (att : AttentionLayer)
        (q k v p1 p2 c0 c1 c2 : tensor)
        (w e1 e2 s s1 s2 ns ns1 ns2 : pytree) (rng : option key)
        (ys x_ct : stack) (st w_ct : pytree) :
  n_in (attention_layer att) = 3 -> n_out (attention_layer att) = 1 ->
  RAHR.returns (attention_layer att) 1 ->
  RAHR.pulls_back (attention_layer att) 3 ->
  RAHR.fused att -> tree_leaves w = [] ->
  forward_with_state (AAW.layer (AAW.init att)) [q; k; v; p1; p2]
    (Tuple [w; e1; e2]) (Tuple [s; s1; s2]) rng = Ok (ys, st) ->
  vjp (AAW.layer (AAW.init att)) [q; k; v; p1; p2]
    (Tuple [w; e1; e2]) (Tuple [s; s1; s2]) rng [c0; c1; c2]
  = Ok (x_ct, w_ct) ->
  AAW.forward_and_backward (AAW.init att) [q; k; v; p1; p2] [c0; c1; c2]
    (Tuple [s; s1; s2]) (Tuple [ns; ns1; ns2]) rng
  = Ok (ys, x_ct).
Proof.
  intros att_in att_out Hret Hpull Hfused Hleaf.
  unfold RAHR.returns, RAHR.pulls_back, RAHR.fused in *.
  destruct att as [[nin nout afwd avjp] afab].
  cbn [n_in n_out forward_with_state vjp attention_layer
       attention_forward_and_backward] in *.
  subst nin nout.
  unfold AAW.init, AAW.forward_and_backward.
  cbn [AAW.layer AAW.attention AAW.n_layers attention_layer
       attention_forward_and_backward].
  run.
  intros Ef Ev.
  destruct (afwd [q; k; v] w s (rng_at rng 3 0)) as [[o s']|err] eqn:Ea;
    [|discriminate].
  destruct (length_1 _ (Hret _ _ _ _ _ _ Ea)) as [o1 ->].
  run_in Ef. injection Ef as <- <-.
  destruct (avjp [q; k; v] w s (rng_at rng 3 0) [c0]) as [[g gw]|err] eqn:Eg;
    [|discriminate].
  destruct (length_3 _ (Hpull _ _ _ _ _ _ _ Eg)) as [gq [gk [gv ->]]].
  run_in Ev. injection Ev as <- <-.
  destruct (Hfused _ _ _ _ _ ns _ _ _ _ Hleaf Ea Eg) as [Efab _].
  replace (match rng with
           | Some _ => Ok (rng_at rng 3 0)
           | None => Ok None
           end) with (Ok (rng_at rng 3 0))
    by (destruct rng; reflexivity).
  run. rewrite Efab. reflexivity.
Qed.

(** X21: the forward pass of [ReversibleAttentionHalfResidual].  On
    [(x1, x2)] it returns [(x1 + z, x2)] where [z] is post-attention of
    attention of pre-attention of the second stream [x2], each with its own
    weights, state and generator; the first stream reaches the addition
    only, and the new state holds the new states of the three. *)
Theorem X21_attention_forward_residual
        (pre : Layer) (att : AttentionLayer) (post : Layer) (x1 x2 : tensor)
        (wpre watt wpost spre satt spost : pytree) (rng : option key) :
  RAHR.fits pre att post ->
  RAHR.forward (RAHR.init pre att post) [x1; x2]
               (RAHR.tree_of wpre watt wpost) (RAHR.tree_of spre satt spost) rng
  = '(z, ss) <- RAHR.residual_chain pre att post x2 wpre watt wpost
                  spre satt spost (RAHR.sub_rngs rng) ;;
    y1 <- tensor_add x1 z ;;
    let '(spre', satt', spost') := ss in
    Ok ([y1; x2], RAHR.tree_of spre' satt' spost').
Proof. exact (@attention_forward_eq _ pre att post x1 x2 wpre watt wpost
                spre satt spost rng). Qed.

(** X22: the assertions of the fused [reverse_and_grad].  It does not
    return when the cotangent does not have two entries, when the weights of
    the attention have a leaf (an attention with weights cannot be used
    here), or when the weights of the last layer have one. *)
Theorem X22_attention_reverse_and_grad_assertions (self : RAHR.t)
        (output ct : stack) (ws : list pytree) (state new_state : pytree)
        (rng : option key) :
  (length ct <> 2 \/
   (exists w1, index ws 1 = Ok w1 /\ tree_leaves w1 <> []) \/
   (exists w_last, index_last ws = Ok w_last /\ tree_leaves w_last <> [])) ->
  forall res,
    RAHR.reverse_and_grad self output ct (Tuple ws) state new_state rng
    <> Ok res.
Proof.
  intros Hbad res E.
  unfold RAHR.reverse_and_grad in E. cbn [as_tuple bind] in E.
  bind_inv E.
  injection E as _.
  unfold assert in *.
  destruct Hbad as [Hl|[[w1 [Hw1 Hleaf]]|[wl [Hwl Hleaf]]]].
  - destruct (Nat.eqb_spec (length ct) 2) as [E2|_];
      [contradiction|discriminate].
  - match goal with
    | Hx : index ws 1 = Ok ?p |- _ =>
        rewrite Hw1 in Hx; injection Hx as Hx; subst p
    end.
    destruct (tree_leaves w1); [now elim Hleaf|discriminate].
  - match goal with
    | Hx : index_last ws = Ok ?p |- _ =>
        rewrite Hwl in Hx; injection Hx as Hx; subst p
    end.
    destruct (tree_leaves wl); [now elim Hleaf|discriminate].
Qed.

End AttentionMore.

(** ** The decoder block *)

Section DecoderBlocks.

Context `{PRNG}.

(** The arity of the two half-residual layers of a block. *)
Lemma half_residual_layer_arity (f : Layer) :
  n_in f = 1 -> n_out f = 1 ->
  n_in (RHR.layer (RHR.init f)) = 2 /\ n_out (RHR.layer (RHR.init f)) = 2.
Proof.
  intros Hi Ho. destruct f as [nin nout ffwd fvjp]. cbn [n_in n_out] in *.
  subst. split; reflexivity.
Qed.

Lemma attention_layer_arity (pre : Layer) (att : AttentionLayer)
      (post : Layer) :
  RAHR.fits pre att post ->
  n_in (RAHR.layer (RAHR.init pre att post)) = 2 /\
  n_out (RAHR.layer (RAHR.init pre att post)) = 2.
Proof.
  intros [[pre_in [pre_out _]] [[att_in [att_out _]] [post_in [post_out _]]]].
  destruct pre as [nin nout pfwd pvjp].
  destruct post as [nin' nout' qfwd qvjp].
  destruct att as [[nin'' nout'' afwd avjp] afab].
  cbn [n_in n_out attention_layer] in *. subst. split; reflexivity.
Qed.

(** Two layers on two streams with a swap after each. *)
Lemma swapped_pair_forward (A B : Layer) (x1 x2 : tensor)
      (wa w1 wb w3 sa s1 sb s3 : pytree) (rng : option key) :
  n_in A = 2 -> n_out A = 2 -> n_in B = 2 -> n_out B = 2 ->
  (forall ys sa',
      forward_with_state A [x1; x2] wa sa (rng_at rng 4 0) = Ok (ys, sa') ->
      length ys = 2) ->
  (forall u v zs sb',
      forward_with_state B [u; v] wb sb (rng_at rng 4 2) = Ok (zs, sb') ->
      length zs = 2) ->
  forward_with_state (Serial [A; Swap; B; Swap]) [x1; x2]
    (Tuple [wa; w1; wb; w3]) (Tuple [sa; s1; sb; s3]) rng
  = '(ys, sa') <- forward_with_state A [x1; x2] wa sa (rng_at rng 4 0) ;;
    match ys with
    | [y1; y2] =>
        '(zs, sb') <- forward_with_state B [y2; y1] wb sb (rng_at rng 4 2) ;;
        match zs with
        | [z1; z2] => Ok ([z2; z1], Tuple [sa'; s1; sb'; s3])
        | _ => Err ValueError
        end
    | _ => Err ValueError
    end.
Proof.
  intros a_in a_out b_in b_out Ha Hb.
  destruct A as [nin nout afwd avjp]. destruct B as [nin' nout' bfwd bvjp].
  cbn [n_in n_out forward_with_state] in *. subst.
  run.
  destruct (afwd [x1; x2] wa sa _) as [[ys sa']|err]; [|reflexivity].
  pose proof (Ha _ _ eq_refl) as Hl.
  destruct ys as [|y1 [|y2 [|y3 ys]]]; try discriminate.
  run.
  destruct (bfwd [y2; y1] wb sb _) as [[zs sb']|err] eqn:Eb; [|reflexivity].
  pose proof (Hb _ _ _ _ Eb) as Hl'.
  destruct zs as [|z1 [|z2 [|z3 zs]]]; try discriminate.
  run. reflexivity.
Qed.

(** X23: the forward pass of a decoder block.  The layers that
    [DecoderBlock] returns, run in order on [(x1, x2)], return
    [(y1, y2)] with [y1 = x1 + z] for [z] the attention residual of [x2]
    (post-attention of attention of pre-attention), and [y2 = x2 + r] for
    [r] the output of the feed-forward layers on [y1]. *)
Theorem X23_decoder_block_forward
        (pre : Layer) (att : AttentionLayer) (post ff : Layer)
        (x1 x2 : tensor)
        (wpre watt wpost spre satt spost wff sff w1 w3 s1 s3 : pytree)
        (rng : option key) :
  RAHR.fits pre att post ->
  n_in ff = 1 -> n_out ff = 1 -> RHR.single_output ff ->
  forward_with_state (Serial (DecoderBlock pre att post ff)) [x1; x2]
    (Tuple [RAHR.tree_of wpre watt wpost; w1; RHR.weights_of wff; w3])
    (Tuple [RAHR.tree_of spre satt spost; s1; RHR.weights_of sff; s3]) rng
  = '(z, ss) <- RAHR.residual_chain pre att post x2 wpre watt wpost
                  spre satt spost (RAHR.sub_rngs (rng_at rng 4 0)) ;;
    y1 <- tensor_add x1 z ;;
    '(rs, sff') <- forward_with_state ff [y1] wff sff
                     (RHR.residual_rng (rng_at rng 4 2)) ;;
    match rs with
    | [r] =>
        y2 <- tensor_add x2 r ;;
        let '(spre', satt', spost') := ss in
        Ok ([y1; y2],
            Tuple [RAHR.tree_of spre' satt' spost'; s1;
                   RHR.weights_of sff'; s3])
    | _ => Err ValueError
    end.
Proof.
  intros Hfits ff_in ff_out Hs.
  destruct (attention_layer_arity Hfits) as [a_in a_out].
  destruct (half_residual_layer_arity ff ff_in ff_out) as [b_in b_out].
  unfold DecoderBlock, ReversibleSwap.
  assert (HA : forall x ys sa',
             forward_with_state (RAHR.layer (RAHR.init pre att post)) [x1; x]
               (RAHR.tree_of wpre watt wpost) (RAHR.tree_of spre satt spost)
               (rng_at rng 4 0) = Ok (ys, sa') -> length ys = 2).
  { intros x ys sa'.
    change (forward_with_state (RAHR.layer (RAHR.init pre att post)))
      with (RAHR.forward (RAHR.init pre att post)).
    rewrite attention_forward_eq by assumption.
    destruct (RAHR.residual_chain _ _ _ _ _ _ _ _ _ _ _)
      as [[z [[spre' satt'] spost']]|err]; [|discriminate].
    cbn [bind]. destruct (tensor_add x1 z); [|discriminate].
    cbn [bind]. intros E. now injection E as <- _. }
  assert (HB : forall u v zs sb',
             forward_with_state (RHR.layer (RHR.init ff)) [u; v]
               (RHR.weights_of wff) (RHR.weights_of sff)
               (rng_at rng 4 2) = Ok (zs, sb') -> length zs = 2).
  { intros u v zs sb'.
    change (forward_with_state (RHR.layer (RHR.init ff)))
      with (RHR.forward (RHR.init ff)).
    unfold RHR.weights_of. rewrite forward_eq by assumption.
    destruct (forward_with_state ff [v] wff sff _) as [[rs s']|err] eqn:Ef;
      [|discriminate].
    destruct (Hs _ _ _ _ _ _ Ef) as [r ->]. cbn [bind].
    destruct (tensor_add u r); [|discriminate].
    cbn [bind]. intros E. now injection E as <- _. }
  rewrite swapped_pair_forward; try assumption; [|apply HA].
  change (forward_with_state (RAHR.layer (RAHR.init pre att post)))
    with (RAHR.forward (RAHR.init pre att post)).
  rewrite attention_forward_eq by assumption.
  destruct (RAHR.residual_chain _ _ _ _ _ _ _ _ _ _ _)
    as [[z [[spre' satt'] spost']]|err]; [|reflexivity].
  cbn [bind]. destruct (tensor_add x1 z) as [y1|err]; [|reflexivity].
  cbn [bind].
  change (forward_with_state (RHR.layer (RHR.init ff)))
    with (RHR.forward (RHR.init ff)).
  unfold RHR.weights_of at 1 2. rewrite forward_eq by assumption.
  destruct (forward_with_state ff [y1] wff sff _) as [[rs s']|err] eqn:Ef;
    [|reflexivity].
  destruct (Hs _ _ _ _ _ _ Ef) as [r ->]. cbn [bind].
  destruct (tensor_add x2 r) as [y2|err]; reflexivity.
Qed.

End DecoderBlocks.

(** ** The attention classes of the decoder blocks *)

Lemma mapM_pure {A B : Type} (f : A -> result B) (g : A -> B) (l : list A) :
  (forall a, In a l -> f a = Ok (g a)) -> mapM f l = Ok (map g l).
Proof.
  induction l as [|a l IH]; intros Hf; [reflexivity|].
  cbn [mapM map]. rewrite (Hf a (or_introl eq_refl)). cbn [bind].
  rewrite IH by (intros; apply Hf; now right). reflexivity.
Qed.

Lemma concat_repeat_snoc {A : Type} (x : list A) (k : nat) :
  concat (repeat x k) ++ x = x ++ concat (repeat x k).
Proof.
  induction k as [|k IH]; cbn [repeat concat].
  - now rewrite app_nil_r.
  - now rewrite <- app_assoc, IH.
Qed.

Lemma map_seq_offset {B : Type} (f : nat -> B) (s n : nat) :
  map f (seq s n) = map (fun j => f (s + j)) (seq 0 n).
Proof.
  revert s. induction n as [|n IH]; intros s; [reflexivity|].
  cbn [seq map]. rewrite Nat.add_0_r. f_equal.
  rewrite IH, <- seq_shift, map_map.
  apply map_ext. intros j. now rewrite Nat.add_succ_r.
Qed.

(** Going [k] times round a list. *)
Lemma map_cycle {A B : Type} (g : A -> B) (l : list A) (d : A) (k : nat) :
  map (fun i => g (nth (i mod length l) l d)) (seq 0 (k * length l))
  = concat (repeat (map g l) k).
Proof.
  induction k as [|k IH]; [reflexivity|].
  replace (S k * length l) with (k * length l + length l) by lia.
  rewrite seq_app, map_app, IH. cbn [repeat concat Nat.add].
  rewrite <- concat_repeat_snoc. f_equal.
  rewrite map_seq_offset.
  transitivity (map g (map (fun j => nth j l d) (seq 0 (length l))));
    [|now rewrite map_nth_seq].
  rewrite map_map. apply map_ext_in. intros j Hj. apply in_seq in Hj.
  rewrite Nat.add_comm, Nat.Div0.mod_add, Nat.mod_small by lia.
  reflexivity.
Qed.

Section Schedule.

Variable attention_class : Type.
Variable is_lsh : attention_class -> bool.

(** X24: the attention classes of the decoder blocks of [ReformerLM].  A
    single class is used by every block.  A list of classes is gone round
    as many times as it fits into [n_layers], so that every class is used
    by equally many blocks; a list that does not divide [n_layers] fails the
    assertion, and an empty list raises [ZeroDivisionError].  A block
    shares queries and keys when [share_qk] is set or its class is an LSH
    attention. *)
Theorem X24_decoder_block_arguments (n_layers : nat) (share_qk : bool) :
  let arg := fun c => (c, share_qk || is_lsh c) in
  (forall c,
      decoder_block_arguments is_lsh n_layers (OneClass c) share_qk
      = Ok (repeat (arg c) n_layers)) /\
  decoder_block_arguments is_lsh n_layers (Classes []) share_qk
  = Err ZeroDivisionError /\
  (forall l,
      l <> [] -> n_layers mod length l <> 0 ->
      decoder_block_arguments is_lsh n_layers (Classes l) share_qk
      = Err AssertionError) /\
  (forall l k,
      l <> [] -> n_layers = k * length l ->
      decoder_block_arguments is_lsh n_layers (Classes l) share_qk
      = Ok (concat (repeat (map arg l) k))).
Proof.
  intros arg.
  assert (Hloop : forall l (d : attention_class) k,
             l <> [] ->
             mapM (fun layer_idx =>
                     i <- py_mod layer_idx (length l) ;;
                     layer_attention_type <- index l i ;;
                     Ok (layer_attention_type,
                         share_qk || is_lsh layer_attention_type))
                  (seq 0 (k * length l))
             = Ok (concat (repeat (map arg l) k))).
  { intros l d k Hne.
    assert (Hlen : length l <> 0) by (destruct l; [now elim Hne|discriminate]).
    rewrite <- (map_cycle arg l d k).
    apply mapM_pure. intros i _. unfold py_mod.
    destruct (Nat.eqb_spec (length l) 0) as [Hz|_]; [contradiction|].
    cbn [bind]. unfold index.
    rewrite (nth_error_nth' l d) by (apply Nat.mod_upper_bound; assumption).
    reflexivity. }
  split; [|split; [|split]].
  - intros c. unfold decoder_block_arguments. cbn [bind length].
    pose proof (Hloop [c] c n_layers) as Hc. cbn [length] in Hc.
    rewrite Nat.mul_1_r in Hc. rewrite Hc by discriminate.
    f_equal. clear. induction n_layers as [|n IH]; [reflexivity|].
    cbn [repeat concat]. rewrite IH. reflexivity.
  - reflexivity.
  - intros l Hne Hm. unfold decoder_block_arguments, py_mod, assert.
    destruct (Nat.eqb_spec (length l) 0) as [Hz|_].
    + destruct l; [now elim Hne|discriminate].
    + cbn [bind].
      destruct (Nat.eqb_spec (n_layers mod length l) 0) as [E|_];
        [contradiction|reflexivity].
  - intros l k Hne ->. unfold decoder_block_arguments, py_mod, assert.
    destruct (Nat.eqb_spec (length l) 0) as [Hz|_].
    + destruct l; [now elim Hne|discriminate].
    + cbn [bind]. rewrite Nat.Div0.mod_mul. cbn [Nat.eqb bind].
      destruct l as [|c l']; [now elim Hne|].
      apply (Hloop (c :: l') c k). discriminate.
Qed.

End Schedule.

(** ** Shortening and prolonging *)

(** X26: prolonging undoes shortening.  On a tensor of shape
    [batch, length, depth] with a non-empty batch and a non-zero length
    that is a multiple of [shorten_factor], the shortening layer returns
    the entries under the shape
    [batch, length / shorten_factor, shorten_factor * depth], and the
    prolonging layer returns the tensor itself from that. *)
Theorem X26_prolong_shorten (shorten_factor b l d : nat) (entries : list Z) :
  b <> 0 -> l <> 0 -> shorten_factor <> 0 -> l mod shorten_factor = 0 ->
  let x := mkTensor [b; l; d] entries in
  let c := mkTensor [b; l / shorten_factor; shorten_factor * d] entries in
  shorten shorten_factor x = Ok c /\ prolong shorten_factor c = Ok x.
Proof.
  intros Hb Hl HF Hm x c.
  assert (Hs : l = shorten_factor * (l / shorten_factor))
    by (apply Nat.Div0.div_exact; assumption).
  assert (Hq : l / shorten_factor <> 0) by (intros E; rewrite E in Hs; lia).
  unfold shorten, prolong, shape_at, py_floordiv, np_reshape_rest, x, c.
  cbn [shape data nth_error bind prod fold_right].
  destruct (Nat.eqb_spec shorten_factor 0) as [Hz|_]; [contradiction|].
  cbn [bind]. rewrite !Nat.mul_1_r.
  set (q := l / shorten_factor) in *.
  assert (E1 : b * (l * d) = (shorten_factor * d) * (b * q)) by (rewrite Hs; lia).
  split.
  - destruct (Nat.eqb_spec (b * q) 0) as [Hz|_]; [nia|].
    rewrite E1, Nat.Div0.mod_mul, Nat.div_mul by nia. reflexivity.
  - replace (q * shorten_factor) with l by lia.
    replace (b * (q * (shorten_factor * d))) with (d * (b * l)) by nia.
    destruct (Nat.eqb_spec (b * l) 0) as [Hz|_]; [nia|].
    rewrite Nat.Div0.mod_mul, Nat.div_mul by nia. reflexivity.
Qed.

(** X27: the shortening layer does not check that the length is a multiple
    of [shorten_factor].  When it is not, the layer may still return, with
    a length rounded down; prolonging what it returns never gives the
    tensor back. *)
Theorem X27_shorten_not_divisible (shorten_factor : nat) (x c : tensor)
        (b l : nat) (rest : list nat) :
  shape x = b :: l :: rest ->
  l mod shorten_factor <> 0 ->
  shorten shorten_factor x = Ok c ->
  nth 1 (shape c) 0 = l / shorten_factor /\
  prolong shorten_factor c <> Ok x.
Proof.
  intros Hsh Hm.
  unfold shorten, prolong, shape_at, py_floordiv, np_reshape_rest.
  rewrite Hsh. cbn [nth_error bind].
  destruct (Nat.eqb_spec shorten_factor 0) as [Hz|HF]; [discriminate|].
  cbn [bind].
  destruct ((b * (l / shorten_factor) =? 0) || _); [discriminate|].
  intros E. injection E as <-. cbn [shape nth nth_error bind data].
  split; [reflexivity|].
  destruct ((b * (l / shorten_factor * shorten_factor) =? 0) || _);
    [discriminate|].
  intros E. destruct x as [sh entries]. cbn [shape data] in *. subst sh.
  injection E as E _. 
  assert (Hs : l = shorten_factor * (l / shorten_factor) + l mod shorten_factor)
    by (apply Nat.div_mod_eq).
  lia.
Qed.

(** ** The theorems on the example layers *)

Lemma C4_forward_residual_witness :
  forward example_half_residual [vec 10; vec 5] example_weights example_state
          (Some [])
  = Ok ([vec 25; vec 5], example_state).
Proof.
  exact (@C4_forward_residual path_prng scale (vec 10) (vec 5)
           empty empty empty empty empty (Leaf (scalar 3)) empty empty empty
           empty empty empty empty empty empty empty empty empty (Some [])
           eq_refl eq_refl (shape_preserving_single scale_shape_preserving)).
Defined.

Lemma C1_reverse_forward_witness :
  exists y ns,
    forward example_half_residual [vec 10; vec 5] example_weights example_state
            (Some []) = Ok (y, ns) /\
    reverse example_half_residual y example_weights example_state ns (Some [])
    = Ok [vec 10; vec 5].
Proof.
  exact (@C1_reverse_forward path_prng scale (vec 10) (vec 5)
           empty empty empty empty empty (Leaf (scalar 3)) empty empty empty
           empty empty empty empty empty empty empty empty empty (Some [])
           [vec 15] empty
           eq_refl eq_refl scale_shape_preserving eq_refl eq_refl eq_refl
           eq_refl).
Defined.

Lemma C2_reverse_and_grad_naive_witness :
  reverse example_half_residual [vec 25; vec 5] example_weights example_state
          example_state (Some []) = Ok [vec 10; vec 5] /\
  reverse_and_grad example_half_residual [vec 25; vec 5] [vec 1; vec 100]
                   example_weights example_state example_state (Some [])
  = Ok ([vec 10; vec 5],
        ([vec 1; vec 103],
         ReversibleHalfResidual.weights_of (Leaf (scalar 5)))).
Proof.
  exact (@C2_reverse_and_grad_naive path_prng scale (vec 10) (vec 5)
           (vec 1) (vec 100)
           empty empty empty empty empty (Leaf (scalar 3)) empty empty empty
           empty empty empty empty empty empty empty empty empty (Some [])
           [vec 25; vec 5] example_state
           eq_refl eq_refl scale_shape_preserving eq_refl eq_refl eq_refl
           eq_refl).
Defined.

Lemma C3_attention_half_residual_witness :
  outputs (RAHR.forward (RAHR.init triple double_value scale) [vec 10; vec 5]
             (RAHR.tree_of empty empty (Leaf (scalar 3)))
             (RAHR.tree_of empty empty empty) None)
  = outputs (RHR.forward (RAHR.naive triple double_value scale) [vec 10; vec 5]
               (RAHR.naive_tree_of empty empty (Leaf (scalar 3)))
               (RAHR.naive_tree_of empty empty empty) None)
  /\
  exists gpre gpost,
    RAHR.reverse_and_grad (RAHR.init triple double_value scale)
      [vec 40; vec 5] [vec 1; vec 100]
      (RAHR.tree_of empty empty (Leaf (scalar 3)))
      (RAHR.tree_of empty empty empty) (RAHR.tree_of empty empty empty) None
    = Ok ([vec 10; vec 5],
          ([vec 1; vec 106], RAHR.tree_of gpre empty gpost)).
Proof.
  destruct (@C3_attention_half_residual path_prng triple double_value scale
              (vec 10) (vec 5) (vec 1) (vec 100)
              empty empty (Leaf (scalar 3)) empty empty empty None
              example_fits (same_generators_none _ _ _)) as [Hf [Hg _]].
  split; [exact Hf|].
  destruct (Hg double_value_fused scale_linear double_value_output eq_refl
               (vec 40) (RAHR.naive_tree_of empty empty empty)
               empty empty empty
               [vec 10; vec 5] [vec 1; vec 106]
               (RAHR.naive_tree_of empty empty (Leaf (scalar 10))) eq_refl)
    as (gpre & gpost & _ & E).
  exists gpre, gpost. exact E.
Defined.

(** C8, as the spec has it, fails: [reverse] with an empty new state, which
    is not aligned with the two reverse layers, returns a value. *)
Lemma C8_alignment_counterexample :
  ~ (forall (output : stack) (weights state new_state : pytree)
            (rng : option key),
        ~ (aligned example_half_residual state /\
           aligned example_half_residual new_state) ->
        exists e,
          reverse example_half_residual output weights state new_state rng
          = Err e).
Proof.
  intros Hc.
  destruct (Hc [vec 25; vec 5] example_weights example_state empty (Some []))
    as [e He].
  - intros [_ [l [Hl Hn]]]. injection Hl as <-. discriminate.
  - discriminate.
Qed.

Lemma C9_chain_memory_witness :
  (exists ms,
      Chain.run_forward [example_step; example_step]
                        (Chain.start [example_step; example_step]
                                     [vec 10; vec 5]) = Ok ms /\
      length ms = 2 /\
      Forall (fun m => length (Chain.held m) = 1 /\
                       length (Chain.parameters m) = 2) ms /\
      Chain.held (last ms (Chain.start [example_step; example_step]
                                       [vec 10; vec 5]))
      = [[vec 40; vec 5]]) /\
  (exists x_ct p_cts,
      Chain.run_backward [example_step; example_step] [vec 40; vec 5]
                         [vec 1; vec 100]
      = Ok ([vec 10; vec 5], x_ct, p_cts, [[vec 25; vec 5]; [vec 10; vec 5]]) /\
      length p_cts = 2).
Proof.
  apply (@C9_chain_memory [example_step; example_step] [vec 10; vec 5]
           [vec 1; vec 100] [[vec 10; vec 5]; [vec 25; vec 5]; [vec 40; vec 5]]).
  - apply Forall_cons; [exact example_step_reversible|].
    apply Forall_cons; [exact example_step_reversible|]. apply Forall_nil.
  - exists (vec 10), (vec 5). repeat split; reflexivity.
  - exists (vec 1), (vec 100). repeat split; reflexivity.
  - reflexivity.
Defined.

Lemma C6_split_for_output_round_trip_witness :
  exists ys,
    SplitForOutput.forward example_split [example_x1; example_x2] = Ok ys /\
    SplitForOutput.reverse example_split ys = Ok [example_x1; example_x2] /\
    (shape example_x1 = [2; 8; 4] -> example_split = SplitForOutput.mk 2 (-2) ->
     map shape ys = [[2; 4; 8]; [2; 4; 8]]).
Proof.
  apply (@C6_split_for_output_round_trip example_split example_x1 example_x2 1);
    reflexivity.
Defined.

Lemma C5_unchunk_chunk_witness :
  exists c,
    Chunk (mkTensor [2; 4; 1] [1; 2; 3; 4; 5; 6; 7; 8]%Z) 2 = Ok c /\
    shape c = [4; 2; 1] /\
    data c = [1; 2; 3; 4; 5; 6; 7; 8]%Z /\
    Unchunk c 2 = Ok (mkTensor [2; 4; 1] [1; 2; 3; 4; 5; 6; 7; 8]%Z).
Proof.
  apply (@C5_unchunk_chunk (mkTensor [2; 4; 1] [1; 2; 3; 4; 5; 6; 7; 8]%Z) 2 2 4);
    reflexivity.
Defined.

Lemma C7_chunk_divisibility_witness :
  (py_mod 3 2 <> Ok 0 ->
   exists e, Chunk (mkTensor [2; 3] [1; 2; 3; 4; 5; 6]%Z) 2 = Err e /\
             (2 <> 0 -> e = AssertionError)) /\
  Chunk (mkTensor [2; 3] [1; 2; 3; 4; 5; 6]%Z) 1
  = Ok (mkTensor [2; 3] [1; 2; 3; 4; 5; 6]%Z).
Proof.
  apply (@C7_chunk_divisibility (mkTensor [2; 3] [1; 2; 3; 4; 5; 6]%Z) 2 3).
  reflexivity.
Defined.

Lemma C10_split_reverse_and_grad_witness :
  exists x_ct,
    SplitForOutput.reverse example_split example_ct = Ok x_ct /\
    SplitForOutput.reverse_and_grad example_split example_output example_ct
    = Ok ([example_x1; example_x2], (x_ct, empty)) /\
    inner example_output example_ct = inner [example_x1; example_x2] x_ct.
Proof.
  destruct (C10_split_reverse_and_grad example_split example_output example_ct)
    as [_ [_ Hgrad]].
  apply (Hgrad example_x1 example_x2 1); try reflexivity.
  apply Forall2_cons; [split; reflexivity|].
  apply Forall2_cons; [split; reflexivity|].
  apply Forall2_nil.
Defined.

(** ** The further theorems on examples *)

Lemma X3_chunk_unchunk_witness :
  Chunk (mkTensor [2; 6; 2] (iota 0 24)) 2 = Ok (mkTensor [4; 3; 2] (iota 0 24)).
Proof.
  apply (@X3_chunk_unchunk (mkTensor [4; 3; 2] (iota 0 24))
           (mkTensor [2; 6; 2] (iota 0 24)) 2).
  reflexivity.
Defined.

Lemma X4_chunk_compose_witness :
  Chunk (mkTensor [1; 12; 2] (iota 0 24)) (2 * 3)
  = Ok (mkTensor [6; 2; 2] (iota 0 24)).
Proof.
  apply (@X4_chunk_compose (mkTensor [1; 12; 2] (iota 0 24))
           (mkTensor [2; 6; 2] (iota 0 24))
           (mkTensor [6; 2; 2] (iota 0 24)) 2 3); reflexivity.
Defined.

Lemma X6_reshape_as_chunks_witness :
  reshape_as (mkTensor [3; 1; 2; 4] (iota 0 24)) (mkTensor [2; 3; 4] (iota 0 24))
  = Ok (mkTensor [2; 3; 4] (iota 0 24)).
Proof.
  exact (proj1 (@X6_reshape_as_chunks 2 (mkTensor [2; 3; 4] (iota 0 24))
                  (mkTensor [3; 1; 2; 4] (iota 0 24)) eq_refl)).
Defined.

Lemma X7_split_forward_shapes_witness :
  exists ys,
    SplitForOutput.forward example_split [example_x1; example_x2] = Ok ys /\
    length ys = 2 /\
    Forall (fun y => shape y = [2; 4; 8]) ys.
Proof.
  exact (@X7_split_forward_shapes example_split example_x1 example_x2 1
           eq_refl eq_refl eq_refl eq_refl eq_refl).
Defined.

Lemma X8_split_forward_failures_witness :
  SplitForOutput.forward (SplitForOutput.mk 2 5) [example_x1; example_x2]
  = Err IndexError /\
  SplitForOutput.forward (SplitForOutput.mk 0 (-2)) [example_x1; example_x2]
  = Err ZeroDivisionError /\
  SplitForOutput.forward (SplitForOutput.mk 3 (-2)) [example_x1; example_x2]
  = Err ValueError.
Proof.
  split; [|split].
  - apply (proj1 (proj2 (X8_split_forward_failures (SplitForOutput.mk 2 5)))).
    reflexivity.
  - apply (proj2 (proj2 (X8_split_forward_failures (SplitForOutput.mk 0 (-2))))
             example_x1 example_x2 1); reflexivity.
  - apply (proj2 (proj2 (X8_split_forward_failures (SplitForOutput.mk 3 (-2))))
             example_x1 example_x2 1); [reflexivity|discriminate|discriminate].
Defined.

Lemma X9_split_reverse_failures_witness :
  SplitForOutput.reverse example_split [mkTensor [2; 3] (iota 0 6)]
  = Err ValueError.
Proof.
  apply (proj2 (proj2 (X9_split_reverse_failures example_split)));
    discriminate.
Defined.

Lemma X10_split_forward_reverse_witness :
  exists x1 x2,
    SplitForOutput.reverse example_split example_ct = Ok [x1; x2] /\
    SplitForOutput.forward example_split [x1; x2] = Ok example_ct.
Proof.
  apply (@X10_split_forward_reverse example_split example_ct [2; 4] 4 1).
  - discriminate.
  - reflexivity.
  - intros y [<-|[<-|[]]]; split; reflexivity.
  - reflexivity.
Defined.

Lemma X25_split_single_section_witness :
  SplitForOutput.forward (SplitForOutput.mk 1 (-2)) [example_x1; example_x2]
  = (y <- np_concatenate [example_x1; example_x2] (-1) ;; Ok [y]).
Proof.
  exact (@X25_split_single_section (-2) example_x1 example_x2 1 1
           eq_refl eq_refl eq_refl eq_refl).
Defined.

Section MapExample.

Import (notations) String.

Lemma X11_map_new_weights_and_state_witness :
  Map.new_weights_and_state (Map.mk zero_init 2 true)
    (Map.Several [Map.mkShapeDtype [2; 3] "float32";
                  Map.mkShapeDtype [2; 4] "float32"])
  = Err ValueError /\
  Map.new_weights_and_state (Map.mk zero_init 2 false)
    (Map.Several [Map.mkShapeDtype [1; 2] "float32";
                  Map.mkShapeDtype [2; 4] "float32"])
  = Ok (Leaf (mkTensor [1; 2] [0%Z; 0%Z]), empty).
Proof.
  split.
  - apply (proj1 (proj2 (@X11_map_new_weights_and_state
                           (Map.mk zero_init 2 true) _ ltac:(discriminate))
                        _ _ eq_refl)).
    + reflexivity.
    + eexists. split; [right; left; reflexivity|discriminate].
  - exact (proj2 (proj2 (@X11_map_new_weights_and_state
                           (Map.mk zero_init 2 false)
                           [Map.mkShapeDtype [1; 2] "float32";
                            Map.mkShapeDtype [2; 4] "float32"]
                           ltac:(discriminate))
                        (Map.mkShapeDtype [1; 2] "float32")
                        [Map.mkShapeDtype [2; 4] "float32"] eq_refl)
             (or_introl eq_refl)).
Defined.

End MapExample.
Section DropoutExample.

Import (notations) String.

Lemma X12_dropout_noise_shape_witness :
  (exists ns,
      BroadcastedDropout.noise_shape [(-2)%Z] [2; 8; 4] = Ok ns /\
      length ns = 3 /\
      forall i, i < 3 ->
        nth i ns 0 = if existsb (fun d => names 3 d i) [(-2)%Z]
                     then 1 else nth i [2; 8; 4] 0) /\
  BroadcastedDropout.noise_shape [(-2)%Z] [4] = Err IndexError.
Proof.
  split.
  - apply (proj1 (X12_dropout_noise_shape [(-2)%Z] [2; 8; 4])).
    repeat constructor; cbn; lia.
  - apply (proj2 (X12_dropout_noise_shape [(-2)%Z] [4])).
    constructor. unfold in_range. cbn. lia.
Defined.

Lemma X13_dropout_init_witness :
  BroadcastedDropout.init (QArith_base.Qmake 3 2) "train" [(-2)%Z]
  = Err ValueError /\
  BroadcastedDropout.init (QArith_base.Qmake (-1) 2) "train" [(-2)%Z]
  = Ok (BroadcastedDropout.mk (QArith_base.Qmake (-1) 2) [(-2)%Z] "train").
Proof.
  split.
  - apply (proj1 (X13_dropout_init (QArith_base.Qmake 3 2) "train" [(-2)%Z])).
    discriminate.
  - apply (proj2 (X13_dropout_init (QArith_base.Qmake (-1) 2) "train"
                    [(-2)%Z])).
    reflexivity.
Defined.

Lemma X14_dropout_inactive_witness :
  BroadcastedDropout.forward_with_state (@keep_all path_prng) unscaled
    (BroadcastedDropout.mk half [7%Z] "eval") example_x1 empty empty (Some [])
  = Ok (example_x1, empty).
Proof.
  apply (proj2 (@X14_dropout_inactive path_prng keep_all unscaled
                  (BroadcastedDropout.mk half [7%Z] "eval")
                  example_x1 empty empty)).
  left. discriminate.
Defined.

Lemma X15_dropout_training_witness :
  BroadcastedDropout.forward_with_state (@keep_all path_prng) unscaled
    (BroadcastedDropout.mk half [(-2)%Z] "train") (vec 1) empty empty (Some [])
  = Err IndexError /\
  BroadcastedDropout.forward_with_state (@keep_all path_prng) unscaled
    (BroadcastedDropout.mk half [(-2)%Z] "train") example_x1 empty empty
    (Some [])
  = Ok (example_x1, empty).
Proof.
  pose proof (@X15_dropout_training path_prng keep_all unscaled
                (BroadcastedDropout.mk half [(-2)%Z] "train")) as Hx.
  split.
  - apply (proj1 (proj2 (Hx (vec 1) empty empty [] eq_refl eq_refl)));
      reflexivity.
  - destruct (proj2 (proj2 (Hx example_x1 empty empty [] eq_refl eq_refl)))
      as [ns [_ Hf]].
    + repeat constructor; cbn; lia.
    + exact Hf.
Defined.

End DropoutExample.

Lemma X16_half_residual_arity_witness :
  ReversibleHalfResidual.n_preserve example_half_residual = 1 /\
  n_in (ReversibleHalfResidual.layer example_half_residual) = 2 /\
  n_out (ReversibleHalfResidual.layer example_half_residual) = 2.
Proof.
  apply (@X16_half_residual_arity path_prng scale); cbn; lia.
Defined.

Lemma X17_forward_reverse_witness :
  exists x,
    reverse example_half_residual [vec 25; vec 5] example_weights example_state
            (Tuple [empty; empty]) (Some []) = Ok x /\
    outputs (forward example_half_residual x example_weights example_state
                     (Some []))
    = Ok [vec 25; vec 5].
Proof.
  exact (@X17_forward_reverse path_prng scale (vec 25) (vec 5)
           empty empty empty empty empty (Leaf (scalar 3)) empty empty empty
           empty empty empty empty empty empty empty empty empty empty empty
           [] (Some []) [vec 15] empty
           eq_refl eq_refl scale_shape_preserving eq_refl eq_refl eq_refl
           eq_refl).
Defined.

Lemma X18_reverse_and_grad_gradients_witness :
  reverse_and_grad example_half_residual [vec 25; vec 5] [vec 1; vec 100]
                   example_weights example_state example_state (Some [])
  = Ok ([vec 10; vec 5],
        ([vec 1; vec 103],
         ReversibleHalfResidual.weights_of (Leaf (scalar 5)))).
Proof.
  exact (@X18_reverse_and_grad_gradients path_prng scale
           (vec 25) (vec 5) (vec 1) (vec 100)
           empty empty empty empty empty (Leaf (scalar 3)) empty empty empty
           empty empty empty empty empty empty empty empty empty
           example_state (Some [])
           (vec 15) (vec 10) (vec 3) (vec 103) empty (Leaf (scalar 5))
           eq_refl eq_refl (shape_preserving_single scale_shape_preserving)
           eq_refl eq_refl eq_refl eq_refl eq_refl).
Defined.

Lemma X19_reverse_and_grad_assertions_witness :
  reverse_and_grad example_half_residual [vec 25; vec 5] [vec 1]
                   example_weights example_state example_state (Some [])
  = Err AssertionError /\
  forall res,
    reverse_and_grad example_half_residual [vec 25; vec 5] [vec 1; vec 100]
                     (Tuple [empty; Leaf (scalar 1)]) example_state
                     example_state (Some [])
    <> Ok res.
Proof.
  split.
  - apply (proj1 (@X19_reverse_and_grad_assertions path_prng
                    example_half_residual [vec 25; vec 5] [vec 1]
                    example_weights example_state example_state (Some []))).
    discriminate.
  - apply (proj2 (@X19_reverse_and_grad_assertions path_prng
                    example_half_residual [vec 25; vec 5] [vec 1; vec 100]
                    (Tuple [empty; Leaf (scalar 1)]) example_state
                    example_state (Some []))
             [empty; Leaf (scalar 1)] (Leaf (scalar 1)) eq_refl eq_refl).
    discriminate.
Defined.

Lemma X20_wrapper_forward_and_backward_witness :
  AAW.forward_and_backward (AAW.init double_value)
    [vec 1; vec 2; vec 3; vec 4; vec 5] [vec 10; vec 20; vec 30]
    (Tuple [empty; empty; empty]) (Tuple [empty; empty; empty]) (Some [])
  = Ok ([vec 6; vec 4; vec 5], [vec 0; vec 0; vec 20; vec 20; vec 30]).
Proof.
  refine (@X20_wrapper_forward_and_backward path_prng double_value
            (vec 1) (vec 2) (vec 3) (vec 4) (vec 5) (vec 10) (vec 20) (vec 30)
            empty empty empty empty empty empty empty empty empty (Some [])
            _ _ (Tuple [empty; empty; empty]) (Tuple [empty; empty; empty])
            eq_refl eq_refl
            (proj1 (proj2 (proj2 double_value_fits)))
            (proj2 (proj2 (proj2 double_value_fits)))
            double_value_fused eq_refl eq_refl eq_refl).
Defined.

Lemma X21_attention_forward_residual_witness :
  RAHR.forward (RAHR.init triple double_value scale) [vec 10; vec 5]
               (RAHR.tree_of empty empty (Leaf (scalar 3)))
               (RAHR.tree_of empty empty empty) (Some [])
  = Ok ([vec 40; vec 5], RAHR.tree_of empty empty empty).
Proof.
  exact (@X21_attention_forward_residual path_prng triple double_value scale
           (vec 10) (vec 5) empty empty (Leaf (scalar 3)) empty empty empty
           (Some []) example_fits).
Defined.

Lemma X22_attention_reverse_and_grad_assertions_witness :
  match @RAHR.reverse_and_grad path_prng (RAHR.init triple double_value scale)
          [vec 40; vec 5] [vec 1; vec 100]
          (Tuple [empty; Leaf (scalar 1); empty; empty])
          (RAHR.tree_of empty empty empty) (RAHR.tree_of empty empty empty)
          (Some [])
  with
  | Ok _ => False
  | Err _ => True
  end.
Proof.
  destruct (@RAHR.reverse_and_grad path_prng (RAHR.init triple double_value scale)
              [vec 40; vec 5] [vec 1; vec 100]
              (Tuple [empty; Leaf (scalar 1); empty; empty])
              (RAHR.tree_of empty empty empty) (RAHR.tree_of empty empty empty)
              (Some [])) as [res|err] eqn:E; [|exact I].
  refine (@X22_attention_reverse_and_grad_assertions path_prng _ _ _ _ _ _ _
            _ res E).
  right. left. exists (Leaf (scalar 1)). split; [reflexivity|discriminate].
Defined.

Lemma X23_decoder_block_forward_witness :
  forward_with_state (Serial (DecoderBlock triple double_value scale scale))
    [vec 10; vec 5]
    (Tuple [RAHR.tree_of empty empty (Leaf (scalar 3)); empty;
            RHR.weights_of (Leaf (scalar 2)); empty])
    (Tuple [RAHR.tree_of empty empty empty; empty;
            RHR.weights_of empty; empty]) (Some [])
  = Ok ([vec 40; vec 85],
        Tuple [RAHR.tree_of empty empty empty; empty;
               RHR.weights_of empty; empty]).
Proof.
  exact (@X23_decoder_block_forward path_prng triple double_value scale scale
           (vec 10) (vec 5) empty empty (Leaf (scalar 3)) empty empty empty
           (Leaf (scalar 2)) empty empty empty empty empty (Some [])
           example_fits eq_refl eq_refl
           (shape_preserving_single scale_shape_preserving)).
Defined.

Lemma X24_decoder_block_arguments_witness :
  decoder_block_arguments (fun c => c =? 1) 4 (Classes [0; 1]) false
  = Ok [(0, false); (1, true); (0, false); (1, true)] /\
  decoder_block_arguments (fun c => c =? 1) 3 (Classes [0; 1]) false
  = Err AssertionError.
Proof.
  pose proof (@X24_decoder_block_arguments nat (fun c => c =? 1) 4 false) as H4.
  pose proof (@X24_decoder_block_arguments nat (fun c => c =? 1) 3 false) as H3.
  cbv zeta in H4, H3. split.
  - apply (proj2 (proj2 (proj2 H4)) [0; 1] 2); [discriminate|reflexivity].
  - apply (proj1 (proj2 (proj2 H3)) [0; 1]); discriminate.
Defined.

Lemma X26_prolong_shorten_witness :
  shorten 2 (mkTensor [1; 4; 3] (iota 0 12))
  = Ok (mkTensor [1; 2; 6] (iota 0 12)) /\
  prolong 2 (mkTensor [1; 2; 6] (iota 0 12))
  = Ok (mkTensor [1; 4; 3] (iota 0 12)).
Proof.
  apply (@X26_prolong_shorten 2 1 4 3 (iota 0 12));
    try discriminate; reflexivity.
Defined.

Lemma X27_shorten_not_divisible_witness :
  shorten 2 (mkTensor [1; 5; 2] (iota 0 10))
  = Ok (mkTensor [1; 2; 5] (iota 0 10)) /\
  prolong 2 (mkTensor [1; 2; 5] (iota 0 10))
  <> Ok (mkTensor [1; 5; 2] (iota 0 10)).
Proof.
  split; [reflexivity|].
  apply (@X27_shorten_not_divisible 2 (mkTensor [1; 5; 2] (iota 0 10))
           (mkTensor [1; 2; 5] (iota 0 10)) 1 5 [2]);
    try discriminate; reflexivity.
Defined.
